(** * Shallow embedding of [src/clean_and_analyze.py]

    The script cleans two app-store datasets (lists of rows of strings) and
    computes per-category statistics.  Each Python function is rendered as a
    Rocq function of the same name.

    - A Python [str] is the list of its Unicode code points.
    - A row is a list of strings, a dataset a list of rows.
    - A Python exception is the [Raise] branch of the [result] type; the
      built-in exceptions the script can raise are enumerated in [exn].
    - A Python [float] is an IEEE 754 binary64 value, given by the Standard
      Library's executable specification [spec_float] at precision 53 and
      maximal exponent 1024.
    - A Python [dict] is an insertion-ordered association list.
    - Text sent to the console by [print] is returned by the function that
      prints it, where the printed text is what the function is for
      ([delwrongdata], [finduplicate], [display_table]); the row counts that
      [filter_english_and_free] also prints are left out.
    - Loading the files ([opencsv], [separatefromheader],
      [load_and_clean_datasets]) and [main] are outside the model: the
      functions below take the datasets as loaded. *)

From Stdlib Require Import String Ascii.
From Stdlib Require Import List Bool Arith ZArith NArith Lia.
From Stdlib Require Import Sorting.Sorted Permutation.
From Stdlib Require Import Floats.SpecFloat.
From Stdlib Require QArith.
Import ListNotations.

Set Implicit Arguments.

(* ================================================================== *)
(** ** Exceptions *)
(* ================================================================== *)

Inductive exn : Type :=
| IndexError          (* sequence index out of range *)
| KeyError            (* missing dictionary key *)
| ValueError          (* [float] applied to a string that is not a number *)
| ZeroDivisionError.  (* division by zero *)

Inductive result (A : Type) : Type :=
| Ok (a : A)
| Raise (e : exn).

Arguments Ok {A} a.
Arguments Raise {A} e.

Definition bind {A B : Type} (m : result A) (k : A -> result B) : result B :=
  match m with
  | Ok a => k a
  | Raise e => Raise e
  end.

Notation "x <- m ;; k" := (bind m (fun x => k))
  (at level 61, m at next level, right associativity).

(** [for x in l: body], with the loop state [s] threaded through and the
    first exception aborting the loop. *)
Fixpoint for_each {A S : Type} (l : list A) (body : A -> S -> result S)
    (s : S) : result S :=
  match l with
  | [] => Ok s
  | x :: l' => s' <- body x s ;; for_each l' body s'
  end.

(* ================================================================== *)
(** ** Strings, rows, datasets *)
(* ================================================================== *)

(** A string is its sequence of code points; [ord] of a character is the
    code point itself. *)
Definition char := N.
Definition str := list char.
Definition row := list str.
Definition dataset := list row.

Definition ord (c : char) : N := c.

Definition char_eqb : char -> char -> bool := N.eqb.

Fixpoint str_eqb (a b : str) : bool :=
  match a, b with
  | [], [] => true
  | x :: a', y :: b' => char_eqb x y && str_eqb a' b'
  | _, _ => false
  end.

(** [a < b] on strings: lexicographic on code points. *)
Fixpoint str_ltb (a b : str) : bool :=
  match a, b with
  | [], [] => false
  | [], _ :: _ => true
  | _ :: _, [] => false
  | x :: a', y :: b' =>
      if N.ltb x y then true
      else if N.ltb y x then false
      else str_ltb a' b'
  end.

(** The files are opened with [encoding='utf8']: a string literal of this
    development, a sequence of bytes, is decoded to code points the same
    way.  Ill-formed sequences do not occur in the literals used below; a
    stray byte is kept as its own value. *)
Definition byte_val (a : ascii) : N := N_of_ascii a.

Definition cont (a : ascii) : N := N.land (byte_val a) 63.

Fixpoint utf8 (s : string) : str :=
  match s with
  | EmptyString => []
  | String a s1 =>
      let b := byte_val a in
      if N.ltb b 128 then b :: utf8 s1
      else if N.ltb b 224 then
        match s1 with
        | String a1 s2 => (N.land b 31 * 64 + cont a1)%N :: utf8 s2
        | _ => b :: utf8 s1
        end
      else if N.ltb b 240 then
        match s1 with
        | String a1 (String a2 s3) =>
            (N.land b 15 * 4096 + cont a1 * 64 + cont a2)%N :: utf8 s3
        | _ => b :: utf8 s1
        end
      else
        match s1 with
        | String a1 (String a2 (String a3 s4)) =>
            (N.land b 7 * 262144 + cont a1 * 4096 + cont a2 * 64 + cont a3)%N
              :: utf8 s4
        | _ => b :: utf8 s1
        end
  end.

(** [seq[i]] for a Python integer [i]: a negative index counts from the
    end, an index outside the sequence raises [IndexError]. *)
Definition getitem {A : Type} (l : list A) (i : Z) : result A :=
  let n := Z.of_nat (length l) in
  let j := if (i <? 0)%Z then (i + n)%Z else i in
  if (j <? 0)%Z then Raise IndexError
  else match nth_error l (Z.to_nat j) with
       | Some x => Ok x
       | None => Raise IndexError
       end.

(** [del seq[i]] for a non-negative index. *)
Fixpoint delitem {A : Type} (l : list A) (i : nat) : result (list A) :=
  match l, i with
  | [], _ => Raise IndexError
  | _ :: l', O => Ok l'
  | x :: l', S i' => r <- delitem l' i' ;; Ok (x :: r)
  end.

(* ================================================================== *)
(** ** Step 1: [delwrongdata] *)
(* ================================================================== *)

(** The first loop of [delwrongdata]: [enumerate(dataset)] starting at
    index [i], collecting the indices of the rows whose length differs from
    [ref_len].  Each collected index is also printed. *)
Fixpoint wrong_indices_from (ref_len : nat) (i : nat) (rows : dataset)
    : list nat :=
  match rows with
  | [] => []
  | r :: rows' =>
      if Nat.eqb (length r) ref_len
      then wrong_indices_from ref_len (S i) rows'
      else i :: wrong_indices_from ref_len (S i) rows'
  end.

(** [delwrongdata] deletes the wrong rows from the list object it was
    given and returns that same object.  The model returns the indices it
    printed together with the content of the list after the deletions. *)
Definition delwrongdata (dataset0 : dataset) : result (list nat * dataset) :=
  first <- getitem dataset0 0 ;;
  let ref_len := length first in
  let wrong_indices := wrong_indices_from ref_len 0 dataset0 in
  cleaned <- for_each (rev wrong_indices)
               (fun i ds => delitem ds i) dataset0 ;;
  Ok (wrong_indices, cleaned).

(* ================================================================== *)
(** ** Step 5: [is_english] *)
(* ================================================================== *)

(** The [for] loop of [is_english] with its counter; [false] is the early
    [return False], [true] the [return True] after the loop. *)
Fixpoint is_english_loop (name : str) (non_ascii : nat) : bool :=
  match name with
  | [] => true
  | character :: rest =>
      let non_ascii :=
        if N.ltb 127 (ord character) then S non_ascii else non_ascii in
      if Nat.ltb 3 non_ascii then false
      else is_english_loop rest non_ascii
  end.

Definition is_english (name : str) : bool := is_english_loop name 0.

(* ================================================================== *)
(** ** Numbers *)
(* ================================================================== *)

(** Python's [float] is binary64. *)
Definition prec : Z := 53.
Definition emax : Z := 1024.
Definition pyfloat := spec_float.

Definition float_add : pyfloat -> pyfloat -> pyfloat := SFadd prec emax.
Definition float_mul : pyfloat -> pyfloat -> pyfloat := SFmul prec emax.
Definition float_div : pyfloat -> pyfloat -> pyfloat := SFdiv prec emax.
Definition float_ltb : pyfloat -> pyfloat -> bool := SFltb.
Definition float_eqb : pyfloat -> pyfloat -> bool := SFeqb.

Definition is_nan (x : pyfloat) : bool :=
  match x with S754_nan => true | _ => false end.

(** Conversion of a Python [int] to [float] in mixed arithmetic: the
    nearest binary64 value.  The integers converted by the script are
    literals and row counts. *)
Definition float_of_int (n : Z) : pyfloat := binary_normalize prec emax n 0 false.

(** An integer as an unrounded significand with exponent 0. *)
Definition exact_int (n : Z) : spec_float :=
  match n with
  | Z0 => S754_zero false
  | Zpos p => S754_finite false p 0
  | Zneg p => S754_finite true p 0
  end.

(** [a / b] on two [int]s: the quotient rounded once to binary64. *)
Definition int_truediv (a b : Z) : result pyfloat :=
  if (b =? 0)%Z then Raise ZeroDivisionError
  else Ok (float_div (exact_int a) (exact_int b)).

(** [x / n] for a [float] [x] and an [int] [n]. *)
Definition float_truediv_int (x : pyfloat) (n : Z) : result pyfloat :=
  if (n =? 0)%Z then Raise ZeroDivisionError
  else Ok (float_div x (float_of_int n)).

(* ================================================================== *)
(** ** Dictionaries with [str] keys *)
(* ================================================================== *)

Section Dict.
Variable V : Type.

(** Entries in insertion order, no key twice. *)
Definition dict := list (str * V).

(** [d[k]] *)
Fixpoint dict_get (d : dict) (k : str) : result V :=
  match d with
  | [] => Raise KeyError
  | (k', v) :: d' => if str_eqb k k' then Ok v else dict_get d' k
  end.

(** [k in d] *)
Fixpoint dict_mem (d : dict) (k : str) : bool :=
  match d with
  | [] => false
  | (k', _) :: d' => str_eqb k k' || dict_mem d' k
  end.

(** [d[k] = v]: an existing key keeps its place, a new one goes last. *)
Fixpoint dict_set (d : dict) (k : str) (v : V) : dict :=
  match d with
  | [] => [(k, v)]
  | (k', v') :: d' =>
      if str_eqb k k' then (k', v) :: d' else (k', v') :: dict_set d' k v
  end.

(** [for key in d] *)
Definition dict_keys (d : dict) : list str := map fst d.
End Dict.

(** [x in l] for a list of strings. *)
Fixpoint list_mem (x : str) (l : list str) : bool :=
  match l with
  | [] => false
  | y :: l' => str_eqb x y || list_mem x l'
  end.

(* ================================================================== *)
(** ** Step 7: [freq_table] and [display_table] *)
(* ================================================================== *)

(** First loop of [freq_table]; the loop state is [(table, total)]. *)
Definition freq_table_count (index : Z) (r : row) (st : dict Z * Z)
    : result (dict Z * Z) :=
  let '(table, total) := st in
  let total := (total + 1)%Z in
  genre <- getitem r index ;;
  if dict_mem table genre
  then n <- dict_get table genre ;; Ok (dict_set table genre (n + 1)%Z, total)
  else Ok (dict_set table genre 1%Z, total).

(** Second loop of [freq_table]:
    [table_percentages[key] = (table[key] / total) * 100]. *)
Definition freq_table_percent (table : dict Z) (total : Z) (key : str)
    (table_percentages : dict pyfloat) : result (dict pyfloat) :=
  n <- dict_get table key ;;
  q <- int_truediv n total ;;
  Ok (dict_set table_percentages key (float_mul q (float_of_int 100))).

Definition freq_table (database : dataset) (index : Z) : result (dict pyfloat) :=
  st <- for_each database (freq_table_count index) ([], 0%Z) ;;
  let '(table, total) := st in
  for_each (dict_keys table) (freq_table_percent table total) [].

(** [a < b] on the tuples [(percentage, key)]: the first components decide
    unless they are equal, then the second ones do. *)
Definition tuple_ltb (a b : pyfloat * str) : bool :=
  if float_eqb (fst a) (fst b) then str_ltb (snd a) (snd b)
  else float_ltb (fst a) (fst b).

(** [sorted(l, reverse=True)]: the list is reversed, sorted stably in
    ascending order and reversed again.  The stable ascending sort is given
    as an insertion sort. *)
Section Sorted.
Variable A : Type.
Variable ltb : A -> A -> bool.

Fixpoint insert_sorted (x : A) (l : list A) : list A :=
  match l with
  | [] => [x]
  | y :: l' => if ltb x y then x :: y :: l' else y :: insert_sorted x l'
  end.

Definition sort_stable (l : list A) : list A :=
  fold_left (fun acc x => insert_sorted x acc) l [].

Definition sorted_reverse (l : list A) : list A := rev (sort_stable (rev l)).

(** Ascending: no element is less than one before it. *)
Definition ascending (l : list A) : Prop :=
  StronglySorted (fun a b => ltb b a = false) l.
End Sorted.

(** [display_table] returns nothing; its result here is what it prints, one
    pair [(entry[1], entry[0])] per printed line. *)
Definition display_table (dataset0 : dataset) (index : Z)
    : result (list (str * pyfloat)) :=
  table <- freq_table dataset0 index ;;
  table_display <-
    for_each (dict_keys table)
      (fun key acc => v <- dict_get table key ;; Ok (acc ++ [(v, key)])) [] ;;
  let table_sorted := sorted_reverse tuple_ltb table_display in
  Ok (map (fun entry => (snd entry, fst entry)) table_sorted).

(* ================================================================== *)
(** ** [filter_english_and_free] *)
(* ================================================================== *)

(** [for app in data: if is_english(app[col]): out.append(app)] *)
Definition english_only (col : Z) (data : dataset) : result dataset :=
  for_each data
    (fun app acc =>
       name <- getitem app col ;;
       if is_english name then Ok (acc ++ [app]) else Ok acc) [].

(** The price tests of the two stores, on the price string. *)
Definition google_price_is_free (price : str) : bool :=
  str_eqb price (utf8 "0").

Definition apple_price_is_free (price : str) : bool :=
  str_eqb price (utf8 "0.0") || str_eqb price (utf8 "0").

(** [for app in data: if test(app[col]): out.append(app)] *)
Definition free_only (col : Z) (test : str -> bool) (data : dataset)
    : result dataset :=
  for_each data
    (fun app acc =>
       price <- getitem app col ;;
       if test price then Ok (acc ++ [app]) else Ok acc) [].

(** Returns [(android_free, apple_free)]. *)
Definition filter_english_and_free (google_data apple_data : dataset)
    : result (dataset * dataset) :=
  android_english <- english_only 0 google_data ;;
  ios_english <- english_only 1 apple_data ;;
  let google_data := android_english in
  let apple_data := ios_english in
  android_free <- free_only 7 google_price_is_free google_data ;;
  apple_free <- free_only 4 apple_price_is_free apple_data ;;
  Ok (android_free, apple_free).

(** A one-character string literal as a character. *)
Definition ch (a : ascii) : char := byte_val a.

(** [s.replace(old, '')] for a one-character [old]. *)
Definition remove_char (old : char) (s : str) : str :=
  filter (fun c => negb (char_eqb c old)) s.

(* ================================================================== *)
(** ** Step 2: [finduplicate] *)
(* ================================================================== *)

(** [finduplicate] only reports: the model returns the list
    [duplicate_app] whose length and first entries it prints.  The loop
    state is [(unique_app, duplicate_app)]. *)
Definition finduplicate (dataset0 : dataset) : result (list str) :=
  st <- for_each dataset0
          (fun app st =>
             let '(unique_app, duplicate_app) := st in
             appname <- getitem app 0 ;;
             if list_mem appname unique_app
             then Ok (unique_app, duplicate_app ++ [appname])
             else Ok (unique_app ++ [appname], duplicate_app))
          ([], []) ;;
  Ok (snd st).

(* ================================================================== *)
(** ** Steps 3 and 4 and the averages: the functions that parse numbers *)
(* ================================================================== *)

Section Parser.

(** The built-in [float(s)] on a string returns the parsed value or
    raises [ValueError].  Which strings it accepts, and with what value,
    is fixed by the Python implementation (decimal syntax in any Unicode
    digits, [inf], [nan], surrounding white space), not by the script, so
    the script's functions take that as a parameter: [parse_float s] is
    the value of an accepted string. *)
Variable parse_float : str -> option pyfloat.

Definition float_of_str (s : str) : result pyfloat :=
  match parse_float s with
  | Some x => Ok x
  | None => Raise ValueError
  end.

Definition createdicodup_body (app : row) (reviews_max : dict pyfloat)
    : result (dict pyfloat) :=
  name <- getitem app 0 ;;
  field <- getitem app 3 ;;
  n_reviews <- float_of_str field ;;
  smaller <- (if dict_mem reviews_max name
              then cur <- dict_get reviews_max name ;;
                   Ok (float_ltb cur n_reviews)
              else Ok false) ;;
  if smaller then Ok (dict_set reviews_max name n_reviews)
  else if negb (dict_mem reviews_max name)
       then Ok (dict_set reviews_max name n_reviews)
       else Ok reviews_max.

Definition createdicodup (dataset0 : dataset) : result (dict pyfloat) :=
  for_each dataset0 createdicodup_body [].

(** The loop state of [deldupdata] is [(android_clean, already_added)]. *)
Definition deldupdata_body (reviews_max : dict pyfloat) (app : row)
    (st : dataset * list str) : result (dataset * list str) :=
  let '(android_clean, already_added) := st in
  name <- getitem app 0 ;;
  field <- getitem app 3 ;;
  n_reviews <- float_of_str field ;;
  keep <- (if negb (list_mem name already_added)
           then best <- dict_get reviews_max name ;;
                Ok (float_eqb best n_reviews)
           else Ok false) ;;
  if keep then Ok (android_clean ++ [app], already_added ++ [name])
  else Ok (android_clean, already_added).

Definition deldupdata (dataset0 : dataset) (reviews_max : dict pyfloat)
    : result dataset :=
  st <- for_each dataset0 (deldupdata_body reviews_max) ([], []) ;;
  Ok (fst st).

(** [clean_google_duplicates] runs [finduplicate] for its report, then the
    two passes. *)
Definition clean_google_duplicates (google_data : dataset) : result dataset :=
  _ <- finduplicate google_data ;;
  reviews_max <- createdicodup google_data ;;
  deldupdata google_data reviews_max.

(* ---------------------------------------------------------------- *)
(** *** Averages per genre and per category *)

(** Inner loop of [compute_apple_genre_avg_ratings]; the loop state is
    [(total, len_genre)].  [total] starts as the integer 0 and becomes a
    float with the first addition, [0 + x] being [0.0 + x]. *)
Definition apple_sum_body (genre : str) (r : row) (st : pyfloat * Z)
    : result (pyfloat * Z) :=
  let '(total, len_genre) := st in
  genre_app <- getitem r 11 ;;
  if str_eqb genre_app genre then
    field <- getitem r 5 ;;
    rating <- float_of_str field ;;
    Ok (float_add total rating, (len_genre + 1)%Z)
  else Ok (total, len_genre).

Definition compute_apple_genre_avg_ratings (apple_data : dataset)
    : result (dict pyfloat) :=
  genre_freq <- freq_table apple_data 11 ;;
  for_each (dict_keys genre_freq)
    (fun genre results =>
       st <- for_each apple_data (apple_sum_body genre) (float_of_int 0, 0%Z) ;;
       let '(total, len_genre) := st in
       av_num_rating <- float_truediv_int total len_genre ;;
       Ok (dict_set results genre av_num_rating)) [].

(** [installs.replace('+', '').replace(',', '')] *)
Definition normalize_installs (installs : str) : str :=
  remove_char (ch ",") (remove_char (ch "+") installs).

Definition google_sum_body (category : str) (r : row) (st : pyfloat * Z)
    : result (pyfloat * Z) :=
  let '(total, len_category) := st in
  category_app <- getitem r 1 ;;
  if str_eqb category_app category then
    installs <- getitem r 5 ;;
    let installs := normalize_installs installs in
    installs <- float_of_str installs ;;
    Ok (float_add total installs, (len_category + 1)%Z)
  else Ok (total, len_category).

Definition compute_google_category_avg_installs (google_data : dataset)
    : result (dict pyfloat) :=
  category_freq <- freq_table google_data 1 ;;
  for_each (dict_keys category_freq)
    (fun category results =>
       st <- for_each google_data (google_sum_body category)
               (float_of_int 0, 0%Z) ;;
       let '(total, len_category) := st in
       av_installs <- float_truediv_int total len_category ;;
       Ok (dict_set results category av_installs)) [].

End Parser.

(* ================================================================== *)
(** ** The built-in [float] on ASCII strings *)
(* ================================================================== *)

(** An instance of the parameter [parse_float] for the examples: Python's
    [float(s)] restricted to ASCII input.  The accepted syntax is
    [[sign] (number [exponent] | "inf" | "infinity" | "nan")] between
    optional white space, letters in either case, digits optionally grouped
    by single underscores; the value is the decimal number rounded once to
    binary64. *)

Definition is_space (c : char) : bool :=
  N.eqb c 32 || (N.leb 9 c && N.leb c 13).

Definition is_digit (c : char) : bool := N.leb 48 c && N.leb c 57.

Definition digit_val (c : char) : Z := Z.of_N c - 48.

Definition lower (c : char) : char :=
  if N.leb 65 c && N.leb c 90 then (c + 32)%N else c.

Fixpoint lstrip (s : str) : str :=
  match s with
  | c :: s' => if is_space c then lstrip s' else s
  | [] => []
  end.

Definition strip (s : str) : str := rev (lstrip (rev (lstrip s))).

(** The rest of a digit part after its first digit: the value read so far,
    the number of digits read and the unread input. *)
Fixpoint digits_rest (acc : Z) (n : Z) (s : str) : Z * Z * str :=
  match s with
  | c :: s' =>
      if is_digit c then digits_rest (10 * acc + digit_val c) (n + 1) s'
      else if N.eqb c (ch "_") then
        match s' with
        | c' :: s'' =>
            if is_digit c'
            then digits_rest (10 * acc + digit_val c') (n + 1) s''
            else (acc, n, s)
        | [] => (acc, n, s)
        end
      else (acc, n, s)
  | [] => (acc, n, s)
  end.

Definition digitpart (acc : Z) (s : str) : option (Z * Z * str) :=
  match s with
  | c :: s' =>
      if is_digit c then Some (digits_rest (10 * acc + digit_val c) 1 s')
      else None
  | [] => None
  end.

(** [number]: the digits as an integer and the count of fraction digits. *)
Definition number (s : str) : option (Z * Z * str) :=
  match digitpart 0 s with
  | Some (ip, _, r) =>
      match r with
      | c :: r' =>
          if N.eqb c (ch ".") then
            match digitpart ip r' with
            | Some (m, nfrac, r'') => Some (m, nfrac, r'')
            | None => Some (ip, 0, r')
            end
          else Some (ip, 0, r)
      | [] => Some (ip, 0, r)
      end
  | None =>
      match s with
      | c :: r' => if N.eqb c (ch ".") then digitpart 0 r' else None
      | [] => None
      end
  end%Z.

(** [exponent]: absent, or [e] with an optionally signed digit part. *)
Definition exponent (s : str) : option (Z * str) :=
  match s with
  | c :: r =>
      if N.eqb (lower c) (ch "e") then
        match r with
        | c' :: r' =>
            if N.eqb c' (ch "-") then
              match digitpart 0 r' with
              | Some (e, _, r'') => Some (- e, r'')
              | None => None
              end
            else if N.eqb c' (ch "+") then
              match digitpart 0 r' with
              | Some (e, _, r'') => Some (e, r'')
              | None => None
              end
            else
              match digitpart 0 r with
              | Some (e, _, r'') => Some (e, r'')
              | None => None
              end
        | [] => None
        end
      else Some (0, s)
  | [] => Some (0, s)
  end%Z.

(** The decimal number [m * 10 ^ e], [m >= 0], with sign [neg]. *)
Definition decimal (neg : bool) (m e : Z) : pyfloat :=
  match m with
  | Zpos p =>
      if (0 <=? e)%Z
      then binary_normalize prec emax
             (if neg then - (m * 10 ^ e) else m * 10 ^ e)%Z 0 false
      else float_div (S754_finite neg p 0) (exact_int (10 ^ (- e)))
  | _ => S754_zero neg
  end.

Definition absfloatvalue (neg : bool) (s : str) : option pyfloat :=
  let low := map lower s in
  if str_eqb low (utf8 "inf") || str_eqb low (utf8 "infinity")
  then Some (S754_infinity neg)
  else if str_eqb low (utf8 "nan") then Some S754_nan
  else
    match number s with
    | Some (m, nfrac, r) =>
        match exponent r with
        | Some (e, []) => Some (decimal neg m (e - nfrac))
        | _ => None
        end
    | None => None
    end.

Definition ascii_float (s : str) : option pyfloat :=
  match strip s with
  | c :: r =>
      if N.eqb c (ch "-") then absfloatvalue true r
      else if N.eqb c (ch "+") then absfloatvalue false r
      else absfloatvalue false (c :: r)
  | [] => None
  end.

(* ================================================================== *)
(** ** Notions used to state the properties *)
(* ================================================================== *)

(** The field of a row at a column that exists. *)
Definition has_field (r : row) (col : Z) : Prop :=
  exists s, getitem r col = Ok s.

(** Number of characters of a name outside ASCII. *)
Definition non_ascii_count (name : str) : nat :=
  length (filter (fun c => N.ltb 127 (ord c)) name).

(** The rows of a dataset with as many fields as [ref_len]. *)
Definition conforming (ref_len : nat) (d : dataset) : dataset :=
  filter (fun r => Nat.eqb (length r) ref_len) d.

(** The field of a row at a column; the empty string where the row has no
    such column. *)
Definition field (r : row) (col : Z) : str :=
  match getitem r col with
  | Ok s => s
  | Raise _ => []
  end.

(** The name of a Google Play row. *)
Definition name (r : row) : str := field r 0.

Section ReviewNotions.
Variable parse_float : str -> option pyfloat.

(** The review count of a row as the script reads it: column 3 through
    [float].  (Not-a-number where there is no such value.) *)
Definition reviews (r : row) : pyfloat :=
  match parse_float (field r 3) with
  | Some x => x
  | None => S754_nan
  end.

(** [float] accepts the review count of the row. *)
Definition reviews_parse (r : row) : Prop :=
  has_field r 3 /\ exists x, parse_float (field r 3) = Some x.

(** [float] accepts the review count of the row and its value is a number,
    that is, not the value [nan]. *)
Definition reviews_number (r : row) : Prop :=
  has_field r 3
  /\ exists x, parse_float (field r 3) = Some x /\ is_nan x = false.

(** What the duplicate removal promises of its output [out] on the input
    [d]: for each name of the input, [out] has exactly one row [r] of that
    name; [r] is a row of the input, no row of that name has more reviews
    than [r], and every row of that name before [r] has fewer. *)
Definition one_row_per_name (d out : dataset) : Prop :=
  forall n, In n (map name d) ->
    exists r pre post,
      filter (fun x => str_eqb (name x) n) out = [r]
      /\ d = pre ++ r :: post
      /\ name r = n
      /\ (forall x, In x d -> name x = n ->
            float_ltb (reviews r) (reviews x) = false)
      /\ (forall x, In x pre -> name x = n ->
            float_ltb (reviews x) (reviews r) = true).
End ReviewNotions.

(** Position of a float in the order of [<] and [==]: the sign class, then
    exponent and significand, mirrored for negative values.  [nan] is given
    a place of its own, outside the order. *)
Definition rank (x : pyfloat) : Z * Z * Z :=
  match x with
  | S754_infinity true => (-2, 0, 0)
  | S754_finite true m e => (-1, - e, - Zpos m)
  | S754_zero _ => (0, 0, 0)
  | S754_finite false m e => (1, e, Zpos m)
  | S754_infinity false => (2, 0, 0)
  | S754_nan => (3, 0, 0)
  end%Z.

Definition lt3 (a b : Z * Z * Z) : Prop :=
  let '(a1, a2, a3) := a in
  let '(b1, b2, b3) := b in
  (a1 < b1 \/ (a1 = b1 /\ (a2 < b2 \/ (a2 = b2 /\ a3 < b3))))%Z.


(** The loop bodies of [createdicodup] and [deldupdata] on a row whose
    review count [float] accepts, as functions of the loop state. *)
Section DedupSteps.
Variable parse_float : str -> option pyfloat.

Definition index_step (reviews_max : dict pyfloat) (r : row) : dict pyfloat :=
  match dict_get reviews_max (name r) with
  | Ok cur =>
      if float_ltb cur (reviews parse_float r)
      then dict_set reviews_max (name r) (reviews parse_float r)
      else reviews_max
  | Raise _ => dict_set reviews_max (name r) (reviews parse_float r)
  end.

(** [reviews_max[name] == n_reviews] for the row [r]. *)
Definition is_best (reviews_max : dict pyfloat) (r : row) : bool :=
  match dict_get reviews_max (name r) with
  | Ok best => float_eqb best (reviews parse_float r)
  | Raise _ => false
  end.

Definition dedup_step (reviews_max : dict pyfloat) (st : dataset * list str)
    (r : row) : dataset * list str :=
  if negb (list_mem (name r) (snd st)) && is_best reviews_max r
  then (fst st ++ [r], snd st ++ [name r])
  else st.

(** The index after the rows [P]: every name of [P] is a key, and the value
    under a name is the review count of a row of [P] of that name that no
    row of [P] of that name exceeds. *)
Definition index_inv (P : dataset) (rm : dict pyfloat) : Prop :=
  (forall r, In r P -> dict_mem rm (name r) = true)
  /\ (forall n m, dict_get rm n = Ok m ->
        (exists r, In r P /\ name r = n /\ reviews parse_float r = m)
        /\ (forall r, In r P -> name r = n ->
              float_ltb m (reviews parse_float r) = false)).

(** The state [(android_clean, already_added)] of [deldupdata] after the
    rows [P], for the index [rm]: the names added are those of the rows
    kept, none twice; a kept row matches the index; the name of every row of
    [P] that matches the index has been added; and no row of [P] before a
    kept row has its name and matches the index. *)
Definition dedup_inv (rm : dict pyfloat) (P : dataset)
    (st : dataset * list str) : Prop :=
  snd st = map name (fst st)
  /\ NoDup (snd st)
  /\ (forall r, In r (fst st) -> is_best rm r = true)
  /\ (forall r, In r P -> is_best rm r = true -> In (name r) (snd st))
  /\ (forall r, In r (fst st) ->
        exists pre post, P = pre ++ r :: post
          /\ forall x, In x pre -> name x = name r -> is_best rm x = false).

End DedupSteps.

(* ------------------------------------------------------------------ *)
(** *** Frequencies and averages *)

(** The values of a column, row by row. *)
Definition column (d : dataset) (col : Z) : list str :=
  map (fun r => field r col) d.

(** How many times a value occurs in a list. *)
Definition occurrences (k : str) (l : list str) : Z :=
  Z.of_nat (length (filter (str_eqb k) l)).

(** [(n / total) * 100] on integers [n] and [total]. *)
Definition percentage (n total : Z) : pyfloat :=
  float_mul (float_div (exact_int n) (exact_int total)) (float_of_int 100).

(** The first loop of [freq_table] on the value of one row, and on the
    values of all rows. *)
Definition count_step (table : dict Z) (genre : str) : dict Z :=
  match dict_get table genre with
  | Ok n => dict_set table genre (n + 1)%Z
  | Raise _ => dict_set table genre 1%Z
  end.

Definition tally (l : list str) (table : dict Z) : dict Z :=
  fold_left count_step l table.

(** A table of counts as the table of percentages [freq_table] makes of
    it. *)
Definition percent_entry (total : Z) (e : str * Z) : str * pyfloat :=
  (fst e, percentage (snd e) total).

(** The count under a key, 0 for a missing key. *)
Definition count_of (table : dict Z) (k : str) : Z :=
  match dict_get table k with
  | Ok n => n
  | Raise _ => 0%Z
  end.

(** The arithmetic mean of floats as floats compute it: the sum, taken from
    the left starting at 0, divided by the number of values. *)
Definition mean (values : list pyfloat) : pyfloat :=
  float_div (fold_left float_add values (float_of_int 0))
            (float_of_int (Z.of_nat (length values))).

(** The binary64 percentages of a table of [total] rows order the counts
    as the integers do: different counts have different percentages, in
    the same order. *)
Definition percent_faithful (total : Z) : Prop :=
  forall a b : Z,
    (0 < a <= total)%Z -> (0 < b <= total)%Z ->
    float_ltb (percentage a total) (percentage b total) = (a <? b)%Z
    /\ float_eqb (percentage a total) (percentage b total) = (a =? b)%Z.

(** [<] on pairs [(key, count)] read as the tuples [(count, key)]. *)
Definition entry_ltb (a b : str * Z) : bool :=
  if (snd a =? snd b)%Z then str_ltb (fst a) (fst b)
  else (snd a <? snd b)%Z.

(** An entry comes before another in the display: it has the greater count,
    or the same count and the greater name. *)
Definition displayed_before (a b : str * Z) : Prop :=
  (snd b < snd a)%Z
  \/ (snd a = snd b /\ str_ltb (fst b) (fst a) = true).

Section AverageNotions.
Variable parse_float : str -> option pyfloat.

(** The numeric field of a row after its normalisation, as [float] reads
    it.  (Not-a-number where there is no such value.) *)
Definition numeric (norm : str -> str) (vcol : Z) (r : row) : pyfloat :=
  match parse_float (norm (field r vcol)) with
  | Some x => x
  | None => S754_nan
  end.

(** The numeric fields of the rows of a group, in the order of the rows. *)
Definition group_values (norm : str -> str) (gcol vcol : Z) (d : dataset)
    (group : str) : list pyfloat :=
  map (numeric norm vcol)
      (filter (fun r => str_eqb (field r gcol) group) d).

(** The two average functions have one shape: group by the column [gcol],
    average the column [vcol] read through [norm] and [float]. *)
Definition sum_body (norm : str -> str) (gcol vcol : Z) (group : str)
    (r : row) (st : pyfloat * Z) : result (pyfloat * Z) :=
  let '(total, len_group) := st in
  group_app <- getitem r gcol ;;
  if str_eqb group_app group then
    x <- getitem r vcol ;;
    x <- float_of_str parse_float (norm x) ;;
    Ok (float_add total x, (len_group + 1)%Z)
  else Ok (total, len_group).

Definition average_by (norm : str -> str) (gcol vcol : Z) (d : dataset)
    : result (dict pyfloat) :=
  freq <- freq_table d gcol ;;
  for_each (dict_keys freq)
    (fun group results =>
       st <- for_each d (sum_body norm gcol vcol group) (float_of_int 0, 0%Z) ;;
       let '(total, len_group) := st in
       av <- float_truediv_int total len_group ;;
       Ok (dict_set results group av)) [].


(** [float] accepts the numeric field of the row. *)
Definition numeric_parses (norm : str -> str) (vcol : Z) (r : row) : bool :=
  match parse_float (norm (field r vcol)) with
  | Some _ => true
  | None => false
  end.

(** The inner loop of the average functions on one row, where it does not
    raise: rows of other groups are passed over. *)
Definition sum_good (norm : str -> str) (gcol vcol : Z) (group : str)
    (r : row) : bool :=
  negb (str_eqb (field r gcol) group) || numeric_parses norm vcol r.

Definition sum_step (norm : str -> str) (gcol vcol : Z) (group : str)
    (st : pyfloat * Z) (r : row) : pyfloat * Z :=
  if str_eqb (field r gcol) group
  then (float_add (fst st) (numeric norm vcol r), (snd st + 1)%Z)
  else st.

End AverageNotions.

(* ------------------------------------------------------------------ *)
(** *** Rounding *)

(** The location of the quotient of [N] by [D] between the integers around
    it, from the remainder [N mod D]: exact, below the middle, in the
    middle or above it. *)
Definition loc_of (N D : Z) : location :=
  if (N mod D =? 0)%Z then loc_Exact
  else loc_Inexact (Z.compare (2 * (N mod D)) D).

(** A significand with its round and sticky bits stands for the quotient
    of [N] by [D]: the significand is the integer part, the round bit says
    that the remainder is at least half of [D], the sticky bit that it is
    neither nothing nor that half. *)
Definition located (mrs : shr_record) (N D : Z) : Prop :=
  (0 < D
   /\ shr_m mrs = N / D
   /\ shr_r mrs = (D <=? 2 * (N mod D))
   /\ shr_s mrs = negb (N mod D =? 0) && negb (2 * (N mod D) =? D))%Z.

(** The significand of [100.0]: [100 * 2 ^ 46]. *)
Definition hundred : positive := 7036874417766400.

(* ================================================================== *)
(** ** Example datasets *)
(* ================================================================== *)

(** A Google Play row with the columns the script reads: name (0),
    category (1), reviews (3), installs (5), price (7). *)
Definition google_row (app category n_reviews installs price : string) : row :=
  [utf8 app; utf8 category; utf8 "4.1"; utf8 n_reviews; utf8 "19M";
   utf8 installs; utf8 "Free"; utf8 price].

(** An App Store row with the columns the script reads: name (1),
    price (4), rating count (5), genre (11). *)
Definition apple_row (app price n_ratings genre : string) : row :=
  [utf8 "1"; utf8 app; utf8 "100"; utf8 "USD"; utf8 price; utf8 n_ratings;
   utf8 "0"; utf8 "3.5"; utf8 "3.5"; utf8 "1.0"; utf8 "4+"; utf8 genre].

(** Names A, A, B with review counts 5, 9, 9. *)
Definition google_example : dataset :=
  [google_row "A" "TOOLS" "5" "10,000+" "0";
   google_row "A" "TOOLS" "9" "50,000+" "0";
   google_row "B" "GAME" "9" "1,000+" "0"].

Definition apple_example : dataset :=
  [apple_row "Notes" "0.0" "10" "Productivity";
   apple_row "Paint" "0.00" "30" "Productivity";
   apple_row "Chess" "0" "5" "Games"].

(** One app whose review count is the string "nan". *)
Definition nan_reviews_example : dataset :=
  [google_row "A" "TOOLS" "nan" "10,000+" "0"].

(** A second row whose review count and installs are not numbers. *)
Definition malformed_example : dataset :=
  [google_row "A" "TOOLS" "5" "10,000+" "0";
   google_row "B" "GAME" "3.0M" "Free" "0"].

(* ================================================================== *)
(** ** The remaining functions of the script *)
(* ================================================================== *)

(** [seq[start:stop]] for Python integers [start] and [stop]: an index
    below zero counts from the end, an index outside the sequence is brought
    back to its nearest end, and the slice is empty where [stop] does not
    come after [start]. *)
Definition clamp_index (n i : Z) : Z :=
  if (i <? 0)%Z then Z.max (i + n) 0 else Z.min i n.

Definition slice {A : Type} (l : list A) (start stop : Z) : list A :=
  let n := Z.of_nat (length l) in
  let lo := clamp_index n start in
  let hi := clamp_index n stop in
  firstn (Z.to_nat (hi - lo)) (skipn (Z.to_nat lo) l).

(** What [explore_data] prints, line by line. *)
Inductive line : Type :=
| RowLine (r : row)          (* [print(row)] *)
| BlankLine                  (* [print('\n')] *)
| RowCount (n : nat)         (* [print('Number of rows:', len(dataset))] *)
| ColumnCount (n : nat).     (* [print('Number of columns:', ...)] *)

(** [explore_data] returns nothing.  The model gives the lines printed and
    how the call ended: the lines printed before an exception stay
    printed. *)
Definition explore_data (dataset0 : dataset) (start stop : Z)
    (rows_and_columns : bool) : list line * result unit :=
  let dataset_slice := slice dataset0 start stop in
  let printed := flat_map (fun r => [RowLine r; BlankLine]) dataset_slice in
  if rows_and_columns then
    let printed := printed ++ [RowCount (length dataset0)] in
    match getitem dataset0 0 with
    | Ok first => (printed ++ [ColumnCount (length first)], Ok tt)
    | Raise e => (printed, Raise e)
    end
  else (printed, Ok tt).

(** [separatefromheader]: the argument [hdataset] is overwritten before it
    is read.  Returns [(dataset[1:], dataset[0])]. *)
Definition separatefromheader (dataset0 : dataset) (hdataset : option row)
    : result (dataset * row) :=
  hdataset <- getitem dataset0 0 ;;
  let dataset0 := slice dataset0 1 (Z.of_nat (length dataset0)) in
  Ok (dataset0, hdataset).

Section Loader.

(** [opencsv(path)]: the rows of the file as the [csv] reader gives them.
    Reading and splitting the file is the work of Python's library, so the
    script's functions take it as a parameter. *)
Variable opencsv : str -> result dataset.

Variable parse_float : str -> option pyfloat.

(** Returns [(apple_data, google_data, header_apple_data,
    header_google_data)]; the model adds, in front, the indices that
    [delwrongdata] printed. *)
Definition load_and_clean_datasets (apple_path google_path : str)
    : result (list nat * (dataset * dataset * row * row)) :=
  apple_data <- opencsv apple_path ;;
  google_data <- opencsv google_path ;;
  g <- separatefromheader google_data None ;;
  let '(google_data, header_google_data) := g in
  a <- separatefromheader apple_data None ;;
  let '(apple_data, header_apple_data) := a in
  w <- delwrongdata google_data ;;
  let '(printed, google_data) := w in
  Ok (printed, (apple_data, google_data, header_apple_data, header_google_data)).

(** [main] returns nothing; the model returns the two dictionaries whose
    entries it prints last, [(apple_genre_avgs, google_category_avgs)].
    The two calls of [explore_data] print a row each and cannot fail. *)
Definition main : result (dict pyfloat * dict pyfloat) :=
  loaded <- load_and_clean_datasets (utf8 "data/AppleStore.csv")
              (utf8 "data/googleplaystore.csv") ;;
  let '(_, (apple_data, google_data, header_apple_data, header_google_data)) :=
    loaded in
  _ <- snd (explore_data google_data 1 2 false) ;;
  _ <- snd (explore_data apple_data 1 2 false) ;;
  google_data <- clean_google_duplicates parse_float google_data ;;
  filtered <- filter_english_and_free google_data apple_data ;;
  let '(google_data, apple_data) := filtered in
  apple_genre_avgs <- compute_apple_genre_avg_ratings parse_float apple_data ;;
  google_category_avgs <-
    compute_google_category_avg_installs parse_float google_data ;;
  Ok (apple_genre_avgs, google_category_avgs).

End Loader.

(** The distinct values of a list in the order of their first
    appearance. *)
Definition first_appearances (l : list str) : list str :=
  fold_left (fun seen x => if list_mem x seen then seen else seen ++ [x]) l [].

(** The row at a position of a dataset. *)
Definition row_at (d : dataset) (i : nat) : option row := nth_error d i.

(** The loop of [finduplicate] on the name of one row. *)
Definition seen_step (seen : list str) (x : str) : list str :=
  if list_mem x seen then seen else seen ++ [x].

Definition finduplicate_step (st : list str * list str) (x : str)
    : list str * list str :=
  if list_mem x (fst st) then (fst st, snd st ++ [x])
  else (fst st ++ [x], snd st).

(** Two files for the examples: a header and the example rows; the Google
    Play file has one more row, with a field missing. *)
Definition example_files (path : str) : result dataset :=
  if str_eqb path (utf8 "data/AppleStore.csv")
  then Ok (apple_row "track_name" "price" "rating_count_tot" "prime_genre"
             :: apple_example)
  else if str_eqb path (utf8 "data/googleplaystore.csv")
  then Ok (google_row "App" "Category" "Reviews" "Installs" "Price"
             :: google_example
             ++ [[utf8 "Life Made WI-Fi"; utf8 "1.9"; utf8 "19"; utf8 "3.0M";
                  utf8 "1,000+"; utf8 "Free"; utf8 "0"]])
  else Ok [].

(** [l1] is [l2] with some of its elements left out: the elements of [l1]
    are elements of [l2], in the order they have in [l2]. *)
Inductive subsequence {A : Type} : list A -> list A -> Prop :=
| subsequence_nil : subsequence [] []
| subsequence_skip (x : A) (l1 l2 : list A) :
    subsequence l1 l2 -> subsequence l1 (x :: l2)
| subsequence_keep (x : A) (l1 l2 : list A) :
    subsequence l1 l2 -> subsequence (x :: l1) (x :: l2).

(* ================================================================== *)
(** ** The averages in the words of the specification *)
(* ================================================================== *)

(** The notions below are not taken from the script: they say what the
    specification asks of the averages, in terms of the Standard Library
    only, so that the script's functions can be compared with them. *)

(** A string with every '+' (U+002B, code point 43) and every ','
    (U+002C, code point 44) deleted. *)
Fixpoint delete_plus_comma (s : str) : str :=
  match s with
  | [] => []
  | c :: rest =>
      if (N.eqb c 43 || N.eqb c 44)%N
      then delete_plus_comma rest
      else c :: delete_plus_comma rest
  end.

(** The mean of binary64 values as IEEE 754 arithmetic computes it: the
    values are added one by one to 0.0, in their order, each addition
    rounded to the nearest binary64 value, and the sum is divided by the
    number of values, rounded once more. *)
Definition binary64_mean (values : list spec_float) : spec_float :=
  SFdiv 53 1024
    (fold_left (SFadd 53 1024) values (S754_zero false))
    (binary_normalize 53 1024 (Z.of_nat (length values)) 0 false).

(** The rational number a binary64 value stands for; infinities and [nan]
    stand for none. *)
Definition float_value (x : spec_float) : option QArith_base.Q :=
  match x with
  | S754_zero _ => Some (QArith_base.inject_Z 0)
  | S754_finite s m e =>
      Some (QArith_base.Qmult
              (QArith_base.inject_Z (if s then Zneg m else Zpos m))
              (QArith_base.Qpower (QArith_base.inject_Z 2) e))
  | _ => None
  end.

(** The sum of the numbers a list of binary64 values stands for. *)
Fixpoint exact_sum (values : list spec_float) : option QArith_base.Q :=
  match values with
  | [] => Some (QArith_base.inject_Z 0)
  | v :: rest =>
      match float_value v, exact_sum rest with
      | Some a, Some b => Some (QArith_base.Qplus a b)
      | _, _ => None
      end
  end.

(** [r] is the arithmetic mean of [values]: the number [r] stands for,
    times the number of values, is their sum. *)
Definition arithmetic_mean (values : list spec_float) (r : spec_float) : Prop :=
  values <> []
  /\ match float_value r, exact_sum values with
     | Some q, Some total =>
         QArith_base.Qeq
           (QArith_base.Qmult q
              (QArith_base.inject_Z (Z.of_nat (length values))))
           total
     | _, _ => False
     end.


(** One app with two rows: a review count "nan", then a review count 5. *)
Definition nan_then_number_example : dataset :=
  [google_row "A" "TOOLS" "nan" "10,000+" "0";
   google_row "A" "TOOLS" "5" "10,000+" "0"].

(* ================================================================== *)
(** * Properties *)
(* ================================================================== *)

Unset Implicit Arguments.

(** ** Generic facts about the loop combinator and about strings *)

Lemma for_each_app (A S : Type) (body : A -> S -> result S) (l1 l2 : list A) (s : S) :
  for_each (l1 ++ l2) body s = (s' <- for_each l1 body s ;; for_each l2 body s').
Proof.
  revert s. induction l1 as [|x l1 IH]; intros s; simpl; [reflexivity|].
  destruct (body x s) as [s'|e]; simpl; [apply IH | reflexivity].
Qed.

Lemma str_eqb_eq (a b : str) : str_eqb a b = true <-> a = b.
Proof.
  revert b. induction a as [|x a IH]; intros [|y b]; simpl; split; intros H;
    try reflexivity; try discriminate.
  - apply andb_true_iff in H. destruct H as [H1 H2].
    apply N.eqb_eq in H1. apply IH in H2. congruence.
  - injection H as -> ->. apply andb_true_iff. split.
    + apply N.eqb_refl.
    + apply IH. reflexivity.
Qed.

Lemma str_eqb_refl (a : str) : str_eqb a a = true.
Proof. apply str_eqb_eq. reflexivity. Qed.

Lemma str_eqb_neq (a b : str) : str_eqb a b = false <-> a <> b.
Proof.
  split; intros H.
  - intros E. apply str_eqb_eq in E. congruence.
  - destruct (str_eqb a b) eqn:E; [|reflexivity].
    apply str_eqb_eq in E. contradiction.
Qed.

Lemma str_eqb_sym (a b : str) : str_eqb a b = str_eqb b a.
Proof.
  destruct (str_eqb a b) eqn:E.
  - apply str_eqb_eq in E. subst. symmetry. apply str_eqb_refl.
  - symmetry. apply str_eqb_neq. apply str_eqb_neq in E. congruence.
Qed.

(** ** [is_english] *)

Lemma is_english_loop_count (name : str) (k : nat) :
  k <= 3 ->
  is_english_loop name k = Nat.leb (k + non_ascii_count name) 3.
Proof.
  revert k. induction name as [|c name IH]; intros k Hk.
  - simpl. unfold non_ascii_count. simpl. rewrite Nat.add_0_r.
    symmetry. apply Nat.leb_le. exact Hk.
  - simpl. unfold non_ascii_count in *. simpl.
    destruct (N.ltb 127 (ord c)); simpl.
    + destruct (Nat.ltb 3 (S k)) eqn:E.
      * apply Nat.ltb_lt in E. symmetry. apply Nat.leb_gt. lia.
      * apply Nat.ltb_ge in E. rewrite IH by lia. f_equal. lia.
    + destruct (Nat.ltb 3 k) eqn:E.
      * apply Nat.ltb_lt in E. lia.
      * apply IH. exact Hk.
Qed.

(** C3. [is_english] answers [True] exactly when the name has at most three
    characters with a code point above 127.  "Instachat 😜", with one such
    character, is English; "爱奇艺PPS -《欢乐颂2》" is not. *)
Theorem is_english_threshold :
  (forall name : str, is_english name = Nat.leb (non_ascii_count name) 3)
  /\ non_ascii_count (utf8 "Instachat 😜") = 1
  /\ is_english (utf8 "Instachat 😜") = true
  /\ is_english (utf8 "爱奇艺PPS -《欢乐颂2》") = false.
Proof.
  split; [|repeat split; reflexivity].
  intros name. unfold is_english.
  rewrite is_english_loop_count by lia. reflexivity.
Qed.

(** ** [delwrongdata] *)

Lemma delitem_middle (A : Type) (pre : list A) (x : A) (l : list A) :
  delitem (pre ++ x :: l) (length pre) = Ok (pre ++ l).
Proof.
  induction pre as [|y pre IH]; simpl; [reflexivity|].
  rewrite IH. reflexivity.
Qed.

(** Deleting the collected indices from the last to the first leaves the
    conforming rows, in place. *)
Lemma delete_wrong_rows (ref_len : nat) (l pre : dataset) :
  for_each (rev (wrong_indices_from ref_len (length pre) l))
    (fun i ds => delitem ds i) (pre ++ l)
  = Ok (pre ++ conforming ref_len l).
Proof.
  revert pre. induction l as [|r l IH]; intros pre; simpl; [reflexivity|].
  assert (E : pre ++ r :: l = (pre ++ [r]) ++ l)
    by (rewrite <- app_assoc; reflexivity).
  assert (L : S (length pre) = length (pre ++ [r]))
    by (rewrite length_app; simpl; lia).
  destruct (Nat.eqb (length r) ref_len) eqn:Hr.
  - rewrite E, L, IH. rewrite <- app_assoc. reflexivity.
  - simpl. rewrite for_each_app. rewrite E, L, IH. simpl.
    rewrite <- app_assoc. simpl.
    rewrite delitem_middle. reflexivity.
Qed.

Lemma delwrongdata_cons (first : row) (rest : dataset) :
  delwrongdata (first :: rest)
  = Ok (wrong_indices_from (length first) 0 (first :: rest),
        conforming (length first) (first :: rest)).
Proof.
  unfold delwrongdata.
  change (getitem (first :: rest) 0) with (Ok (A:=row) first). cbn [bind].
  pose proof (delete_wrong_rows (length first) (first :: rest) []) as D.
  cbn [app length] in D. rewrite D. reflexivity.
Qed.

Lemma conforming_cons_first (first : row) (rest : dataset) :
  conforming (length first) (first :: rest)
  = first :: conforming (length first) rest.
Proof. unfold conforming. simpl. rewrite Nat.eqb_refl. reflexivity. Qed.

Lemma wrong_indices_conforming (ref_len i : nat) (d : dataset) :
  wrong_indices_from ref_len i (conforming ref_len d) = [].
Proof.
  revert i. induction d as [|r d IH]; intros i; simpl; [reflexivity|].
  destruct (Nat.eqb (length r) ref_len) eqn:E; simpl.
  - rewrite E. apply IH.
  - apply IH.
Qed.

Lemma conforming_idem (ref_len : nat) (d : dataset) :
  conforming ref_len (conforming ref_len d) = conforming ref_len d.
Proof.
  induction d as [|r d IH]; simpl; [reflexivity|].
  destruct (Nat.eqb (length r) ref_len) eqn:E; simpl.
  - rewrite E. f_equal. exact IH.
  - exact IH.
Qed.

(** C2. On a non-empty dataset [delwrongdata] returns the rows whose number
    of fields equals that of the first row, in their original order: its
    result is the input filtered by that test.  A row is in the result
    exactly when it is an input row of the reference length, so a row of
    another length is absent. *)
Theorem delwrongdata_keeps_conforming (first : row) (rest : dataset) :
  exists printed out,
    delwrongdata (first :: rest) = Ok (printed, out)
    /\ out = filter (fun r => Nat.eqb (length r) (length first)) (first :: rest)
    /\ (forall r, In r out <-> In r (first :: rest) /\ length r = length first).
Proof.
  eexists. eexists. split; [apply delwrongdata_cons|]. split; [reflexivity|].
  intros r. unfold conforming. rewrite filter_In, Nat.eqb_eq. reflexivity.
Qed.

(** C6. On the empty dataset [delwrongdata] returns nothing: reading the
    first row to fix the reference length raises [IndexError], the
    script's failure on an empty dataset. *)
Theorem delwrongdata_empty : delwrongdata [] = Raise IndexError.
Proof. reflexivity. Qed.

(** C9. Applying [delwrongdata] to its own result changes nothing: the
    second run deletes no row, prints no index and returns the same
    dataset. *)
Theorem delwrongdata_idempotent (first : row) (rest : dataset) :
  exists printed out,
    delwrongdata (first :: rest) = Ok (printed, out)
    /\ delwrongdata out = Ok ([], out).
Proof.
  eexists. eexists. split; [apply delwrongdata_cons|].
  rewrite conforming_cons_first. rewrite delwrongdata_cons.
  rewrite <- conforming_cons_first.
  rewrite wrong_indices_conforming, conforming_idem. reflexivity.
Qed.

(** ** Fields of a row *)

Lemma getitem_field (r : row) (col : Z) :
  has_field r col -> getitem r col = Ok (field r col).
Proof. intros [s H]. unfold field. rewrite H. reflexivity. Qed.

Lemma has_field_nonneg (r : row) (col : Z) :
  (0 <= col)%Z -> has_field r col <-> (Z.to_nat col < length r).
Proof.
  intros Hc. unfold has_field, getitem.
  assert (E : (col <? 0)%Z = false) by (apply Z.ltb_ge; lia).
  rewrite E, E. split.
  - intros [s H]. destruct (nth_error r (Z.to_nat col)) eqn:N; [|discriminate].
    apply nth_error_Some. congruence.
  - intros H. apply nth_error_Some in H.
    destruct (nth_error r (Z.to_nat col)); [eauto | contradiction].
Qed.

Lemma has_field_below (r : row) (i j : Z) :
  (0 <= j <= i)%Z -> has_field r i -> has_field r j.
Proof.
  intros Hj H. apply has_field_nonneg in H; [|lia].
  apply has_field_nonneg; lia.
Qed.

(** ** [filter_english_and_free] *)

(** Both kinds of loop in [filter_english_and_free] select the rows whose
    field passes a test. *)
Lemma select_rows (col : Z) (test : str -> bool) (data acc : dataset) :
  (forall r, In r data -> has_field r col) ->
  for_each data
    (fun app acc =>
       x <- getitem app col ;;
       if test x then Ok (acc ++ [app]) else Ok acc) acc
  = Ok (acc ++ filter (fun r => test (field r col)) data).
Proof.
  revert acc. induction data as [|r data IH]; intros acc H; simpl.
  - rewrite app_nil_r. reflexivity.
  - rewrite (getitem_field r col (H r (or_introl eq_refl))). simpl.
    destruct (test (field r col)); cbn [bind].
    + rewrite IH by (intros; apply H; right; assumption).
      rewrite <- app_assoc. reflexivity.
    + apply IH. intros; apply H; right; assumption.
Qed.

(** C4. [filter_english_and_free] keeps, among the English rows, an Apple
    row exactly when its price field (column 4) is the string "0.0" or the
    string "0", and a Google row exactly when its price field (column 7) is
    the string "0".  The test is equality of strings: the price "0.00" is
    not accepted. *)
Theorem price_filter_literal (google_data apple_data : dataset) :
  (forall r, In r google_data -> has_field r 7) ->
  (forall r, In r apple_data -> has_field r 4) ->
  exists android_free apple_free,
    filter_english_and_free google_data apple_data
      = Ok (android_free, apple_free)
    /\ android_free
       = filter (fun r => str_eqb (field r 7) (utf8 "0"))
           (filter (fun r => is_english (field r 0)) google_data)
    /\ apple_free
       = filter (fun r => str_eqb (field r 4) (utf8 "0.0")
                          || str_eqb (field r 4) (utf8 "0"))
           (filter (fun r => is_english (field r 1)) apple_data)
    /\ (forall r, In r android_free <->
          In r google_data /\ is_english (field r 0) = true
          /\ field r 7 = utf8 "0")
    /\ (forall r, In r apple_free <->
          In r apple_data /\ is_english (field r 1) = true
          /\ (field r 4 = utf8 "0.0" \/ field r 4 = utf8 "0"))
    /\ apple_price_is_free (utf8 "0.00") = false
    /\ google_price_is_free (utf8 "0.00") = false
    /\ google_price_is_free (utf8 "0.0") = false.
Proof.
  intros Hg Ha.
  assert (Hg0 : forall r, In r google_data -> has_field r 0).
  { intros r Hr. apply (has_field_below r 7); [lia | auto]. }
  assert (Ha1 : forall r, In r apple_data -> has_field r 1).
  { intros r Hr. apply (has_field_below r 4); [lia | auto]. }
  eexists. eexists. split.
  - unfold filter_english_and_free, english_only, free_only.
    rewrite (select_rows 0 is_english google_data [] Hg0). simpl.
    rewrite (select_rows 1 is_english apple_data [] Ha1). simpl.
    rewrite (select_rows 7 google_price_is_free _ []); simpl.
    2:{ intros r Hr. apply filter_In in Hr. apply Hg, Hr. }
    rewrite (select_rows 4 apple_price_is_free _ []); simpl.
    2:{ intros r Hr. apply filter_In in Hr. apply Ha, Hr. }
    reflexivity.
  - split; [reflexivity|]. split; [reflexivity|].
    split; [|split; [|repeat split; reflexivity]].
    + intros r. unfold google_price_is_free.
      rewrite !filter_In, str_eqb_eq. tauto.
    + intros r. unfold apple_price_is_free.
      rewrite !filter_In, orb_true_iff, !str_eqb_eq. tauto.
Qed.


Lemma google_example_price (r : row) :
  In r google_example -> has_field r 7.
Proof. intros [<-|[<-|[<-|[]]]]; eexists; reflexivity. Qed.

Lemma apple_example_price (r : row) :
  In r apple_example -> has_field r 4.
Proof. intros [<-|[<-|[<-|[]]]]; eexists; reflexivity. Qed.

Lemma price_filter_literal_witness :
  (forall r, In r google_example -> has_field r 7)
  /\ (forall r, In r apple_example -> has_field r 4)
  /\ exists android_free apple_free,
       filter_english_and_free google_example apple_example
         = Ok (android_free, apple_free)
       /\ android_free
          = filter (fun r => str_eqb (field r 7) (utf8 "0"))
              (filter (fun r => is_english (field r 0)) google_example)
       /\ apple_free
          = filter (fun r => str_eqb (field r 4) (utf8 "0.0")
                             || str_eqb (field r 4) (utf8 "0"))
              (filter (fun r => is_english (field r 1)) apple_example)
       /\ (forall r, In r android_free <->
             In r google_example /\ is_english (field r 0) = true
             /\ field r 7 = utf8 "0")
       /\ (forall r, In r apple_free <->
             In r apple_example /\ is_english (field r 1) = true
             /\ (field r 4 = utf8 "0.0" \/ field r 4 = utf8 "0"))
       /\ apple_price_is_free (utf8 "0.00") = false
       /\ google_price_is_free (utf8 "0.00") = false
       /\ google_price_is_free (utf8 "0.0") = false.
Proof.
  split; [exact google_example_price|].
  split; [exact apple_example_price|].
  apply (price_filter_literal google_example apple_example).
  - exact google_example_price.
  - exact apple_example_price.
Defined.

(** The App Store row priced "0.00" is dropped, the rows priced "0.0" and
    "0" are kept. *)
Example price_scenario :
  filter_english_and_free google_example apple_example
  = Ok (google_example,
        [apple_row "Notes" "0.0" "10" "Productivity";
         apple_row "Chess" "0" "5" "Games"]).
Proof. vm_compute. reflexivity. Qed.

(** ** The order of floats *)

Lemma float_ltb_rank (x y : pyfloat) :
  is_nan x = false -> is_nan y = false ->
  (float_ltb x y = true <-> lt3 (rank x) (rank y)).
Proof.
  intros Hx Hy. unfold float_ltb, SFltb.
  destruct x as [sx|sx| |sx mx ex]; try discriminate;
  destruct y as [sy|sy| |sy my ey]; try discriminate;
  try destruct sx; try destruct sy; simpl;
  try (split; [discriminate | intros H; exfalso; lia]);
  try (split; [intros _; lia | reflexivity]).
  all: rewrite ?Pos.compare_cont_spec.
  all: destruct (Z.compare_spec ex ey) as [E|E|E]; simpl.
  all: destruct (Pos.compare_spec mx my) as [F|F|F]; simpl.
  all: split; try discriminate; try reflexivity; intros; lia.
Qed.

Lemma float_eqb_rank (x y : pyfloat) :
  is_nan x = false -> is_nan y = false ->
  (float_eqb x y = true <-> rank x = rank y).
Proof.
  intros Hx Hy. unfold float_eqb, SFeqb.
  destruct x as [sx|sx| |sx mx ex]; try discriminate;
  destruct y as [sy|sy| |sy my ey]; try discriminate;
  try destruct sx; try destruct sy; simpl;
  try (split; [discriminate | intros H; exfalso; congruence]);
  try (split; [intros _; reflexivity | reflexivity]).
  all: rewrite ?Pos.compare_cont_spec.
  all: destruct (Z.compare_spec ex ey) as [E|E|E]; simpl.
  all: destruct (Pos.compare_spec mx my) as [F|F|F]; simpl.
  all: split; try discriminate; try (intros _; congruence);
       intros H; injection H; intros; lia.
Qed.

Lemma float_eqb_refl (x : pyfloat) : is_nan x = false -> float_eqb x x = true.
Proof. intros H. apply float_eqb_rank; auto. Qed.

Lemma lt3_trichotomy (a b : Z * Z * Z) : lt3 a b \/ a = b \/ lt3 b a.
Proof.
  destruct a as [[a1 a2] a3], b as [[b1 b2] b3]. unfold lt3.
  destruct (Z.lt_trichotomy a1 b1) as [?|[?|?]];
  destruct (Z.lt_trichotomy a2 b2) as [?|[?|?]];
  destruct (Z.lt_trichotomy a3 b3) as [?|[?|?]];
  try (left; lia); try (right; right; lia).
  right; left. congruence.
Qed.

Lemma lt3_irrefl (a : Z * Z * Z) : ~ lt3 a a.
Proof. destruct a as [[a1 a2] a3]. unfold lt3. lia. Qed.

Lemma lt3_trans (a b c : Z * Z * Z) : lt3 a b -> lt3 b c -> lt3 a c.
Proof.
  destruct a as [[a1 a2] a3], b as [[b1 b2] b3], c as [[c1 c2] c3].
  unfold lt3. lia.
Qed.

(** ** Dictionaries *)

Section DictFacts.
Variable V : Type.
Implicit Types (d : dict V) (k : str) (v : V).

Lemma dict_mem_keys d k : dict_mem d k = true <-> In k (dict_keys d).
Proof.
  induction d as [|[k' v'] d IH]; simpl.
  - split; [discriminate | contradiction].
  - rewrite orb_true_iff, IH, str_eqb_eq. split; intros [H|H]; auto.
Qed.

Lemma dict_mem_get d k :
  dict_mem d k = true -> exists v, dict_get d k = Ok v.
Proof.
  induction d as [|[k' v'] d IH]; simpl; [discriminate|].
  destruct (str_eqb k k'); simpl; eauto.
Qed.

Lemma dict_get_mem d k v : dict_get d k = Ok v -> dict_mem d k = true.
Proof.
  induction d as [|[k' v'] d IH]; simpl; [discriminate|].
  destruct (str_eqb k k'); simpl; auto.
Qed.

Lemma dict_mem_false_get d k :
  dict_mem d k = false -> dict_get d k = Raise KeyError.
Proof.
  induction d as [|[k' v'] d IH]; simpl; [reflexivity|].
  destruct (str_eqb k k'); simpl; [discriminate | auto].
Qed.

Lemma dict_get_set d k v k' :
  dict_get (dict_set d k v) k'
  = if str_eqb k' k then Ok v else dict_get d k'.
Proof.
  induction d as [|[k0 v0] d IH]; simpl.
  - destruct (str_eqb k' k); reflexivity.
  - destruct (str_eqb k k0) eqn:E; simpl.
    + apply str_eqb_eq in E. subst k0.
      destruct (str_eqb k' k); reflexivity.
    + destruct (str_eqb k' k0) eqn:F.
      * apply str_eqb_eq in F. subst k0.
        rewrite str_eqb_sym, E. reflexivity.
      * apply IH.
Qed.

Lemma dict_mem_set d k v k' :
  dict_mem (dict_set d k v) k' = str_eqb k' k || dict_mem d k'.
Proof.
  induction d as [|[k0 v0] d IH]; simpl.
  - reflexivity.
  - destruct (str_eqb k k0) eqn:E; simpl.
    + apply str_eqb_eq in E. subst k0.
      destruct (str_eqb k' k); reflexivity.
    + rewrite IH. destruct (str_eqb k' k0), (str_eqb k' k); reflexivity.
Qed.

Lemma dict_set_new d k v :
  dict_mem d k = false -> dict_set d k v = d ++ [(k, v)].
Proof.
  induction d as [|[k0 v0] d IH]; simpl; [reflexivity|].
  destruct (str_eqb k k0); simpl; [discriminate|].
  intros H. rewrite IH by exact H. reflexivity.
Qed.

Lemma dict_keys_set_old d k v :
  dict_mem d k = true -> dict_keys (dict_set d k v) = dict_keys d.
Proof.
  induction d as [|[k0 v0] d IH]; simpl; [discriminate|].
  destruct (str_eqb k k0) eqn:E; simpl.
  - reflexivity.
  - intros H. f_equal. apply IH. exact H.
Qed.

End DictFacts.

Lemma list_mem_In (x : str) (l : list str) : list_mem x l = true <-> In x l.
Proof.
  induction l as [|y l IH]; simpl.
  - split; [discriminate | contradiction].
  - rewrite orb_true_iff, IH, str_eqb_eq. split; intros [H|H]; auto.
Qed.

Lemma list_mem_not_In (x : str) (l : list str) :
  list_mem x l = false <-> ~ In x l.
Proof.
  rewrite <- list_mem_In. destruct (list_mem x l); split; congruence.
Qed.

(** ** [createdicodup] and [deldupdata] *)

Section Dedup.
Variable parse_float : str -> option pyfloat.

Lemma reviews_number_parse (r : row) :
  reviews_number parse_float r -> reviews_parse parse_float r.
Proof. intros [H [x [E _]]]. split; eauto. Qed.

Lemma reviews_number_not_nan (r : row) :
  reviews_number parse_float r -> is_nan (reviews parse_float r) = false.
Proof. intros [_ [x [E N]]]. unfold reviews. rewrite E. exact N. Qed.

(** Both loop bodies start by reading the name and the review count. *)
Lemma read_row (r : row) :
  reviews_parse parse_float r ->
  getitem r 0 = Ok (name r)
  /\ getitem r 3 = Ok (field r 3)
  /\ float_of_str parse_float (field r 3) = Ok (reviews parse_float r).
Proof.
  intros [H [x E]]. split; [|split].
  - apply getitem_field. apply (has_field_below r 3); [lia | exact H].
  - apply getitem_field. exact H.
  - unfold float_of_str, reviews. rewrite E. reflexivity.
Qed.

Lemma createdicodup_body_step (r : row) (rm : dict pyfloat) :
  reviews_parse parse_float r ->
  createdicodup_body parse_float r rm = Ok (index_step parse_float rm r).
Proof.
  intros H. destruct (read_row r H) as (E0 & E3 & Ef).
  unfold createdicodup_body, index_step. rewrite E0, E3. cbn [bind].
  rewrite Ef. cbn [bind].
  destruct (dict_mem rm (name r)) eqn:M.
  - destruct (dict_mem_get _ rm (name r) M) as [cur G]. rewrite G. cbn [bind].
    destruct (float_ltb cur (reviews parse_float r)); reflexivity.
  - rewrite (dict_mem_false_get _ rm (name r) M). reflexivity.
Qed.

Lemma createdicodup_fold (d : dataset) (rm : dict pyfloat) :
  (forall r, In r d -> reviews_parse parse_float r) ->
  for_each d (createdicodup_body parse_float) rm
  = Ok (fold_left (index_step parse_float) d rm).
Proof.
  revert rm. induction d as [|r d IH]; intros rm H; simpl; [reflexivity|].
  rewrite createdicodup_body_step by (apply H; left; reflexivity).
  cbn [bind]. apply IH. intros; apply H; right; assumption.
Qed.

Lemma index_step_mem (rm : dict pyfloat) (r : row) (n : str) :
  dict_mem (index_step parse_float rm r) n
  = str_eqb n (name r) || dict_mem rm n.
Proof.
  unfold index_step. destruct (dict_get rm (name r)) as [cur|e] eqn:G.
  - destruct (float_ltb cur (reviews parse_float r)).
    + apply dict_mem_set.
    + destruct (str_eqb n (name r)) eqn:E; [|reflexivity].
      apply str_eqb_eq in E. subst n. simpl.
      apply (dict_get_mem _ rm (name r) cur G).
  - apply dict_mem_set.
Qed.

Lemma index_fold_mem (d : dataset) (rm : dict pyfloat) (n : str) :
  dict_mem (fold_left (index_step parse_float) d rm) n = true
  <-> dict_mem rm n = true \/ In n (map name d).
Proof.
  revert rm. induction d as [|r d IH]; intros rm; simpl.
  - tauto.
  - rewrite IH, index_step_mem, orb_true_iff, str_eqb_eq.
    split; intros H; intuition auto.
Qed.

Lemma float_ltb_irrefl (x : pyfloat) : float_ltb x x = false.
Proof.
  destruct (is_nan x) eqn:N.
  - destruct x; try discriminate. reflexivity.
  - destruct (float_ltb x x) eqn:E; [|reflexivity].
    apply float_ltb_rank in E; auto. apply lt3_irrefl in E. contradiction.
Qed.

Lemma float_ltb_false_trans (a b c : pyfloat) :
  is_nan a = false -> is_nan b = false -> is_nan c = false ->
  float_ltb a c = false -> float_ltb a b = true -> float_ltb b c = false.
Proof.
  intros Na Nb Nc H1 H2.
  destruct (float_ltb b c) eqn:E; [|reflexivity].
  apply float_ltb_rank in H2; auto. apply float_ltb_rank in E; auto.
  assert (L : lt3 (rank a) (rank c)) by (eapply lt3_trans; eauto).
  apply float_ltb_rank in L; auto. congruence.
Qed.

Lemma index_step_inv (P : dataset) (rm : dict pyfloat) (r : row) :
  (forall x, In x (P ++ [r]) -> is_nan (reviews parse_float x) = false) ->
  index_inv parse_float P rm -> index_inv parse_float (P ++ [r]) (index_step parse_float rm r).
Proof.
  intros NN [K M].
  assert (Nr : is_nan (reviews parse_float r) = false).
  { apply NN. apply in_or_app. right. left. reflexivity. }
  assert (NP : forall x, In x P -> is_nan (reviews parse_float x) = false).
  { intros x Hx. apply NN. apply in_or_app. left. exact Hx. }
  split.
  - intros x Hx. rewrite index_step_mem. apply in_app_or in Hx.
    destruct Hx as [Hx|[<-|[]]].
    + rewrite (K x Hx). apply orb_true_r.
    + rewrite str_eqb_refl. reflexivity.
  - intros n m. unfold index_step.
    destruct (dict_get rm (name r)) as [cur|e] eqn:G.
    + destruct (M _ _ G) as [[r0 (I0 & N0 & R0)] B0].
      assert (Nc : is_nan cur = false) by (rewrite <- R0; auto).
      destruct (float_ltb cur (reviews parse_float r)) eqn:L.
      * rewrite dict_get_set. destruct (str_eqb n (name r)) eqn:E.
        -- apply str_eqb_eq in E. subst n. intros [= <-]. split.
           ++ exists r. split; [apply in_or_app; right; left|]; auto.
           ++ intros x Hx Nx. apply in_app_or in Hx.
              destruct Hx as [Hx|[<-|[]]].
              ** apply (float_ltb_false_trans cur); auto.
              ** apply float_ltb_irrefl.
        -- intros G'. destruct (M _ _ G') as [[r1 (I1 & N1 & R1)] B1]. split.
           ++ exists r1. split; [apply in_or_app; left|]; auto.
           ++ intros x Hx Nx. apply in_app_or in Hx.
              destruct Hx as [Hx|[<-|[]]]; [auto|].
              apply str_eqb_neq in E. congruence.
      * intros G'. destruct (M _ _ G') as [[r1 (I1 & N1 & R1)] B1]. split.
        -- exists r1. split; [apply in_or_app; left|]; auto.
        -- intros x Hx Nx. apply in_app_or in Hx.
           destruct Hx as [Hx|[<-|[]]]; [auto|].
           rewrite <- Nx, G in G'. injection G' as <-. exact L.
    + rewrite dict_get_set. destruct (str_eqb n (name r)) eqn:E.
      * apply str_eqb_eq in E. subst n. intros [= <-]. split.
        -- exists r. split; [apply in_or_app; right; left|]; auto.
        -- intros x Hx Nx. apply in_app_or in Hx.
           destruct Hx as [Hx|[<-|[]]].
           ++ apply K in Hx. rewrite Nx in Hx.
              apply dict_mem_get in Hx. destruct Hx as [v Hv]. congruence.
           ++ apply float_ltb_irrefl.
      * intros G'. destruct (M _ _ G') as [[r1 (I1 & N1 & R1)] B1]. split.
        -- exists r1. split; [apply in_or_app; left|]; auto.
        -- intros x Hx Nx. apply in_app_or in Hx.
           destruct Hx as [Hx|[<-|[]]]; [auto|].
           apply str_eqb_neq in E. congruence.
Qed.

Lemma index_fold_inv (d P : dataset) (rm : dict pyfloat) :
  (forall x, In x (P ++ d) -> is_nan (reviews parse_float x) = false) ->
  index_inv parse_float P rm ->
  index_inv parse_float (P ++ d) (fold_left (index_step parse_float) d rm).
Proof.
  revert P rm. induction d as [|r d IH]; intros P rm NN I; simpl.
  - rewrite app_nil_r. exact I.
  - replace (P ++ r :: d) with ((P ++ [r]) ++ d) in *
      by (rewrite <- app_assoc; reflexivity).
    apply IH; [exact NN|]. apply index_step_inv; [|exact I].
    intros x Hx. apply NN. apply in_or_app. left. exact Hx.
Qed.

Lemma deldupdata_body_step (rm : dict pyfloat) (r : row)
    (st : dataset * list str) :
  reviews_parse parse_float r ->
  dict_mem rm (name r) = true ->
  deldupdata_body parse_float rm r st = Ok (dedup_step parse_float rm st r).
Proof.
  intros H K. destruct (read_row r H) as (E0 & E3 & Ef).
  destruct st as [clean added].
  unfold deldupdata_body, dedup_step, is_best. rewrite E0, E3. cbn [bind].
  rewrite Ef. cbn [bind fst snd].
  destruct (dict_mem_get _ rm (name r) K) as [best G]. rewrite G.
  destruct (list_mem (name r) added); cbn [negb bind andb].
  - reflexivity.
  - destruct (float_eqb best (reviews parse_float r)); reflexivity.
Qed.

Lemma deldupdata_fold (rm : dict pyfloat) (d : dataset)
    (st : dataset * list str) :
  (forall r, In r d -> reviews_parse parse_float r) ->
  (forall r, In r d -> dict_mem rm (name r) = true) ->
  for_each d (deldupdata_body parse_float rm) st
  = Ok (fold_left (dedup_step parse_float rm) d st).
Proof.
  revert st. induction d as [|r d IH]; intros st H K; simpl; [reflexivity|].
  rewrite deldupdata_body_step by (auto using in_eq).
  cbn [bind]. apply IH; intros; [apply H | apply K]; right; assumption.
Qed.

Lemma dedup_step_inv (rm : dict pyfloat) (P : dataset) (r : row)
    (st : dataset * list str) :
  dedup_inv parse_float rm P st ->
  dedup_inv parse_float rm (P ++ [r]) (dedup_step parse_float rm st r).
Proof.
  intros (A & N & B & C & F). destruct st as [clean added].
  cbn [fst snd] in *. unfold dedup_step, dedup_inv. cbn [fst snd].
  destruct (list_mem (name r) added) eqn:LM; cbn [negb andb].
  - (* the name has been added already *)
    apply list_mem_In in LM. repeat split; auto.
    + intros x Hx Bx. apply in_app_or in Hx.
      destruct Hx as [Hx|[<-|[]]]; auto.
    + intros x Hx. destruct (F x Hx) as (pre & post & E & Q).
      exists pre, (post ++ [r]). split; [|exact Q].
      rewrite E, <- app_assoc. reflexivity.
  - apply list_mem_not_In in LM.
    destruct (is_best parse_float rm r) eqn:Br; cbn [fst snd].
    + (* the row matches the index: it is kept *)
      repeat split.
      * rewrite map_app, A. reflexivity.
      * apply NoDup_app; [exact N | repeat constructor; intros [] | ].
        intros x Hx [<-|[]]. contradiction.
      * intros x Hx. apply in_app_or in Hx.
        destruct Hx as [Hx|[<-|[]]]; auto.
      * intros x Hx Bx. apply in_or_app. apply in_app_or in Hx.
        destruct Hx as [Hx|[<-|[]]]; [left; auto | right; left; reflexivity].
      * intros x Hx. apply in_app_or in Hx. destruct Hx as [Hx|[<-|[]]].
        -- destruct (F x Hx) as (pre & post & E & Q).
           exists pre, (post ++ [r]). split; [|exact Q].
           rewrite E, <- app_assoc. reflexivity.
        -- exists P, []. split; [reflexivity|].
           intros x Hx Nx. destruct (is_best parse_float rm x) eqn:Bx; auto.
           exfalso. apply LM. rewrite <- Nx. apply C; assumption.
    + (* the row does not match the index *)
      repeat split; auto.
      * intros x Hx Bx. apply in_app_or in Hx.
        destruct Hx as [Hx|[<-|[]]]; [auto | congruence].
      * intros x Hx. destruct (F x Hx) as (pre & post & E & Q).
        exists pre, (post ++ [r]). split; [|exact Q].
        rewrite E, <- app_assoc. reflexivity.
Qed.

Lemma dedup_fold_inv (rm : dict pyfloat) (d P : dataset)
    (st : dataset * list str) :
  dedup_inv parse_float rm P st ->
  dedup_inv parse_float rm (P ++ d) (fold_left (dedup_step parse_float rm) d st).
Proof.
  revert P st. induction d as [|r d IH]; intros P st I; simpl.
  - rewrite app_nil_r. exact I.
  - replace (P ++ r :: d) with ((P ++ [r]) ++ d)
      by (rewrite <- app_assoc; reflexivity).
    apply IH. apply dedup_step_inv. exact I.
Qed.

Lemma dedup_inv_init (rm : dict pyfloat) : dedup_inv parse_float rm [] ([], []).
Proof.
  repeat split; simpl; try contradiction; constructor.
Qed.

Lemma index_inv_init : index_inv parse_float [] [].
Proof. split; [intros r [] | intros n m H; discriminate]. Qed.

(** A list without two rows of the same name has, for the name of one of
    its rows, that row alone. *)
Lemma filter_unique_name (l : dataset) (r : row) :
  NoDup (map name l) -> In r l ->
  filter (fun x => str_eqb (name x) (name r)) l = [r].
Proof.
  induction l as [|y l IH]; simpl; intros N H; [contradiction|].
  inversion N as [|? ? Ny Nl]; subst. destruct H as [->|H].
  - rewrite str_eqb_refl. f_equal.
    assert (Q : forall x, In x l -> str_eqb (name x) (name r) = false).
    { intros x Hx. apply str_eqb_neq. intros E. apply Ny. rewrite <- E.
      apply in_map. exact Hx. }
    clear -Q. induction l as [|z l IH]; simpl; [reflexivity|].
    rewrite (Q z (or_introl eq_refl)). apply IH. intros; apply Q; right; auto.
  - destruct (str_eqb (name y) (name r)) eqn:E.
    + exfalso. apply str_eqb_eq in E. apply Ny. rewrite E.
      apply in_map. exact H.
    + apply IH; assumption.
Qed.

(** The two passes on a dataset whose review counts [float] accepts. *)
Lemma createdicodup_ok (d : dataset) :
  (forall r, In r d -> reviews_parse parse_float r) ->
  createdicodup parse_float d = Ok (fold_left (index_step parse_float) d []).
Proof. intros H. apply createdicodup_fold. exact H. Qed.

Lemma createdicodup_keys (d : dataset) (r : row) :
  In r d ->
  dict_mem (fold_left (index_step parse_float) d []) (name r) = true.
Proof. intros H. apply index_fold_mem. right. apply in_map. exact H. Qed.

Lemma deldupdata_ok (d : dataset) :
  (forall r, In r d -> reviews_parse parse_float r) ->
  deldupdata parse_float d (fold_left (index_step parse_float) d [])
  = Ok (fst (fold_left
               (dedup_step parse_float (fold_left (index_step parse_float) d []))
               d ([], []))).
Proof.
  intros H. unfold deldupdata.
  rewrite deldupdata_fold; [reflexivity | exact H |].
  intros r Hr. apply createdicodup_keys. exact Hr.
Qed.

Lemma dedup_result (d : dataset) :
  (forall r, In r d -> reviews_number parse_float r) ->
  one_row_per_name parse_float d
    (fst (fold_left
            (dedup_step parse_float (fold_left (index_step parse_float) d []))
            d ([], []))).
Proof.
  intros H.
  set (rm := fold_left (index_step parse_float) d []).
  set (st := fold_left (dedup_step parse_float rm) d ([], [])).
  assert (NN : forall x, In x d -> is_nan (reviews parse_float x) = false).
  { intros x Hx. apply reviews_number_not_nan. auto. }
  pose proof (index_fold_inv d [] [] NN index_inv_init) as [K M].
  pose proof (dedup_fold_inv rm d [] ([], [])
                (dedup_inv_init rm)) as (A & N & B & C & F).
  cbn [app] in K, M, A, N, B, C, F. fold rm in K, M. fold st in A, N, B, C, F.
  intros n Hn. apply in_map_iff in Hn. destruct Hn as (r0 & N0 & I0).
  (* the index has the name, with the count of some row [r1] *)
  destruct (dict_mem_get _ rm n) as [m G]; [rewrite <- N0; auto|].
  destruct (M n m G) as [(r1 & I1 & N1 & R1) Bm].
  assert (Nm : is_nan m = false) by (rewrite <- R1; auto).
  (* [r1] matches the index, so its name has been added *)
  assert (B1 : is_best parse_float rm r1 = true).
  { unfold is_best. rewrite N1, G, R1. apply float_eqb_refl. exact Nm. }
  pose proof (C r1 I1 B1) as Hadd. rewrite A, N1 in Hadd.
  apply in_map_iff in Hadd. destruct Hadd as (r & Nr & Ir).
  destruct (F r Ir) as (pre & post & E & Q).
  assert (Id : In r d) by (rewrite E; apply in_or_app; right; left; reflexivity).
  assert (Er : rank m = rank (reviews parse_float r)).
  { pose proof (B r Ir) as Br. unfold is_best in Br. rewrite Nr, G in Br.
    apply float_eqb_rank in Br; auto. }
  exists r, pre, post. split; [|split; [exact E|split; [exact Nr|split]]].
  - rewrite <- Nr. apply filter_unique_name; [rewrite <- A; exact N | exact Ir].
  - intros x Ix Nx.
    destruct (float_ltb (reviews parse_float r) (reviews parse_float x)) eqn:L;
      [|reflexivity].
    apply float_ltb_rank in L; auto. rewrite <- Er in L.
    apply float_ltb_rank in L; auto. rewrite (Bm x Ix Nx) in L. discriminate.
  - intros x Ix Nx.
    assert (Idx : In x d) by (rewrite E; apply in_or_app; left; exact Ix).
    apply float_ltb_rank; auto. rewrite <- Er.
    destruct (lt3_trichotomy (rank (reviews parse_float x)) (rank m))
      as [L|[L|L]]; [exact L | exfalso | exfalso].
    + assert (Bx : is_best parse_float rm x = true).
      { unfold is_best. rewrite Nx, G. apply float_eqb_rank; auto. }
      rewrite (Q x Ix) in Bx; [discriminate | congruence].
    + apply float_ltb_rank in L; auto.
      rewrite (Bm x Idx Nx) in L. discriminate.
Qed.

Lemma dedup_result_incl (d : dataset) (r : row) :
  In r (fst (fold_left
               (dedup_step parse_float (fold_left (index_step parse_float) d []))
               d ([], []))) ->
  In r d.
Proof.
  intros H.
  pose proof (dedup_fold_inv
                (fold_left (index_step parse_float) d []) d [] ([], [])
                (dedup_inv_init _)) as (_ & _ & _ & _ & F).
  destruct (F r H) as (pre & post & E & _). cbn [app] in E. rewrite E.
  apply in_or_app. right. left. reflexivity.
Qed.

End Dedup.

(** X24.  On a dataset in which [float] accepts the review count
    (column 3) of every row and gives a number for it, not [nan],
    [createdicodup] followed by [deldupdata] returns rows of the input,
    exactly one for each name (column 0) of the input: a row of that name
    with the greatest review count among the rows of that name, every
    earlier row of that name having a smaller count. *)
Theorem dedup_keeps_first_max (parse_float : str -> option pyfloat)
    (d : dataset) :
  (forall r, In r d -> reviews_number parse_float r) ->
  exists reviews_max out,
    createdicodup parse_float d = Ok reviews_max
    /\ deldupdata parse_float d reviews_max = Ok out
    /\ (forall r, In r out -> In r d)
    /\ one_row_per_name parse_float d out.
Proof.
  intros H.
  assert (HP : forall r, In r d -> reviews_parse parse_float r).
  { intros r Hr. apply reviews_number_parse. auto. }
  eexists. eexists. split; [apply createdicodup_ok; exact HP|].
  split; [apply deldupdata_ok; exact HP|]. split.
  - apply dedup_result_incl.
  - apply dedup_result. exact H.
Qed.

(** C10. On a dataset whose review counts [float] accepts, the index built
    by [createdicodup] has the name of every row as a key, so every lookup
    [reviews_max[name]] of [deldupdata] finds its key and [deldupdata]
    returns a dataset. *)
Theorem index_covers_lookups (parse_float : str -> option pyfloat)
    (d : dataset) :
  (forall r, In r d -> reviews_parse parse_float r) ->
  exists reviews_max out,
    createdicodup parse_float d = Ok reviews_max
    /\ (forall r, In r d ->
          dict_mem reviews_max (name r) = true
          /\ exists best, dict_get reviews_max (name r) = Ok best)
    /\ deldupdata parse_float d reviews_max = Ok out.
Proof.
  intros H. eexists. eexists. split; [apply createdicodup_ok; exact H|].
  split; [|apply deldupdata_ok; exact H].
  intros r Hr. pose proof (createdicodup_keys parse_float d r Hr) as K.
  split; [exact K | apply dict_mem_get; exact K].
Qed.

Lemma google_example_numbers (r : row) :
  In r google_example -> reviews_number ascii_float r.
Proof.
  intros [<-|[<-|[<-|[]]]]; (split; [eexists; reflexivity|]);
    eexists; split; reflexivity.
Qed.

Lemma dedup_keeps_first_max_witness :
  (forall r, In r google_example -> reviews_number ascii_float r)
  /\ exists reviews_max out,
       createdicodup ascii_float google_example = Ok reviews_max
       /\ deldupdata ascii_float google_example reviews_max = Ok out
       /\ (forall r, In r out -> In r google_example)
       /\ one_row_per_name ascii_float google_example out.
Proof.
  split; [exact google_example_numbers|].
  apply (dedup_keeps_first_max ascii_float google_example).
  exact google_example_numbers.
Defined.

(** The scenario of names A, A, B with review counts 5, 9, 9: the second row
    of A and the row of B are kept. *)
Example dedup_scenario :
  clean_google_duplicates ascii_float google_example
  = Ok [google_row "A" "TOOLS" "9" "50,000+" "0";
        google_row "B" "GAME" "9" "1,000+" "0"].
Proof. vm_compute. reflexivity. Qed.

(** C1.  The duplicate removal loses an app whose review count is the
    string "nan".  [float] accepts the string and gives the value [nan];
    [createdicodup] stores it as the maximum of the app; in [deldupdata]
    the test [reviews_max[name] == n_reviews] compares [nan] with [nan],
    which is false, so the only row of the app is dropped: the output has
    no row of that name, where the docstring of [deldupdata] promises one
    row per app. *)
Lemma dedup_nan_counterexample :
  (forall r, In r nan_reviews_example -> reviews_parse ascii_float r)
  /\ createdicodup ascii_float nan_reviews_example
     = Ok [(utf8 "A", S754_nan)]
  /\ deldupdata ascii_float nan_reviews_example [(utf8 "A", S754_nan)]
     = Ok []
  /\ ~ (exists reviews_max out,
          createdicodup ascii_float nan_reviews_example = Ok reviews_max
          /\ deldupdata ascii_float nan_reviews_example reviews_max = Ok out
          /\ (forall r, In r out -> In r nan_reviews_example)
          /\ one_row_per_name ascii_float nan_reviews_example out).
Proof.
  split; [|split; [reflexivity | split; [reflexivity|]]].
  - intros r [<-|[]]. split; eexists; reflexivity.
  - intros (rm & out & E1 & E2 & _ & O).
    vm_compute in E1. injection E1 as <-.
    vm_compute in E2. injection E2 as <-.
    destruct (O (utf8 "A")) as (r & pre & post & F & _).
    + left. reflexivity.
    + discriminate F.
Qed.

(** The same defect loses a valid row: where the first row of an app has
    the review count "nan" and the second the count 5, the index keeps
    [nan], since [nan < 5] is false, and [deldupdata] drops both rows. *)
Example dedup_nan_loses_valid_row :
  createdicodup ascii_float nan_then_number_example
  = Ok [(utf8 "A", S754_nan)]
  /\ clean_google_duplicates ascii_float nan_then_number_example = Ok [].
Proof. split; vm_compute; reflexivity. Qed.

Lemma google_example_parse (r : row) :
  In r google_example -> reviews_parse ascii_float r.
Proof.
  intros H. apply reviews_number_parse. apply google_example_numbers. exact H.
Qed.

Lemma index_covers_lookups_witness :
  (forall r, In r google_example -> reviews_parse ascii_float r)
  /\ exists reviews_max out,
       createdicodup ascii_float google_example = Ok reviews_max
       /\ (forall r, In r google_example ->
             dict_mem reviews_max (name r) = true
             /\ exists best, dict_get reviews_max (name r) = Ok best)
       /\ deldupdata ascii_float google_example reviews_max = Ok out.
Proof.
  split; [exact google_example_parse|].
  apply (index_covers_lookups ascii_float google_example).
  exact google_example_parse.
Defined.

(** ** [freq_table] *)

(** A loop whose body either succeeds for every state or raises [e] for
    every state, depending on the element only. *)
Lemma for_each_good (A S : Type) (body : A -> S -> result S) (f : S -> A -> S)
    (good : A -> bool) (e : exn) (l : list A) (s : S) :
  (forall x, In x l -> good x = true -> forall s, body x s = Ok (f s x)) ->
  (forall x, In x l -> good x = false -> forall s, body x s = Raise e) ->
  for_each l body s
  = if forallb good l then Ok (fold_left f l s) else Raise e.
Proof.
  revert s. induction l as [|x l IH]; intros s Hg Hb; simpl; [reflexivity|].
  destruct (good x) eqn:G; simpl.
  - rewrite (Hg x (or_introl eq_refl) G). cbn [bind].
    apply IH; intros y Hy; [apply Hg | apply Hb]; right; exact Hy.
  - rewrite (Hb x (or_introl eq_refl) G). reflexivity.
Qed.

Lemma freq_table_count_step (index : Z) (r : row) (table : dict Z) (total : Z) :
  has_field r index ->
  freq_table_count index r (table, total)
  = Ok (count_step table (field r index), (total + 1)%Z).
Proof.
  intros H. unfold freq_table_count, count_step.
  rewrite (getitem_field r index H). cbn [bind].
  destruct (dict_mem table (field r index)) eqn:M.
  - destruct (dict_mem_get _ _ _ M) as [n G]. rewrite G. reflexivity.
  - rewrite (dict_mem_false_get _ _ _ M). reflexivity.
Qed.

Lemma freq_table_counts (index : Z) (d : dataset) (table : dict Z) (total : Z) :
  (forall r, In r d -> has_field r index) ->
  for_each d (freq_table_count index) (table, total)
  = Ok (tally (column d index) table, (total + Z.of_nat (length d))%Z).
Proof.
  revert table total. induction d as [|r d IH]; intros table total H.
  - simpl. rewrite Z.add_0_r. reflexivity.
  - cbn [for_each]. rewrite freq_table_count_step by (apply H; left; reflexivity).
    cbn [bind]. rewrite IH by (intros; apply H; right; assumption).
    unfold tally. cbn [column map fold_left length]. do 2 f_equal. lia.
Qed.

Lemma count_step_mem (table : dict Z) (g k : str) :
  dict_mem (count_step table g) k = str_eqb k g || dict_mem table k.
Proof.
  unfold count_step. destruct (dict_get table g); apply dict_mem_set.
Qed.

Lemma count_step_keys (table : dict Z) (g : str) :
  dict_keys (count_step table g)
  = if dict_mem table g then dict_keys table else dict_keys table ++ [g].
Proof.
  unfold count_step. destruct (dict_mem table g) eqn:M.
  - destruct (dict_mem_get _ _ _ M) as [n G]. rewrite G.
    apply dict_keys_set_old. exact M.
  - rewrite (dict_mem_false_get _ _ _ M).
    rewrite dict_set_new by exact M. unfold dict_keys.
    rewrite map_app. reflexivity.
Qed.

Lemma count_step_count (table : dict Z) (g k : str) :
  count_of (count_step table g) k
  = (count_of table k + if str_eqb k g then 1 else 0)%Z.
Proof.
  unfold count_of, count_step.
  destruct (dict_get table g) as [n|e] eqn:G; rewrite dict_get_set;
    destruct (str_eqb k g) eqn:E.
  - apply str_eqb_eq in E. subst k. rewrite G. reflexivity.
  - lia.
  - apply str_eqb_eq in E. subst k. rewrite G. reflexivity.
  - lia.
Qed.

Lemma tally_mem (l : list str) (table : dict Z) (k : str) :
  dict_mem (tally l table) k = true <-> dict_mem table k = true \/ In k l.
Proof.
  revert table. induction l as [|g l IH]; intros table; simpl.
  - tauto.
  - unfold tally in *. simpl. rewrite IH, count_step_mem, orb_true_iff, str_eqb_eq.
    split; intros H; intuition auto.
Qed.

Lemma tally_keys_nodup (l : list str) (table : dict Z) :
  NoDup (dict_keys table) -> NoDup (dict_keys (tally l table)).
Proof.
  revert table. induction l as [|g l IH]; intros table N; simpl; [exact N|].
  apply IH. rewrite count_step_keys.
  destruct (dict_mem table g) eqn:M; [exact N|].
  apply NoDup_app; [exact N | repeat constructor; intros [] |].
  intros x Hx [<-|[]]. apply dict_mem_keys in Hx. congruence.
Qed.

Lemma tally_count (l : list str) (table : dict Z) (k : str) :
  count_of (tally l table) k = (count_of table k + occurrences k l)%Z.
Proof.
  revert table. induction l as [|g l IH]; intros table.
  - unfold occurrences. simpl. lia.
  - unfold tally in *. cbn [fold_left]. rewrite IH, count_step_count.
    unfold occurrences. cbn [filter].
    destruct (str_eqb k g); cbn [length]; lia.
Qed.

Lemma dict_get_app (V : Type) (d1 d2 : dict V) (k : str) :
  dict_get (d1 ++ d2) k
  = if dict_mem d1 k then dict_get d1 k else dict_get d2 k.
Proof.
  induction d1 as [|[k' v'] d1 IH]; simpl; [reflexivity|].
  destruct (str_eqb k k'); simpl; [reflexivity | exact IH].
Qed.

Lemma dict_mem_map (V W : Type) (f : str * V -> str * W) (d : dict V) (k : str) :
  (forall e, fst (f e) = fst e) ->
  dict_mem (map f d) k = dict_mem d k.
Proof.
  intros Hf. induction d as [|[k' v'] d IH]; simpl; [reflexivity|].
  specialize (Hf (k', v')). destruct (f (k', v')) as [k'' w]. simpl in Hf.
  subst k''. rewrite IH. reflexivity.
Qed.

Lemma dict_keys_map (V W : Type) (f : str * V -> str * W) (d : dict V) :
  (forall e, fst (f e) = fst e) ->
  dict_keys (map f d) = dict_keys d.
Proof.
  intros Hf. unfold dict_keys. rewrite map_map. apply map_ext. exact Hf.
Qed.

Lemma dict_mem_false_keys (V : Type) (d : dict V) (k : str) :
  ~ In k (dict_keys d) -> dict_mem d k = false.
Proof.
  intros H. destruct (dict_mem d k) eqn:M; [|reflexivity].
  apply dict_mem_keys in M. contradiction.
Qed.

(** The second loop of [freq_table] turns the counts into percentages,
    entry by entry. *)
Lemma freq_table_percents (total : Z) (t2 t1 : dict Z) :
  total <> 0%Z ->
  NoDup (dict_keys (t1 ++ t2)) ->
  for_each (dict_keys t2) (freq_table_percent (t1 ++ t2) total)
    (map (percent_entry total) t1)
  = Ok (map (percent_entry total) (t1 ++ t2)).
Proof.
  intros Ht. revert t1. induction t2 as [|[k n] t2 IH]; intros t1 N.
  - simpl. rewrite app_nil_r. reflexivity.
  - assert (K : ~ In k (dict_keys t1)).
    { unfold dict_keys in *. rewrite map_app in N. simpl in N.
      apply NoDup_remove_2 in N. intros H. apply N.
      apply in_or_app. left. exact H. }
    cbn [dict_keys map fst for_each]. unfold freq_table_percent at 1.
    rewrite dict_get_app, (dict_mem_false_keys _ t1 k K).
    cbn [dict_get]. rewrite str_eqb_refl. cbn [bind].
    unfold int_truediv. destruct (Z.eqb_spec total 0) as [E|_]; [contradiction|].
    cbn [bind]. rewrite dict_set_new.
    2:{ rewrite dict_mem_map by reflexivity.
        apply dict_mem_false_keys. exact K. }
    replace (t1 ++ (k, n) :: t2) with ((t1 ++ [(k, n)]) ++ t2) in *
      by (rewrite <- app_assoc; reflexivity).
    rewrite <- (IH (t1 ++ [(k, n)]) N). rewrite map_app. reflexivity.
Qed.

Lemma freq_table_ok (d : dataset) (index : Z) :
  (forall r, In r d -> has_field r index) ->
  freq_table d index
  = Ok (map (percent_entry (Z.of_nat (length d))) (tally (column d index) [])).
Proof.
  intros H. unfold freq_table.
  pose proof (freq_table_counts index d [] 0 H) as E.
  unfold dict in *. rewrite E. cbn [bind Z.add].
  destruct d as [|r d]; [reflexivity|].
  apply (freq_table_percents _ _ []).
  - simpl. lia.
  - apply tally_keys_nodup. constructor.
Qed.

Lemma freq_table_keys (d : dataset) (index : Z) :
  dict_keys (map (percent_entry (Z.of_nat (length d))) (tally (column d index) []))
  = dict_keys (tally (column d index) []).
Proof. apply dict_keys_map. reflexivity. Qed.

Lemma tally_keys_column (l : list str) (k : str) :
  In k (dict_keys (tally l [])) <-> In k l.
Proof.
  rewrite <- dict_mem_keys, tally_mem. simpl. split; [intros [H|H] | auto].
  - discriminate.
  - exact H.
Qed.

(** ** The averages *)

Section Averages.
Variable parse_float : str -> option pyfloat.
Variable norm : str -> str.
Variables gcol vcol : Z.

Lemma sum_body_good (group : str) (r : row) (st : pyfloat * Z) :
  has_field r gcol -> has_field r vcol ->
  sum_good parse_float norm gcol vcol group r = true ->
  sum_body parse_float norm gcol vcol group r st
  = Ok (sum_step parse_float norm gcol vcol group st r).
Proof.
  intros Hg Hv G. destruct st as [total len].
  unfold sum_body, sum_step, sum_good in *.
  rewrite (getitem_field r gcol Hg). cbn [bind fst snd].
  destruct (str_eqb (field r gcol) group); [|reflexivity].
  rewrite (getitem_field r vcol Hv). cbn [bind].
  unfold float_of_str, numeric, numeric_parses in *.
  destruct (parse_float (norm (field r vcol))); [reflexivity | discriminate].
Qed.

Lemma sum_body_bad (group : str) (r : row) (st : pyfloat * Z) :
  has_field r gcol -> has_field r vcol ->
  sum_good parse_float norm gcol vcol group r = false ->
  sum_body parse_float norm gcol vcol group r st = Raise ValueError.
Proof.
  intros Hg Hv G. destruct st as [total len].
  unfold sum_body, sum_good in *.
  rewrite (getitem_field r gcol Hg). cbn [bind].
  destruct (str_eqb (field r gcol) group); [|discriminate].
  rewrite (getitem_field r vcol Hv). cbn [bind].
  unfold float_of_str, numeric_parses in *.
  destruct (parse_float (norm (field r vcol))); [discriminate | reflexivity].
Qed.

Lemma sum_loop (group : str) (d : dataset) (st : pyfloat * Z) :
  (forall r, In r d -> has_field r gcol /\ has_field r vcol) ->
  for_each d (sum_body parse_float norm gcol vcol group) st
  = if forallb (sum_good parse_float norm gcol vcol group) d
    then Ok (fold_left (sum_step parse_float norm gcol vcol group) d st)
    else Raise ValueError.
Proof.
  intros H. apply for_each_good.
  - intros r Hr G s. apply sum_body_good; auto; apply H; exact Hr.
  - intros r Hr G s. apply sum_body_bad; auto; apply H; exact Hr.
Qed.

Lemma sum_steps (group : str) (d : dataset) (total : pyfloat) (len : Z) :
  fold_left (sum_step parse_float norm gcol vcol group) d (total, len)
  = (fold_left float_add (group_values parse_float norm gcol vcol d group) total,
     (len + Z.of_nat (length (group_values parse_float norm gcol vcol d group)))%Z).
Proof.
  revert total len. unfold group_values.
  induction d as [|r d IH]; intros total len; simpl.
  - rewrite Z.add_0_r. reflexivity.
  - unfold sum_step at 2. cbn [fst snd].
    destruct (str_eqb (field r gcol) group); simpl.
    + rewrite IH. f_equal. lia.
    + apply IH.
Qed.

Lemma group_nonempty (group : str) (d : dataset) :
  In group (column d gcol) ->
  (0 < Z.of_nat (length (group_values parse_float norm gcol vcol d group)))%Z.
Proof.
  intros H. unfold column in H. apply in_map_iff in H.
  destruct H as (r & E & Hr). unfold group_values. rewrite length_map.
  assert (I : In r (filter (fun r => str_eqb (field r gcol) group) d)).
  { apply filter_In. split; [exact Hr|]. apply str_eqb_eq. exact E. }
  destruct (filter (fun r => str_eqb (field r gcol) group) d);
    [contradiction | simpl; lia].
Qed.

(** The body of the outer loop for a group that occurs in the dataset. *)
Lemma average_body (group : str) (d : dataset) (results : dict pyfloat) :
  (forall r, In r d -> has_field r gcol /\ has_field r vcol) ->
  In group (column d gcol) ->
  (st <- for_each d (sum_body parse_float norm gcol vcol group)
           (float_of_int 0, 0%Z) ;;
   let '(total, len_group) := st in
   av <- float_truediv_int total len_group ;;
   Ok (dict_set results group av))
  = if forallb (sum_good parse_float norm gcol vcol group) d
    then Ok (dict_set results group
               (mean (group_values parse_float norm gcol vcol d group)))
    else Raise ValueError.
Proof.
  intros H Hg. rewrite sum_loop by exact H.
  destruct (forallb (sum_good parse_float norm gcol vcol group) d);
    [|reflexivity].
  cbn [bind]. rewrite sum_steps. cbn [Z.add].
  pose proof (group_nonempty group d Hg) as L.
  unfold float_truediv_int.
  destruct (Z.eqb_spec
    (Z.of_nat (length (group_values parse_float norm gcol vcol d group))) 0)
    as [E|_]; [lia|].
  reflexivity.
Qed.

Lemma set_all_new (m : str -> pyfloat) (keys : list str) (acc : dict pyfloat) :
  NoDup (dict_keys acc ++ keys) ->
  fold_left (fun res g => dict_set res g (m g)) keys acc
  = acc ++ map (fun g => (g, m g)) keys.
Proof.
  revert acc. induction keys as [|k keys IH]; intros acc N; simpl.
  - rewrite app_nil_r. reflexivity.
  - assert (K : dict_mem acc k = false).
    { apply dict_mem_false_keys. apply NoDup_remove_2 in N.
      intros H. apply N. apply in_or_app. left. exact H. }
    rewrite dict_set_new by exact K. rewrite IH.
    + rewrite <- app_assoc. reflexivity.
    + unfold dict_keys in *. rewrite map_app. simpl.
      rewrite <- app_assoc. exact N.
Qed.

(** All of a dataset parses exactly when no group meets a row it cannot
    read. *)
Lemma all_groups_good (d : dataset) (keys : list str) :
  (forall r, In r d -> In (field r gcol) keys) ->
  forallb (fun g => forallb (sum_good parse_float norm gcol vcol g) d) keys
  = forallb (numeric_parses parse_float norm vcol) d.
Proof.
  intros H.
  destruct (forallb (numeric_parses parse_float norm vcol) d) eqn:P.
  - apply forallb_forall. intros g _. apply forallb_forall. intros r Hr.
    unfold sum_good. rewrite (proj1 (forallb_forall _ _) P r Hr).
    apply orb_true_r.
  - destruct (forallb (fun g => forallb _ d) keys) eqn:Q; [|reflexivity].
    assert (T : forallb (numeric_parses parse_float norm vcol) d = true);
      [|congruence].
    apply forallb_forall. intros r Hr.
    pose proof (proj1 (forallb_forall _ _) Q _ (H r Hr)) as Q1.
    pose proof (proj1 (forallb_forall _ _) Q1 r Hr) as Q2.
    unfold sum_good in Q2. rewrite str_eqb_refl in Q2. exact Q2.
Qed.

Lemma average_by_result (d : dataset) :
  (forall r, In r d -> has_field r gcol /\ has_field r vcol) ->
  average_by parse_float norm gcol vcol d
  = if forallb (numeric_parses parse_float norm vcol) d
    then Ok (map (fun g => (g, mean (group_values parse_float norm gcol vcol d g)))
               (dict_keys (tally (column d gcol) [])))
    else Raise ValueError.
Proof.
  intros H. unfold average_by.
  rewrite freq_table_ok by (intros r Hr; apply H; exact Hr).
  cbn [bind]. rewrite freq_table_keys.
  rewrite (for_each_good _ _ _
    (fun res g => dict_set res g
                    (mean (group_values parse_float norm gcol vcol d g)))
    (fun g => forallb (sum_good parse_float norm gcol vcol g) d) ValueError).
  - rewrite all_groups_good.
    + destruct (forallb (numeric_parses parse_float norm vcol) d);
        [|reflexivity].
      rewrite set_all_new; [reflexivity|].
      simpl. apply tally_keys_nodup. constructor.
    + intros r Hr. apply tally_keys_column. unfold column.
      exact (in_map (fun r => field r gcol) d r Hr).
  - intros g Hg G s. rewrite average_body; [rewrite G; reflexivity | exact H |].
    apply tally_keys_column. exact Hg.
  - intros g Hg G s. rewrite average_body; [rewrite G; reflexivity | exact H |].
    apply tally_keys_column. exact Hg.
Qed.


End Averages.

Lemma apple_is_average_by (parse_float : str -> option pyfloat) (d : dataset) :
  compute_apple_genre_avg_ratings parse_float d
  = average_by parse_float (fun s => s) 11 5 d.
Proof. reflexivity. Qed.

Lemma google_is_average_by (parse_float : str -> option pyfloat) (d : dataset) :
  compute_google_category_avg_installs parse_float d
  = average_by parse_float normalize_installs 1 5 d.
Proof. reflexivity. Qed.

Lemma numeric_parses_some (parse_float : str -> option pyfloat)
    (norm : str -> str) (vcol : Z) (r : row) :
  numeric_parses parse_float norm vcol r = true
  <-> exists x, parse_float (norm (field r vcol)) = Some x.
Proof.
  unfold numeric_parses. destruct (parse_float (norm (field r vcol))).
  - split; eauto.
  - split; [discriminate | intros [x H]; discriminate].
Qed.

Lemma numeric_parses_none (parse_float : str -> option pyfloat)
    (norm : str -> str) (vcol : Z) (r : row) :
  numeric_parses parse_float norm vcol r = false
  <-> parse_float (norm (field r vcol)) = None.
Proof.
  unfold numeric_parses. destruct (parse_float (norm (field r vcol)));
    split; congruence.
Qed.

Lemma all_parse_iff (parse_float : str -> option pyfloat)
    (norm : str -> str) (vcol : Z) (d : dataset) :
  forallb (numeric_parses parse_float norm vcol) d = true
  <-> forall r, In r d -> parse_float (norm (field r vcol)) <> None.
Proof.
  rewrite forallb_forall. split; intros H r Hr.
  - apply H in Hr. apply numeric_parses_some in Hr. destruct Hr as [x E].
    congruence.
  - apply numeric_parses_some. specialize (H r Hr).
    destruct (parse_float (norm (field r vcol))); [eauto | contradiction].
Qed.

Lemma some_fails_iff (parse_float : str -> option pyfloat)
    (norm : str -> str) (vcol : Z) (d : dataset) :
  forallb (numeric_parses parse_float norm vcol) d = false
  <-> exists r, In r d /\ parse_float (norm (field r vcol)) = None.
Proof.
  induction d as [|r d IH]; simpl.
  - split; [discriminate | intros (r & [] & _)].
  - rewrite andb_false_iff, IH, numeric_parses_none. split.
    + intros [H|(x & Hx & E)]; [exists r | exists x]; auto.
    + intros (x & [<-|Hx] & E); [left | right; exists x]; auto.
Qed.

(** [createdicodup] on rows that have a column 3. *)
Lemma createdicodup_result (parse_float : str -> option pyfloat) (d : dataset) :
  (forall r, In r d -> has_field r 3) ->
  createdicodup parse_float d
  = if forallb (numeric_parses parse_float (fun s => s) 3) d
    then Ok (fold_left (index_step parse_float) d [])
    else Raise ValueError.
Proof.
  intros H. unfold createdicodup. apply for_each_good.
  - intros r Hr G s. apply createdicodup_body_step. split; [auto|].
    apply numeric_parses_some in G. exact G.
  - intros r Hr G s. apply numeric_parses_none in G.
    unfold createdicodup_body.
    rewrite (getitem_field r 0) by (apply (has_field_below r 3); [lia | auto]).
    rewrite (getitem_field r 3) by auto. cbn [bind].
    unfold float_of_str. rewrite G. reflexivity.
Qed.

(** C7. On rows that have the numeric column, [createdicodup] (review
    count, column 3) and [compute_google_category_avg_installs] (installs,
    column 5, after deleting '+' and ',') raise [ValueError], the failure of
    [float] on a string that is not a number, exactly when [float] rejects
    the numeric field of some row; they return a result exactly when it
    rejects none.  A rejected row is never skipped. *)
Theorem parse_failure_escalates (parse_float : str -> option pyfloat)
    (d g : dataset) :
  (forall r, In r d -> has_field r 3) ->
  (forall r, In r g -> has_field r 5) ->
  (createdicodup parse_float d = Raise ValueError
   <-> exists r, In r d /\ parse_float (field r 3) = None)
  /\ ((exists reviews_max, createdicodup parse_float d = Ok reviews_max)
      <-> forall r, In r d -> parse_float (field r 3) <> None)
  /\ (compute_google_category_avg_installs parse_float g = Raise ValueError
      <-> exists r, In r g
            /\ parse_float (normalize_installs (field r 5)) = None)
  /\ ((exists results,
         compute_google_category_avg_installs parse_float g = Ok results)
      <-> forall r, In r g ->
            parse_float (normalize_installs (field r 5)) <> None).
Proof.
  intros Hd Hg.
  rewrite createdicodup_result by exact Hd.
  rewrite google_is_average_by, average_by_result.
  2:{ intros r Hr. split; [|auto].
      apply (has_field_below r 5); [lia | auto]. }
  rewrite <- (some_fails_iff parse_float (fun s => s) 3 d).
  rewrite <- (all_parse_iff parse_float (fun s => s) 3 d).
  rewrite <- (some_fails_iff parse_float normalize_installs 5 g).
  rewrite <- (all_parse_iff parse_float normalize_installs 5 g).
  destruct (forallb (numeric_parses parse_float (fun s => s) 3) d);
  destruct (forallb (numeric_parses parse_float normalize_installs 5) g);
  repeat split; try congruence; try (intros [x E]; discriminate);
    try (intros _; eexists; reflexivity).
Qed.





Lemma malformed_example_fields (r : row) :
  In r malformed_example -> has_field r 3 /\ has_field r 5.
Proof. intros [<-|[<-|[]]]; split; eexists; reflexivity. Qed.

Lemma parse_failure_escalates_witness :
  (forall r, In r malformed_example -> has_field r 3)
  /\ (forall r, In r malformed_example -> has_field r 5)
  /\ (createdicodup ascii_float malformed_example = Raise ValueError
      <-> exists r, In r malformed_example /\ ascii_float (field r 3) = None)
  /\ ((exists reviews_max,
         createdicodup ascii_float malformed_example = Ok reviews_max)
      <-> forall r, In r malformed_example -> ascii_float (field r 3) <> None)
  /\ (compute_google_category_avg_installs ascii_float malformed_example
      = Raise ValueError
      <-> exists r, In r malformed_example
            /\ ascii_float (normalize_installs (field r 5)) = None)
  /\ ((exists results,
         compute_google_category_avg_installs ascii_float malformed_example
         = Ok results)
      <-> forall r, In r malformed_example ->
            ascii_float (normalize_installs (field r 5)) <> None).
Proof.
  split; [intros r Hr; apply malformed_example_fields; exact Hr|].
  split; [intros r Hr; apply malformed_example_fields; exact Hr|].
  apply (parse_failure_escalates ascii_float malformed_example malformed_example).
  - intros r Hr. apply malformed_example_fields. exact Hr.
  - intros r Hr. apply malformed_example_fields. exact Hr.
Defined.

(** The malformed row makes both functions raise. *)
Example malformed_raises :
  createdicodup ascii_float malformed_example = Raise ValueError
  /\ compute_google_category_avg_installs ascii_float malformed_example
     = Raise ValueError.
Proof. split; vm_compute; reflexivity. Qed.





(** On the example the binary64 mean of the installs of TOOLS, 10000 and
    50000, is their arithmetic mean 30000: no addition and no division
    rounds. *)
Example averages_exact_scenario :
  binary64_mean
    (group_values ascii_float delete_plus_comma 1 5 google_example
       (utf8 "TOOLS"))
  = S754_finite false 8246337208320000 (-38)
  /\ arithmetic_mean
       (group_values ascii_float delete_plus_comma 1 5 google_example
          (utf8 "TOOLS"))
       (S754_finite false 8246337208320000 (-38)).
Proof.
  split; [vm_compute; reflexivity|].
  split; [discriminate | vm_compute; reflexivity].
Qed.


(** Installs 10,000+ and 50,000+ in TOOLS average to 30000.0, the single
    GAME row to 1000.0; rating counts 10 and 30 average to 20.0. *)
Example averages_scenario :
  compute_google_category_avg_installs ascii_float google_example
  = Ok [(utf8 "TOOLS", float_of_int 30000); (utf8 "GAME", float_of_int 1000)]
  /\ compute_apple_genre_avg_ratings ascii_float apple_example
     = Ok [(utf8 "Productivity", float_of_int 20); (utf8 "Games", float_of_int 5)].
Proof. split; vm_compute; reflexivity. Qed.

(** ** Sorting *)

Section SortFacts.
Variable A : Type.
Variable ltb : A -> A -> bool.
Hypothesis ltb_asym : forall a b, ltb a b = true -> ltb b a = false.
Hypothesis ltb_trans :
  forall a b c, ltb a b = true -> ltb b c = true -> ltb a c = true.

Lemma insert_sorted_perm (x : A) (l : list A) :
  Permutation (x :: l) (insert_sorted ltb x l).
Proof.
  induction l as [|y l IH]; simpl; [reflexivity|].
  destruct (ltb x y); [reflexivity|].
  rewrite perm_swap. constructor. exact IH.
Qed.

Lemma sort_fold_perm (l acc : list A) :
  Permutation (acc ++ l) (fold_left (fun acc x => insert_sorted ltb x acc) l acc).
Proof.
  revert acc. induction l as [|x l IH]; intros acc; simpl.
  - rewrite app_nil_r. reflexivity.
  - rewrite <- IH. rewrite <- insert_sorted_perm.
    symmetry. apply Permutation_middle.
Qed.

Lemma sort_stable_perm (l : list A) : Permutation l (sort_stable ltb l).
Proof. apply (sort_fold_perm l []). Qed.

Lemma sorted_reverse_perm (l : list A) : Permutation l (sorted_reverse ltb l).
Proof.
  unfold sorted_reverse. rewrite <- Permutation_rev.
  rewrite <- sort_stable_perm. apply Permutation_rev.
Qed.

Lemma insert_sorted_ascending (x : A) (l : list A) :
  ascending ltb l -> ascending ltb (insert_sorted ltb x l).
Proof.
  unfold ascending. induction l as [|y l IH]; intros S; simpl.
  - repeat constructor.
  - inversion S as [|? ? Sl Fy]; subst. destruct (ltb x y) eqn:L.
    + constructor; [exact S|]. constructor; [apply ltb_asym; exact L|].
      rewrite Forall_forall in *. intros z Hz.
      destruct (ltb z x) eqn:Z; [|reflexivity].
      rewrite <- (Fy z Hz). symmetry. apply (ltb_trans z x y); assumption.
    + constructor; [apply IH; exact Sl|].
      rewrite Forall_forall in *. intros z Hz.
      apply (Permutation_in z (Permutation_sym (insert_sorted_perm x l))) in Hz.
      destruct Hz as [<-|Hz]; [exact L | apply Fy; exact Hz].
Qed.

Lemma sort_fold_ascending (l acc : list A) :
  ascending ltb acc ->
  ascending ltb (fold_left (fun acc x => insert_sorted ltb x acc) l acc).
Proof.
  revert acc. induction l as [|x l IH]; intros acc S; simpl; [exact S|].
  apply IH. apply insert_sorted_ascending. exact S.
Qed.

Lemma sort_stable_ascending (l : list A) : ascending ltb (sort_stable ltb l).
Proof. apply sort_fold_ascending. constructor. Qed.

Lemma strongly_sorted_app (R : A -> A -> Prop) (l1 l2 : list A) :
  StronglySorted R l1 -> StronglySorted R l2 ->
  (forall a b, In a l1 -> In b l2 -> R a b) ->
  StronglySorted R (l1 ++ l2).
Proof.
  induction l1 as [|x l1 IH]; intros S1 S2 H; simpl; [exact S2|].
  inversion S1 as [|? ? S1' F1]; subst. constructor.
  - apply IH; [exact S1' | exact S2 |].
    intros a b Ha Hb. apply H; [right; exact Ha | exact Hb].
  - apply Forall_app. split; [exact F1|].
    apply Forall_forall. intros b Hb. apply H; [left; reflexivity | exact Hb].
Qed.

Lemma strongly_sorted_rev (R : A -> A -> Prop) (l : list A) :
  StronglySorted R l -> StronglySorted (fun a b => R b a) (rev l).
Proof.
  induction 1 as [|x l S IH F]; simpl; [constructor|].
  apply strongly_sorted_app; [exact IH | repeat constructor |].
  intros a b Ha [<-|[]]. apply in_rev in Ha.
  rewrite Forall_forall in F. apply F. exact Ha.
Qed.

(** [sorted(l, reverse=True)] is descending: no element is less than one
    after it. *)
Lemma sorted_reverse_descending (l : list A) :
  StronglySorted (fun a b => ltb a b = false) (sorted_reverse ltb l).
Proof.
  unfold sorted_reverse.
  apply (strongly_sorted_rev (fun a b => ltb b a = false)).
  apply sort_stable_ascending.
Qed.

Lemma strongly_sorted_distinct (K : Type) (f : A -> K) (R : A -> A -> Prop)
    (l : list A) :
  StronglySorted R l -> NoDup (map f l) ->
  StronglySorted (fun a b => R a b /\ f a <> f b) l.
Proof.
  induction 1 as [|x l S IH F]; intros N; [constructor|].
  simpl in N. inversion N as [|? ? Nx Nl]; subst.
  constructor; [apply IH; exact Nl|].
  rewrite Forall_forall in *. intros b Hb. split; [apply F; exact Hb|].
  intros E. apply Nx. rewrite E. apply in_map. exact Hb.
Qed.

Lemma strongly_sorted_weaken (R Q : A -> A -> Prop) (l : list A) :
  (forall a b, R a b -> Q a b) -> StronglySorted R l -> StronglySorted Q l.
Proof.
  intros H. induction 1 as [|x l S IH F]; constructor; [exact IH|].
  rewrite Forall_forall in *. intros b Hb. apply H, F, Hb.
Qed.

End SortFacts.

(** Sorting the images of a list under [g] by an order that [g] carries
    over from the list is sorting the list. *)
Section SortMap.
Variables A B : Type.
Variable ltA : A -> A -> bool.
Variable ltB : B -> B -> bool.
Variable g : A -> B.

Lemma insert_sorted_map (x : A) (l : list A) :
  (forall b, In b l -> ltB (g x) (g b) = ltA x b) ->
  insert_sorted ltB (g x) (map g l) = map g (insert_sorted ltA x l).
Proof.
  induction l as [|y l IH]; intros H; simpl; [reflexivity|].
  rewrite (H y (or_introl eq_refl)). destruct (ltA x y); [reflexivity|].
  simpl. f_equal. apply IH. intros b Hb. apply H. right. exact Hb.
Qed.

Lemma insert_sorted_in (x y : A) (l : list A) :
  In y (insert_sorted ltA x l) -> y = x \/ In y l.
Proof.
  induction l as [|z l IH]; simpl.
  - intros [<-|[]]. left. reflexivity.
  - destruct (ltA x z); simpl.
    + intros [<-|H]; auto.
    + intros [<-|H]; [auto|]. destruct (IH H); auto.
Qed.

Lemma sort_fold_map (l acc : list A) :
  (forall a b, In a (acc ++ l) -> In b (acc ++ l) -> ltB (g a) (g b) = ltA a b) ->
  fold_left (fun acc x => insert_sorted ltB x acc) (map g l) (map g acc)
  = map g (fold_left (fun acc x => insert_sorted ltA x acc) l acc).
Proof.
  revert acc. induction l as [|x l IH]; intros acc H; simpl; [reflexivity|].
  rewrite insert_sorted_map.
  - apply IH. intros a b Ha Hb. apply H.
    + apply in_app_or in Ha. apply in_or_app. destruct Ha as [Ha|Ha].
      * apply insert_sorted_in in Ha. destruct Ha as [->|Ha];
          [right; left; reflexivity | left; exact Ha].
      * right. right. exact Ha.
    + apply in_app_or in Hb. apply in_or_app. destruct Hb as [Hb|Hb].
      * apply insert_sorted_in in Hb. destruct Hb as [->|Hb];
          [right; left; reflexivity | left; exact Hb].
      * right. right. exact Hb.
  - intros b Hb. apply H; apply in_or_app;
      [right; left; reflexivity | left; exact Hb].
Qed.

Lemma sorted_reverse_map (l : list A) :
  (forall a b, In a l -> In b l -> ltB (g a) (g b) = ltA a b) ->
  sorted_reverse ltB (map g l) = map g (sorted_reverse ltA l).
Proof.
  intros H. unfold sorted_reverse, sort_stable.
  rewrite <- map_rev.
  assert (E : forall a b, In a ([] ++ rev l) -> In b ([] ++ rev l) ->
                ltB (g a) (g b) = ltA a b).
  { simpl. intros a b Ha Hb. apply H; apply in_rev; assumption. }
  apply (sort_fold_map (rev l) []) in E. cbn [map] in E.
  rewrite E, map_rev. reflexivity.
Qed.

End SortMap.

(** ** Rounding to binary64 *)

Section Rounding.
Local Open Scope Z_scope.

Ltac zbool :=
  repeat match goal with
  | |- context [Z.eqb ?a ?b] => destruct (Z.eqb_spec a b)
  | |- context [Z.leb ?a ?b] => destruct (Z.leb_spec a b)
  | |- context [Z.ltb ?a ?b] => destruct (Z.ltb_spec a b)
  end; cbn [negb andb orb]; try reflexivity; try lia.

Lemma shr_1_nonneg (m : Z) (r s : bool) :
  0 <= m ->
  shr_1 {| shr_m := m; shr_r := r; shr_s := s |}
  = {| shr_m := m / 2; shr_r := Z.odd m; shr_s := r || s |}.
Proof.
  intros H. rewrite <- Z.div2_div.
  destruct m as [|p|p]; [reflexivity | | lia].
  destruct p; reflexivity.
Qed.

Lemma shr_1_located (mrs : shr_record) (N D : Z) :
  0 <= N -> located mrs N D -> located (shr_1 mrs) N (2 * D).
Proof.
  intros HN (HD & Hm & Hr & Hs). destruct mrs as [m r s].
  cbn [shr_m shr_r shr_s] in *.
  assert (M0 : 0 <= m) by (subst m; apply Z.div_pos; lia).
  rewrite shr_1_nonneg by exact M0. unfold located. cbn [shr_m shr_r shr_s].
  pose proof (Z.mod_pos_bound N D HD) as B.
  pose proof (Z.mod_pos_bound (N / D) 2 ltac:(lia)) as B2.
  assert (R : N mod (D * 2) = N mod D + D * ((N / D) mod 2))
    by (apply Z.rem_mul_r; lia).
  replace (2 * D) with (D * 2) by lia.
  split; [lia|]. split; [|split].
  - subst m. apply Z.div_div; lia.
  - rewrite R. subst m. rewrite Zodd_mod.
    assert (X : (N / D) mod 2 = 0 \/ (N / D) mod 2 = 1) by lia.
    destruct X as [X|X]; rewrite X;
      [change (0 =? 1) with false | change (1 =? 1) with true]; symmetry;
      [apply Z.leb_gt | apply Z.leb_le]; lia.
  - rewrite R, Hr, Hs.
    assert (X : (N / D) mod 2 = 0 \/ (N / D) mod 2 = 1) by lia.
    destruct X as [X|X]; rewrite X;
    destruct (Z.leb_spec D (2 * (N mod D))), (Z.eqb_spec (N mod D) 0),
      (Z.eqb_spec (2 * (N mod D)) D);
    match goal with
    | |- _ = negb (?a =? ?b) && negb (?c =? ?d) =>
        destruct (Z.eqb_spec a b), (Z.eqb_spec c d)
    end; simpl; try reflexivity; lia.
Qed.

Lemma iter_pos_inv (A : Type) (f : A -> A) (P : Z -> A -> Prop) :
  (forall k x, 0 <= k -> P k x -> P (k + 1) (f x)) ->
  forall p k x, 0 <= k -> P k x -> P (k + Zpos p) (iter_pos f p x).
Proof.
  intros Hf. induction p as [p IH|p IH|]; intros k x Hk Hx; simpl.
  - replace (k + Zpos p~1) with (k + 1 + Zpos p + Zpos p) by lia.
    apply IH; [lia|]. apply IH; [lia|]. apply Hf; assumption.
  - replace (k + Zpos p~0) with (k + Zpos p + Zpos p) by lia.
    apply IH; [lia|]. apply IH; assumption.
  - apply Hf; assumption.
Qed.

Lemma shr_located (mrs : shr_record) (N D e n : Z) :
  0 <= N -> 0 <= n -> located mrs N D ->
  located (fst (shr mrs e n)) N (D * 2 ^ n) /\ snd (shr mrs e n) = e + n.
Proof.
  intros HN Hn L. unfold shr. destruct n as [|p|p]; [| |lia].
  - simpl. rewrite Z.mul_1_r, Z.add_0_r. auto.
  - simpl fst. simpl snd. split; [|reflexivity].
    apply (iter_pos_inv _ shr_1 (fun k x => located x N (D * 2 ^ k))
             ) with (k := 0) (p := p).
    + intros k x Hk Hx. rewrite Z.pow_add_r by lia.
      replace (D * (2 ^ k * 2 ^ 1)) with (2 * (D * 2 ^ k)) by lia.
      apply shr_1_located; assumption.
    + lia.
    + rewrite Z.mul_1_r. exact L.
Qed.

Lemma record_of_loc_located (N D : Z) :
  0 < D -> located (shr_record_of_loc (N / D) (loc_of N D)) N D.
Proof.
  intros HD. unfold loc_of, located.
  pose proof (Z.mod_pos_bound N D HD) as B.
  destruct (Z.eqb_spec (N mod D) 0) as [E|E].
  - cbn [shr_record_of_loc shr_m shr_r shr_s]. rewrite E.
    repeat split; try assumption; zbool.
  - destruct (Z.compare_spec (2 * (N mod D)) D) as [C|C|C];
      cbn [shr_record_of_loc shr_m shr_r shr_s];
      repeat split; try assumption; zbool.
Qed.

(** Rounding a located significand to nearest is within half a unit. *)
Lemma round_nearest_even_located (mrs : shr_record) (N D : Z) :
  0 <= N -> located mrs N D ->
  let m := round_nearest_even (shr_m mrs) (loc_of_shr_record mrs) in
  N / D <= m <= N / D + 1 /\ - D <= 2 * (m * D - N) <= D.
Proof.
  intros HN (HD & Hm & Hr & Hs). destruct mrs as [m r s].
  cbn [shr_m shr_r shr_s] in *. unfold loc_of_shr_record.
  pose proof (Z.mod_pos_bound N D HD) as B.
  pose proof (Z.div_mod N D ltac:(lia)) as DM.
  subst m.
  subst r s. zbool; cbn [round_nearest_even];
    try destruct (Z.even (N / D)); split; try lia; nia.
Qed.

Lemma digits2_bounds (p : positive) :
  2 ^ (Zpos (digits2_pos p) - 1) <= Zpos p < 2 ^ Zpos (digits2_pos p).
Proof.
  induction p as [p IH|p IH|]; cbn [digits2_pos].
  - rewrite Pos2Z.inj_succ. change (Zpos p~1) with (2 * Zpos p + 1).
    replace (Z.succ (Zpos (digits2_pos p)) - 1)
      with (Z.succ (Zpos (digits2_pos p) - 1)) by lia.
    rewrite !Z.pow_succ_r by lia. lia.
  - rewrite Pos2Z.inj_succ. change (Zpos p~0) with (2 * Zpos p).
    replace (Z.succ (Zpos (digits2_pos p)) - 1)
      with (Z.succ (Zpos (digits2_pos p) - 1)) by lia.
    rewrite !Z.pow_succ_r by lia. lia.
  - simpl. lia.
Qed.

Lemma Zdigits2_bounds (m : Z) :
  0 < m -> 2 ^ (Zdigits2 m - 1) <= m < 2 ^ Zdigits2 m.
Proof.
  intros H. destruct m as [|p|p]; try lia. apply digits2_bounds.
Qed.

Lemma Zdigits2_unique (m d : Z) :
  2 ^ (d - 1) <= m < 2 ^ d -> 0 < d -> Zdigits2 m = d.
Proof.
  intros B Hd.
  assert (Hm : 0 < m).
  { pose proof (Z.pow_pos_nonneg 2 (d - 1) ltac:(lia) ltac:(lia)). lia. }
  pose proof (Zdigits2_bounds m Hm) as B'.
  assert (P : 0 < Zdigits2 m) by (destruct m; simpl; lia).
  destruct (Z.lt_trichotomy (Zdigits2 m) d) as [L|[L|L]]; [|exact L|].
  - exfalso. assert (2 ^ Zdigits2 m <= 2 ^ (d - 1))
      by (apply Z.pow_le_mono_r; lia). lia.
  - exfalso. assert (2 ^ d <= 2 ^ (Zdigits2 m - 1))
      by (apply Z.pow_le_mono_r; lia). lia.
Qed.

(** Shifting an exact significand divides it. *)
Lemma shr_exact (m e n : Z) :
  0 <= m -> 0 <= n ->
  shr_m (fst (shr (shr_record_of_loc m loc_Exact) e n)) = m / 2 ^ n
  /\ snd (shr (shr_record_of_loc m loc_Exact) e n) = e + n.
Proof.
  intros Hm Hn.
  assert (L : located (shr_record_of_loc m loc_Exact) m 1).
  { unfold located. cbn [shr_record_of_loc shr_m shr_r shr_s].
    rewrite Z.mod_1_r, Z.div_1_r. repeat split; try lia; reflexivity. }
  destruct (shr_located _ m 1 e n Hm Hn L) as [(_ & M & _) E].
  rewrite Z.mul_1_l in M. split; assumption.
Qed.

(** Rounding the quotient [N / D], of at least 53 bits, scaled by [2 ^ E]:
    the result is a normal number [m * 2 ^ (E + k)] within half a unit in
    the last place of the quotient. *)
Lemma binary_round_aux_located (N D E : Z) :
  0 < D -> 2 ^ 52 * D <= N ->
  - 1074 <= Zdigits2 (N / D) + E - 53 ->
  Zdigits2 (N / D) + E - 53 < 971 ->
  exists (m : positive) (k : Z),
    binary_round_aux 53 1024 false (N / D) E (loc_of N D)
    = S754_finite false m (E + k)
    /\ 2 ^ 52 <= Zpos m < 2 ^ 53
    /\ 0 <= k <= Zdigits2 (N / D) - 52
    /\ - (D * 2 ^ k) <= 2 * (Zpos m * 2 ^ k * D - N) <= D * 2 ^ k.
Proof.
  intros HD HN Hlo Hhi.
  assert (N0 : 0 <= N) by nia.
  assert (HM : 2 ^ 52 <= N / D) by (apply Z.div_le_lower_bound; lia).
  pose proof (Zdigits2_bounds (N / D) ltac:(lia)) as Bd.
  set (d := Zdigits2 (N / D)) in *.
  assert (Hd : 53 <= d).
  { destruct (Z.le_gt_cases 53 d) as [G|G]; [exact G|].
    exfalso. assert (2 ^ d <= 2 ^ 52) by (apply Z.pow_le_mono_r; lia). lia. }
  set (n := d - 53).
  assert (Hn : 0 <= n) by (unfold n; lia).
  unfold binary_round_aux, shr_fexp. fold d.
  assert (F1 : fexp 53 1024 (d + E) - E = n).
  { unfold fexp, emin, n. lia. }
  rewrite F1.
  destruct (shr_located _ N D E n N0 Hn (record_of_loc_located N D HD))
    as [L1 E1].
  destruct (shr (shr_record_of_loc (N / D) (loc_of N D)) E n) as [mrs1 e1].
  cbn [fst snd] in L1, E1. subst e1.
  pose proof (Z.pow_pos_nonneg 2 n ltac:(lia) Hn) as Pn.
  set (P := 2 ^ n) in *.
  assert (HDP : 0 < D * P) by nia.
  pose proof (round_nearest_even_located mrs1 N (D * P) N0 L1) as [R1 R2].
  cbv zeta in R1, R2.
  set (m2 := round_nearest_even (shr_m mrs1) (loc_of_shr_record mrs1)) in *.
  (* the shifted quotient has exactly 53 bits *)
  assert (B1 : 2 ^ 52 <= N / (D * P) < 2 ^ 53).
  { rewrite <- Z.div_div by lia.
    assert (Ep : 2 ^ (d - 1) = 2 ^ 52 * P).
    { unfold P, n. rewrite <- Z.pow_add_r by lia. f_equal. lia. }
    assert (Eq : 2 ^ d = 2 ^ 53 * P).
    { unfold P, n. rewrite <- Z.pow_add_r by lia. f_equal. lia. }
    split.
    - apply Z.div_le_lower_bound; lia.
    - apply Z.div_lt_upper_bound; lia. }
  assert (B2 : 2 ^ 52 <= m2 <= 2 ^ 53) by lia.
  assert (C : m2 < 2 ^ 53 \/ m2 = 2 ^ 53) by lia.
  destruct C as [C|C].
  - (* no carry *)
    assert (D2 : Zdigits2 m2 = 53) by (apply Zdigits2_unique; lia).
    rewrite D2.
    assert (F2 : fexp 53 1024 (53 + (E + n)) - (E + n) = 0).
    { unfold fexp, emin, n. lia. }
    rewrite F2.
    destruct (shr_exact m2 (E + n) 0 ltac:(lia) ltac:(lia)) as [S1 S2].
    destruct (shr (shr_record_of_loc m2 loc_Exact) (E + n) 0) as [mrs2 e2].
    cbn [fst snd] in S1, S2. rewrite S1. subst e2.
    rewrite Z.pow_0_r, Z.div_1_r.
    destruct m2 as [|p|p]; try lia.
    assert (Le : (E + n + 0 <=? 1024 - 53) = true)
      by (apply Z.leb_le; unfold n; lia).
    rewrite Le. exists p, n. rewrite Z.add_0_r. fold P.
    repeat split; try (unfold n; lia); nia.
  - (* the rounding carries to the next binade *)
    assert (D2 : Zdigits2 m2 = 54) by (apply Zdigits2_unique; lia).
    rewrite D2.
    assert (F2 : fexp 53 1024 (54 + (E + n)) - (E + n) = 1).
    { unfold fexp, emin, n. lia. }
    rewrite F2.
    destruct (shr_exact m2 (E + n) 1 ltac:(lia) ltac:(lia)) as [S1 S2].
    destruct (shr (shr_record_of_loc m2 loc_Exact) (E + n) 1) as [mrs2 e2].
    cbn [fst snd] in S1, S2. rewrite S1. subst e2. rewrite C.
    change (2 ^ 53 / 2 ^ 1) with (Zpos (2 ^ 52)).
    assert (Le : (E + n + 1 <=? 1024 - 53) = true)
      by (apply Z.leb_le; unfold n; lia).
    rewrite Le. exists (2 ^ 52)%positive, (n + 1).
    rewrite Z.add_assoc. split; [reflexivity|].
    split; [change (Zpos (2 ^ 52)) with (2 ^ 52); lia|].
    split; [unfold n; lia|].
    rewrite Z.pow_add_r by lia. fold P.
    change (Zpos (2 ^ 52)) with (2 ^ 52). rewrite C in R2.
    change (2 ^ 1) with 2. split; nia.
Qed.

Lemma new_location_loc_of (N D : Z) :
  0 < D -> new_location D (N mod D) = loc_of N D.
Proof.
  intros HD. pose proof (Z.mod_pos_bound N D HD) as B.
  unfold new_location, new_location_even, new_location_odd, loc_of.
  destruct (Z.even D) eqn:Ev; [reflexivity|].
  destruct (Z.eqb_spec (N mod D) 0); [reflexivity|]. f_equal.
  assert (O : Z.odd D = true) by (rewrite <- Z.negb_even, Ev; reflexivity).
  apply Z.odd_spec in O. destruct O as [h Hh].
  destruct (Z.compare_spec (2 * (N mod D) + 1) D),
    (Z.compare_spec (2 * (N mod D)) D); try reflexivity; lia.
Qed.

Lemma div_core_ints (a t : Z) :
  0 < a -> 0 < t -> Zdigits2 a <= Zdigits2 t -> Zdigits2 t <= 1000 ->
  let s := 53 + Zdigits2 t - Zdigits2 a in
  SFdiv_core_binary 53 1024 a 0 t 0
  = (a * 2 ^ s / t, - s, loc_of (a * 2 ^ s) t).
Proof.
  intros Ha Ht Hd Hb s. unfold SFdiv_core_binary.
  rewrite !Z.add_0_r, Z.sub_0_r.
  assert (F : Z.min (fexp 53 1024 (Zdigits2 a - Zdigits2 t)) 0 = - s).
  { unfold fexp, emin, s. pose proof (Zdigits2_bounds a Ha).
    assert (0 < Zdigits2 a) by (destruct a; simpl; lia). lia. }
  rewrite F. replace (0 - - s) with s by lia.
  assert (Hs : 0 < s) by (unfold s; lia).
  destruct s as [|ps|ps] eqn:Es; try lia.
  rewrite Z.shiftl_mul_pow2 by lia.
  rewrite <- (new_location_loc_of _ t Ht).
  unfold Z.div, Z.modulo.
  destruct (Z.div_eucl (a * 2 ^ Zpos ps) t) as [q r]. reflexivity.
Qed.

(** [a / t] on integers [0 < a <= t < 2 ^ 50], as a float: a normal
    number [m * 2 ^ e] whose distance to the quotient is at most half a
    unit in the last place; [s] scales the quotient to an integer. *)
Lemma int_truediv_round (a t : positive) :
  (Zpos a <= Zpos t)%Z -> Zpos t < 2 ^ 50 ->
  exists (m : positive) (e s : Z),
    SFdiv 53 1024 (S754_finite false a 0) (S754_finite false t 0)
    = S754_finite false m e
    /\ 2 ^ 52 <= Zpos m < 2 ^ 53
    /\ 53 <= s <= 103
    /\ 0 <= s + e <= 2
    /\ - (Zpos t * 2 ^ (s + e))
       <= 2 * (Zpos m * 2 ^ (s + e) * Zpos t - Zpos a * 2 ^ s)
       <= Zpos t * 2 ^ (s + e).
Proof.
  intros Hat Ht.
  pose proof (Zdigits2_bounds (Zpos a) ltac:(lia)) as Ba.
  pose proof (Zdigits2_bounds (Zpos t) ltac:(lia)) as Bt.
  set (d1 := Zdigits2 (Zpos a)) in *. set (d2 := Zdigits2 (Zpos t)) in *.
  assert (P1 : 0 < d1) by (unfold d1; simpl; lia).
  assert (P2 : 0 < d2) by (unfold d2; simpl; lia).
  assert (L12 : d1 <= d2).
  { destruct (Z.le_gt_cases d1 d2) as [G|G]; [exact G|]. exfalso.
    assert (2 ^ d2 <= 2 ^ (d1 - 1)) by (apply Z.pow_le_mono_r; lia). lia. }
  assert (L2 : d2 <= 50).
  { destruct (Z.le_gt_cases d2 50) as [G|G]; [exact G|]. exfalso.
    assert (2 ^ 50 <= 2 ^ (d2 - 1)) by (apply Z.pow_le_mono_r; lia). lia. }
  unfold SFdiv. rewrite (div_core_ints (Zpos a) (Zpos t)) by (fold d1 d2; lia).
  fold d1 d2. set (s := 53 + d2 - d1).
  assert (Hs : 53 <= s <= 103) by (unfold s; lia).
  pose proof (Z.pow_pos_nonneg 2 s ltac:(lia) ltac:(lia)) as Ps.
  (* the scaled quotient has 53 or 54 bits *)
  assert (E1 : 2 ^ (d1 - 1) * 2 ^ s = 2 ^ 52 * 2 ^ d2).
  { rewrite <- !Z.pow_add_r by lia. f_equal. unfold s. lia. }
  assert (E2 : 2 ^ d1 * 2 ^ s = 2 ^ 54 * 2 ^ (d2 - 1)).
  { rewrite <- !Z.pow_add_r by lia. f_equal. unfold s. lia. }
  assert (Lo : 2 ^ 52 * Zpos t <= Zpos a * 2 ^ s) by nia.
  assert (Hi : Zpos a * 2 ^ s < 2 ^ 54 * Zpos t) by nia.
  assert (Q : 2 ^ 52 <= Zpos a * 2 ^ s / Zpos t < 2 ^ 54).
  { split; [apply Z.div_le_lower_bound | apply Z.div_lt_upper_bound]; lia. }
  pose proof (Zdigits2_bounds (Zpos a * 2 ^ s / Zpos t) ltac:(lia)) as Bq.
  set (dq := Zdigits2 (Zpos a * 2 ^ s / Zpos t)) in *.
  assert (Dq : 53 <= dq <= 54).
  { split.
    - destruct (Z.le_gt_cases 53 dq) as [G|G]; [exact G|]. exfalso.
      assert (2 ^ dq <= 2 ^ 52) by (apply Z.pow_le_mono_r; lia). lia.
    - destruct (Z.le_gt_cases dq 54) as [G|G]; [exact G|]. exfalso.
      assert (2 ^ 54 <= 2 ^ (dq - 1)) by (apply Z.pow_le_mono_r; lia). lia. }
  destruct (binary_round_aux_located (Zpos a * 2 ^ s) (Zpos t) (- s))
    as (m & k & R & Bm & Bk & Bv); try (fold dq; lia).
  fold dq in Bk. simpl xorb. rewrite R. exists m, (- s + k), s.
  replace (s + (- s + k)) with k by lia.
  repeat split; try lia.
Qed.

Lemma float_of_100 :
  binary_normalize 53 1024 100 0 false = S754_finite false hundred (-46).
Proof. reflexivity. Qed.

Lemma mul_hundred_round (m : positive) (e : Z) :
  2 ^ 52 <= Zpos m < 2 ^ 53 -> - 200 <= e <= 0 ->
  exists (m' : positive) (k : Z),
    SFmul 53 1024 (S754_finite false m e) (S754_finite false hundred (-46))
    = S754_finite false m' (e - 46 + k)
    /\ 2 ^ 52 <= Zpos m' < 2 ^ 53
    /\ 0 <= k <= 54
    /\ - 2 ^ k <= 2 * (Zpos m' * 2 ^ k - Zpos m * Zpos hundred) <= 2 ^ k.
Proof.
  intros Bm Be. unfold SFmul. simpl xorb.
  set (N := Zpos (m * hundred)).
  assert (EN : N = Zpos m * Zpos hundred) by reflexivity.
  assert (BN : 2 ^ 104 <= N < 2 ^ 106).
  { rewrite EN. unfold hundred. split; nia. }
  assert (L : loc_Exact = loc_of N 1).
  { unfold loc_of. rewrite Z.mod_1_r. reflexivity. }
  rewrite L.
  replace (binary_round_aux 53 1024 false N (e + -46) (loc_of N 1))
    with (binary_round_aux 53 1024 false (N / 1) (e + -46) (loc_of N 1))
    by (rewrite Z.div_1_r; reflexivity).
  pose proof (Zdigits2_bounds N ltac:(lia)) as Bd.
  assert (Dq : 105 <= Zdigits2 N <= 106).
  { split.
    - destruct (Z.le_gt_cases 105 (Zdigits2 N)) as [G|G]; [exact G|]. exfalso.
      assert (2 ^ Zdigits2 N <= 2 ^ 104) by (apply Z.pow_le_mono_r; lia). lia.
    - destruct (Z.le_gt_cases (Zdigits2 N) 106) as [G|G]; [exact G|]. exfalso.
      assert (2 ^ 106 <= 2 ^ (Zdigits2 N - 1)) by (apply Z.pow_le_mono_r; lia).
      lia. }
  destruct (binary_round_aux_located N 1 (e + -46))
    as (m' & k & R & Bm' & Bk & Bv).
  - lia.
  - lia.
  - rewrite Z.div_1_r. lia.
  - rewrite Z.div_1_r. lia.
  - rewrite Z.div_1_r in Bk. rewrite R. exists m', k.
    replace (e + -46 + k) with (e - 46 + k) by lia.
    rewrite <- EN. repeat split; try lia.
Qed.

(** Two bounds carried through a product. *)
Lemma chain_upper (U m1 p X t a c g h S K : Z) :
  0 <= p -> 0 <= X -> 0 <= t -> 0 <= g -> 0 <= h -> 0 <= c ->
  U * g <= h * (m1 * c) ->
  m1 * p * t * g <= h * (a * S) ->
  S * X = K ->
  U * p * X * t * (g * g) <= a * c * (h * h) * K.
Proof.
  intros Hp HX Ht Hg Hh Hc H1 H2 <-.
  apply Z.le_trans with (h * (m1 * c) * (p * X * t * g)).
  - replace (U * p * X * t * (g * g)) with (U * g * (p * X * t * g)) by ring.
    apply Z.mul_le_mono_nonneg_r; [|exact H1].
    repeat apply Z.mul_nonneg_nonneg; assumption.
  - replace (h * (m1 * c) * (p * X * t * g))
      with (h * c * X * (m1 * p * t * g)) by ring.
    replace (a * c * (h * h) * (S * X)) with (h * c * X * (h * (a * S)))
      by ring.
    apply Z.mul_le_mono_nonneg_l; [|exact H2].
    repeat apply Z.mul_nonneg_nonneg; assumption.
Qed.

Lemma chain_lower (U m1 p X t a c g h S K : Z) :
  0 <= p -> 0 <= X -> 0 <= t -> 0 <= g -> 0 <= h -> 0 <= c ->
  h * (m1 * c) <= U * g ->
  h * (a * S) <= m1 * p * t * g ->
  S * X = K ->
  a * c * (h * h) * K <= U * p * X * t * (g * g).
Proof.
  intros Hp HX Ht Hg Hh Hc H1 H2 <-.
  apply Z.le_trans with (h * (m1 * c) * (p * X * t * g)).
  - replace (h * (m1 * c) * (p * X * t * g))
      with (h * c * X * (m1 * p * t * g)) by ring.
    replace (a * c * (h * h) * (S * X)) with (h * c * X * (h * (a * S)))
      by ring.
    apply Z.mul_le_mono_nonneg_l; [|exact H2].
    repeat apply Z.mul_nonneg_nonneg; assumption.
  - replace (U * p * X * t * (g * g)) with (U * g * (p * X * t * g)) by ring.
    apply Z.mul_le_mono_nonneg_r; [|exact H1].
    repeat apply Z.mul_nonneg_nonneg; assumption.
Qed.

(** The percentage of a count [a] in a table of [t < 2 ^ 50] rows is a
    normal float [m * 2 ^ f] whose relative distance to [100 * a / t] is at
    most two roundings. *)
Lemma percentage_value (a t : Z) :
  0 < a <= t -> t < 2 ^ 50 ->
  exists (m : positive) (f : Z),
    percentage a t = S754_finite false m f
    /\ 2 ^ 52 <= Zpos m < 2 ^ 53
    /\ - 300 <= f
    /\ Zpos m * 2 ^ (f + 300) * t * ((2 ^ 53 - 1) * (2 ^ 53 - 1))
       <= a * Zpos hundred * (2 ^ 53 * 2 ^ 53) * 2 ^ 254
    /\ a * Zpos hundred * (2 ^ 53 * 2 ^ 53) * 2 ^ 254
       <= Zpos m * 2 ^ (f + 300) * t * ((2 ^ 53 + 1) * (2 ^ 53 + 1)).
Proof.
  intros Ha Ht. destruct a as [|pa|pa]; try lia. destruct t as [|pt|pt]; try lia.
  unfold percentage, float_mul, float_div, float_of_int, exact_int, prec, emax.
  rewrite float_of_100.
  destruct (int_truediv_round pa pt ltac:(lia) Ht)
    as (m1 & e1 & s & R1 & Bm1 & Bs & Bk1 & Bv1).
  rewrite R1.
  destruct (mul_hundred_round m1 e1 Bm1 ltac:(lia))
    as (m2 & k2 & R2 & Bm2 & Bk2 & Bv2).
  rewrite R2. exists m2, (e1 - 46 + k2).
  split; [reflexivity|]. split; [exact Bm2|]. split; [lia|].
  set (k1 := s + e1) in *.
  assert (EP : 2 ^ (e1 - 46 + k2 + 300) = 2 ^ k2 * 2 ^ k1 * 2 ^ (254 - s)).
  { rewrite <- !Z.pow_add_r by lia. f_equal. unfold k1. lia. }
  assert (ES : 2 ^ s * 2 ^ (254 - s) = 2 ^ 254).
  { rewrite <- Z.pow_add_r by lia. f_equal. lia. }
  rewrite EP.
  pose proof (Z.pow_pos_nonneg 2 k1 ltac:(lia) ltac:(lia)) as P1.
  pose proof (Z.pow_pos_nonneg 2 k2 ltac:(lia) ltac:(lia)) as P2.
  pose proof (Z.pow_pos_nonneg 2 s ltac:(lia) ltac:(lia)) as P3.
  pose proof (Z.pow_pos_nonneg 2 (254 - s) ltac:(lia) ltac:(lia)) as P4.
  set (p := 2 ^ k1) in *. set (q := 2 ^ k2) in *. set (S := 2 ^ s) in *.
  set (X := 2 ^ (254 - s)) in *.
  assert (N1 : 2 ^ 52 * q <= Zpos m2 * q) by nia.
  assert (N2 : 2 ^ 52 * (Zpos pt * p) <= Zpos m1 * p * Zpos pt) by nia.
  split.
  - replace (Zpos m2 * (q * p * X) * Zpos pt * ((2 ^ 53 - 1) * (2 ^ 53 - 1)))
      with (Zpos m2 * q * p * X * Zpos pt * ((2 ^ 53 - 1) * (2 ^ 53 - 1)))
      by ring.
    apply (chain_upper (Zpos m2 * q) (Zpos m1) p X (Zpos pt) (Zpos pa)
             (Zpos hundred) (2 ^ 53 - 1) (2 ^ 53) S); try lia.
  - replace (Zpos m2 * (q * p * X) * Zpos pt * ((2 ^ 53 + 1) * (2 ^ 53 + 1)))
      with (Zpos m2 * q * p * X * Zpos pt * ((2 ^ 53 + 1) * (2 ^ 53 + 1)))
      by ring.
    apply (chain_lower (Zpos m2 * q) (Zpos m1) p X (Zpos pt) (Zpos pa)
             (Zpos hundred) (2 ^ 53 + 1) (2 ^ 53) S); try lia.
Qed.

(** Normal floats compare as their values. *)
Lemma normal_compare_value (m1 m2 : positive) (e1 e2 : Z) :
  2 ^ 52 <= Zpos m1 < 2 ^ 53 -> 2 ^ 52 <= Zpos m2 < 2 ^ 53 ->
  - 300 <= e1 -> - 300 <= e2 ->
  float_ltb (S754_finite false m1 e1) (S754_finite false m2 e2)
  = (Zpos m1 * 2 ^ (e1 + 300) <? Zpos m2 * 2 ^ (e2 + 300))
  /\ float_eqb (S754_finite false m1 e1) (S754_finite false m2 e2)
     = (Zpos m1 * 2 ^ (e1 + 300) =? Zpos m2 * 2 ^ (e2 + 300)).
Proof.
  intros B1 B2 H1 H2.
  pose proof (Z.pow_pos_nonneg 2 (e1 + 300) ltac:(lia) ltac:(lia)) as P1.
  pose proof (Z.pow_pos_nonneg 2 (e2 + 300) ltac:(lia) ltac:(lia)) as P2.
  unfold float_ltb, float_eqb, SFltb, SFeqb, SFcompare.
  rewrite Pos.compare_cont_spec.
  destruct (Z.compare_spec e1 e2) as [E|E|E].
  - subst e2. set (P := 2 ^ (e1 + 300)) in *.
    destruct (Pos.compare_spec m1 m2) as [F|F|F]; cbn [Pos.switch_Eq]; split;
      symmetry; zbool; nia.
  - assert (L : 2 * 2 ^ (e1 + 300) <= 2 ^ (e2 + 300)).
    { replace (2 * 2 ^ (e1 + 300)) with (2 ^ (e1 + 300 + 1))
        by (rewrite Z.pow_add_r by lia; lia).
      apply Z.pow_le_mono_r; lia. }
    set (Q1 := 2 ^ (e1 + 300)) in *. set (Q2 := 2 ^ (e2 + 300)) in *.
    assert (Zpos m1 * Q1 < Zpos m2 * Q2) by nia.
    split; symmetry; zbool.
  - assert (L : 2 * 2 ^ (e2 + 300) <= 2 ^ (e1 + 300)).
    { replace (2 * 2 ^ (e2 + 300)) with (2 ^ (e2 + 300 + 1))
        by (rewrite Z.pow_add_r by lia; lia).
      apply Z.pow_le_mono_r; lia. }
    set (Q1 := 2 ^ (e1 + 300)) in *. set (Q2 := 2 ^ (e2 + 300)) in *.
    assert (Zpos m2 * Q2 < Zpos m1 * Q1) by nia.
    split; symmetry; zbool.
Qed.

(** Different counts have different percentages, in the same order. *)
Lemma percentage_increasing (a b t m1 m2 f1 f2 : Z) :
  0 < a -> a < b -> a < 2 ^ 50 -> 0 <= t ->
  m1 * f1 * t * ((2 ^ 53 - 1) * (2 ^ 53 - 1))
    <= a * Zpos hundred * (2 ^ 53 * 2 ^ 53) * 2 ^ 254 ->
  b * Zpos hundred * (2 ^ 53 * 2 ^ 53) * 2 ^ 254
    <= m2 * f2 * t * ((2 ^ 53 + 1) * (2 ^ 53 + 1)) ->
  m1 * f1 < m2 * f2.
Proof.
  intros Ha Hab Hlt Ht U L.
  destruct (Z.lt_ge_cases (m1 * f1) (m2 * f2)) as [G|G]; [exact G|]. exfalso.
  assert (T : m2 * f2 * t <= m1 * f1 * t)
    by (apply Z.mul_le_mono_nonneg_r; assumption).
  unfold hundred in *.
  set (Ta := m1 * f1 * t) in *. set (Tb := m2 * f2 * t) in *. lia.
Qed.

(** Tables of fewer than [2 ^ 50] rows have faithful percentages. *)
Lemma percent_faithful_small (total : Z) :
  total < 2 ^ 50 -> percent_faithful total.
Proof.
  intros Ht a b Ha Hb.
  destruct (percentage_value a total Ha Ht) as (ma & fa & Ea & Ba & Fa & Ua & La).
  destruct (percentage_value b total Hb Ht) as (mb & fb & Eb & Bb & Fb & Ub & Lb).
  destruct (normal_compare_value ma mb fa fb Ba Bb Fa Fb) as [C1 C2].
  destruct (Z.lt_trichotomy a b) as [H|[H|H]].
  - rewrite Ea, Eb, C1, C2.
    pose proof (percentage_increasing a b total _ _ _ _
                  ltac:(lia) H ltac:(lia) ltac:(lia) Ua Lb).
    split; zbool.
  - subst b. rewrite Ea in Eb. injection Eb as <- <-.
    rewrite Ea, C1, C2. split; zbool.
  - rewrite Ea, Eb, C1, C2.
    pose proof (percentage_increasing b a total _ _ _ _
                  ltac:(lia) H ltac:(lia) ltac:(lia) Ub La).
    split; zbool.
Qed.

(** Beyond that size the percentages can merge: in a table of [2 ^ 54] rows
    the counts [2 ^ 54 - 1] and [2 ^ 54] both have the percentage 100.0. *)
Remark percent_unfaithful_large : ~ percent_faithful (2 ^ 54).
Proof.
  intros H. destruct (H (2 ^ 54 - 1) (2 ^ 54)) as [_ E]; [lia | lia |].
  vm_compute in E. discriminate E.
Qed.

End Rounding.

(** ** The order of strings and of table entries *)

Lemma str_ltb_irrefl (a : str) : str_ltb a a = false.
Proof.
  induction a as [|x a IH]; simpl; [reflexivity|].
  rewrite N.ltb_irrefl. exact IH.
Qed.

Lemma str_ltb_trans (a b c : str) :
  str_ltb a b = true -> str_ltb b c = true -> str_ltb a c = true.
Proof.
  revert b c. induction a as [|x a IH]; intros [|y b] [|z c]; simpl;
    try discriminate; try reflexivity.
  destruct (N.ltb_spec x y), (N.ltb_spec y x), (N.ltb_spec y z),
    (N.ltb_spec z y), (N.ltb_spec x z), (N.ltb_spec z x);
    try discriminate; try reflexivity; try lia.
  apply IH.
Qed.

Lemma str_ltb_total (a b : str) :
  str_ltb a b = false -> str_ltb b a = false -> a = b.
Proof.
  revert b. induction a as [|x a IH]; intros [|y b]; simpl;
    try discriminate; try reflexivity.
  destruct (N.ltb_spec x y), (N.ltb_spec y x); try discriminate; try lia.
  intros H1 H2. f_equal; [lia | apply IH; assumption].
Qed.

Lemma str_ltb_asym (a b : str) : str_ltb a b = true -> str_ltb b a = false.
Proof.
  intros H. destruct (str_ltb b a) eqn:E; [|reflexivity].
  rewrite <- (str_ltb_irrefl a). symmetry. apply (str_ltb_trans a b a); assumption.
Qed.

Lemma entry_ltb_asym (a b : str * Z) :
  entry_ltb a b = true -> entry_ltb b a = false.
Proof.
  unfold entry_ltb. rewrite (Z.eqb_sym (snd b) (snd a)).
  destruct (Z.eqb_spec (snd a) (snd b)).
  - apply str_ltb_asym.
  - intros H. apply Z.ltb_lt in H. apply Z.ltb_ge. lia.
Qed.

Lemma entry_ltb_trans (a b c : str * Z) :
  entry_ltb a b = true -> entry_ltb b c = true -> entry_ltb a c = true.
Proof.
  unfold entry_ltb.
  destruct (Z.eqb_spec (snd a) (snd b)), (Z.eqb_spec (snd b) (snd c)),
    (Z.eqb_spec (snd a) (snd c)); try lia;
    rewrite ?Z.ltb_lt; try lia.
  apply str_ltb_trans.
Qed.

(** Of two different entries that are not in ascending order, the first
    comes first in the display. *)
Lemma entry_not_ltb (a b : str * Z) :
  entry_ltb a b = false -> fst a <> fst b -> displayed_before a b.
Proof.
  unfold entry_ltb, displayed_before.
  destruct (Z.eqb_spec (snd a) (snd b)) as [E|E]; intros L N.
  - right. split; [exact E|].
    destruct (str_ltb (fst b) (fst a)) eqn:G; [reflexivity|].
    exfalso. apply N. apply str_ltb_total; assumption.
  - left. apply Z.ltb_ge in L. lia.
Qed.

(** ** [display_table] *)

(** The loop of [display_table] lists the table as tuples [(value, key)]. *)
Lemma display_entries (V : Type) (t2 t1 : dict V) :
  NoDup (dict_keys (t1 ++ t2)) ->
  for_each (dict_keys t2)
    (fun key acc => v <- dict_get (t1 ++ t2) key ;; Ok (acc ++ [(v, key)]))
    (map (fun e => (snd e, fst e)) t1)
  = Ok (map (fun e => (snd e, fst e)) (t1 ++ t2)).
Proof.
  revert t1. induction t2 as [|[k v] t2 IH]; intros t1 N.
  - simpl. rewrite app_nil_r. reflexivity.
  - assert (K : ~ In k (dict_keys t1)).
    { unfold dict_keys in *. rewrite map_app in N. simpl in N.
      apply NoDup_remove_2 in N. intros H. apply N.
      apply in_or_app. left. exact H. }
    cbn [dict_keys map fst for_each].
    rewrite dict_get_app, (dict_mem_false_keys _ t1 k K).
    cbn [dict_get]. rewrite str_eqb_refl. cbn [bind].
    replace (t1 ++ (k, v) :: t2) with ((t1 ++ [(k, v)]) ++ t2) in *
      by (rewrite <- app_assoc; reflexivity).
    rewrite <- (IH (t1 ++ [(k, v)]) N). rewrite map_app. reflexivity.
Qed.

(** The entries of the table of counts of a column. *)
Lemma tally_entries (l : list str) (k : str) (c : Z) :
  In (k, c) (tally l []) <-> In k l /\ c = occurrences k l.
Proof.
  assert (N : NoDup (dict_keys (tally l []))) by (apply tally_keys_nodup; constructor).
  assert (G : forall t : dict Z, NoDup (dict_keys t) ->
            forall k c, In (k, c) t <-> dict_get t k = Ok c).
  { clear. induction t as [|[k' c'] t IH]; intros N k c; simpl.
    - split; [contradiction | discriminate].
    - inversion N as [|? ? Nk Nt]; subst.
      destruct (str_eqb k k') eqn:E.
      + apply str_eqb_eq in E. subst k'. split.
        * intros [[= ->]|H]; [reflexivity|].
          exfalso. apply Nk. apply (in_map fst) in H. exact H.
        * intros [= ->]. left. reflexivity.
      + rewrite <- (IH Nt). apply str_eqb_neq in E. split.
        * intros [[= -> ->]|H]; [contradiction | exact H].
        * intros H. right. exact H. }
  rewrite (G _ N). pose proof (tally_count l [] k) as C.
  unfold count_of in C. simpl in C. split.
  - intros H. rewrite H in C. split; [|exact C].
    apply tally_keys_column. apply dict_mem_keys.
    apply (dict_get_mem _ _ _ _ H).
  - intros [H ->]. apply tally_keys_column in H. apply dict_mem_keys in H.
    apply dict_mem_get in H. destruct H as [n H]. rewrite H in C.
    rewrite H. congruence.
Qed.

Lemma occurrences_bounds (k : str) (l : list str) :
  In k l -> (0 < occurrences k l <= Z.of_nat (length l))%Z.
Proof.
  intros H. unfold occurrences. split.
  - assert (I : In k (filter (str_eqb k) l)).
    { apply filter_In. split; [exact H | apply str_eqb_refl]. }
    destruct (filter (str_eqb k) l); [contradiction | simpl; lia].
  - apply inj_le. apply filter_length_le.
Qed.

Lemma display_table_result (d : dataset) (index : Z) :
  (forall r, In r d -> has_field r index) ->
  percent_faithful (Z.of_nat (length d)) ->
  display_table d index
  = Ok (map (percent_entry (Z.of_nat (length d)))
          (sorted_reverse entry_ltb (tally (column d index) []))).
Proof.
  intros H PF. unfold display_table. rewrite (freq_table_ok d index H).
  cbn [bind].
  set (total := Z.of_nat (length d)) in *.
  set (table := tally (column d index) []).
  assert (N : NoDup (dict_keys (map (percent_entry total) table))).
  { unfold total, table. rewrite freq_table_keys.
    apply tally_keys_nodup. constructor. }
  pose proof (display_entries pyfloat (map (percent_entry total) table) [] N)
    as E.
  cbn [app map] in E. rewrite E. cbn [bind].
  assert (M : map (fun e : str * pyfloat => (snd e, fst e))
                (map (percent_entry total) table)
              = map (fun e : str * Z => (percentage (snd e) total, fst e)) table)
    by (rewrite map_map; reflexivity).
  rewrite M.
  rewrite (sorted_reverse_map _ _ entry_ltb tuple_ltb
             (fun e => (percentage (snd e) total, fst e)) table).
  - rewrite map_map. reflexivity.
  - intros [ka ca] [kb cb] Ha Hb. unfold table in Ha, Hb.
    apply tally_entries in Ha, Hb. destruct Ha as [Ia ->], Hb as [Ib ->].
    assert (L : length (column d index) = length d)
      by (unfold column; apply length_map).
    pose proof (occurrences_bounds ka _ Ia) as Ba.
    pose proof (occurrences_bounds kb _ Ib) as Bb.
    rewrite L in Ba, Bb. destruct (PF _ _ Ba Bb) as [Plt Peq].
    unfold tuple_ltb, entry_ltb. cbn [fst snd]. fold total.
    rewrite Plt, Peq. reflexivity.
Qed.

Lemma display_table_ranked (d : dataset) (index : Z) :
  (forall r, In r d -> has_field r index) ->
  percent_faithful (Z.of_nat (length d)) ->
  exists ranked : list (str * Z),
    display_table d index
    = Ok (map (percent_entry (Z.of_nat (length d))) ranked)
    /\ NoDup (map fst ranked)
    /\ (forall k c, In (k, c) ranked <->
          In k (column d index) /\ c = occurrences k (column d index))
    /\ StronglySorted displayed_before ranked.
Proof.
  intros H PF.
  exists (sorted_reverse entry_ltb (tally (column d index) [])).
  pose proof (sorted_reverse_perm _ entry_ltb (tally (column d index) [])) as P.
  assert (N : NoDup (map fst (sorted_reverse entry_ltb
                                (tally (column d index) [])))).
  { apply (Permutation_NoDup (Permutation_map fst P)).
    apply (tally_keys_nodup (column d index) []). constructor. }
  split; [apply display_table_result; assumption|].
  split; [exact N|]. split.
  - intros k c. rewrite <- tally_entries. split; intros I.
    + apply (Permutation_in _ (Permutation_sym P)). exact I.
    + apply (Permutation_in _ P). exact I.
  - apply (strongly_sorted_weaken _
             (fun a b => entry_ltb a b = false /\ fst a <> fst b)
             displayed_before).
    + intros a b [L D]. apply entry_not_ltb; assumption.
    + apply strongly_sorted_distinct; [|exact N].
      apply sorted_reverse_descending.
      * exact entry_ltb_asym.
      * exact entry_ltb_trans.
Qed.

(** C8. For a dataset of fewer than [2 ^ 50] rows that all have the field,
    [display_table] prints one line for each distinct value of the column,
    with its percentage, the lines in descending order of the number of
    rows with that value and, among values with the same number of rows, in
    descending order of the value as a string.  (Below [2 ^ 50] rows the
    binary64 percentages by which the lines are sorted distinguish the
    counts.) *)
Theorem display_table_sorted (d : dataset) (index : Z) :
  (forall r, In r d -> has_field r index) ->
  (Z.of_nat (length d) < 2 ^ 50)%Z ->
  exists ranked : list (str * Z),
    display_table d index
    = Ok (map (percent_entry (Z.of_nat (length d))) ranked)
    /\ NoDup (map fst ranked)
    /\ (forall k c, In (k, c) ranked <->
          In k (column d index) /\ c = occurrences k (column d index))
    /\ StronglySorted displayed_before ranked.
Proof.
  intros H B. apply display_table_ranked; [exact H|].
  apply percent_faithful_small. exact B.
Qed.

Lemma google_example_category (r : row) :
  In r google_example -> has_field r 1.
Proof. intros [<-|[<-|[<-|[]]]]; eexists; reflexivity. Qed.

Lemma display_table_sorted_witness :
  (forall r, In r google_example -> has_field r 1)
  /\ (Z.of_nat (length google_example) < 2 ^ 50)%Z
  /\ exists ranked : list (str * Z),
       display_table google_example 1
       = Ok (map (percent_entry (Z.of_nat (length google_example))) ranked)
       /\ NoDup (map fst ranked)
       /\ (forall k c, In (k, c) ranked <->
             In k (column google_example 1)
             /\ c = occurrences k (column google_example 1))
       /\ StronglySorted displayed_before ranked.
Proof.
  split; [exact google_example_category|].
  split; [reflexivity|].
  apply (display_table_sorted google_example 1).
  - exact google_example_category.
  - reflexivity.
Defined.

(** Two rows of TOOLS and one of GAME: TOOLS is printed first.  With one
    row each, the names decide: TOOLS is printed before GAME. *)
Example display_scenario :
  display_table google_example 1
  = Ok [(utf8 "TOOLS", percentage 2 3); (utf8 "GAME", percentage 1 3)]
  /\ display_table
       [google_row "B" "GAME" "9" "1,000+" "0";
        google_row "A" "TOOLS" "5" "10,000+" "0"] 1
     = Ok [(utf8 "TOOLS", percentage 1 2); (utf8 "GAME", percentage 1 2)].
Proof. split; vm_compute; reflexivity. Qed.

(* ================================================================== *)
(** * Further properties of the script *)
(* ================================================================== *)

(** ** Loops that succeed *)

(** A property of the loop state that every successful run of the body
    keeps holds after a successful loop. *)
Lemma for_each_invariant (A S : Type) (body : A -> S -> result S)
    (P : S -> Prop) (l : list A) (s s' : S) :
  (forall x t t', In x l -> P t -> body x t = Ok t' -> P t') ->
  P s -> for_each l body s = Ok s' -> P s'.
Proof.
  revert s. induction l as [|x l IH]; intros s H Ps E; simpl in E.
  - injection E as <-. exact Ps.
  - destruct (body x s) as [t|e] eqn:B; [|discriminate]. cbn [bind] in E.
    apply (IH t).
    + intros y u u' Hy. apply H. right. exact Hy.
    + apply (H x s t); [left; reflexivity | exact Ps | exact B].
    + exact E.
Qed.

(** In a successful loop the body succeeded on every element. *)
Lemma for_each_ok_each (A S : Type) (body : A -> S -> result S)
    (l : list A) (s s' : S) (x : A) :
  for_each l body s = Ok s' -> In x l -> exists t t', body x t = Ok t'.
Proof.
  revert s. induction l as [|y l IH]; intros s E Hx; [contradiction|].
  simpl in E. destruct (body y s) as [t|e] eqn:B; [|discriminate].
  cbn [bind] in E. destruct Hx as [->|Hx]; [eauto|].
  apply (IH t); assumption.
Qed.

(** The first element on which the body fails decides the outcome. *)
Lemma for_each_first_failure (A S : Type) (body : A -> S -> result S)
    (f : S -> A -> S) (e : exn) (pre post : list A) (x : A) (s : S) :
  (forall y, In y pre -> forall t, body y t = Ok (f t y)) ->
  (forall t, body x t = Raise e) ->
  for_each (pre ++ x :: post) body s = Raise e.
Proof.
  intros Hpre Hx. rewrite for_each_app.
  rewrite (for_each_good _ _ body f (fun _ => true) e pre s).
  - replace (forallb (fun _ => true) pre) with true
      by (symmetry; apply forallb_forall; reflexivity).
    cbn [bind for_each]. rewrite Hx. reflexivity.
  - intros y Hy _ t. apply Hpre. exact Hy.
  - intros y Hy D. discriminate D.
Qed.

(** ** [delwrongdata]: the report *)

Lemma wrong_indices_spec (ref_len : nat) (d : dataset) (k i : nat) :
  In i (wrong_indices_from ref_len k d)
  <-> exists r, k <= i /\ nth_error d (i - k) = Some r /\ length r <> ref_len.
Proof.
  revert k. induction d as [|r d IH]; intros k; simpl.
  - split; [contradiction|]. intros (x & _ & E & _).
    destruct (i - k); discriminate E.
  - assert (S1 : forall x, (exists r0, S k <= i /\ nth_error d (i - S k) = Some r0
                             /\ length r0 <> x)
                 <-> (exists r0, k < i /\ nth_error (r :: d) (i - k) = Some r0
                             /\ length r0 <> x)).
    { intros x. split; intros (r0 & L & E & N); exists r0.
      - split; [lia|]. split; [|exact N].
        replace (i - k) with (S (i - S k)) by lia. exact E.
      - split; [lia|]. split; [|exact N].
        replace (i - k) with (S (i - S k)) in E by lia. exact E. }
    destruct (Nat.eqb_spec (length r) ref_len) as [E|E].
    + rewrite IH, S1. split; intros (r0 & L & G & N); exists r0.
      * split; [lia|]. split; assumption.
      * destruct (Nat.eq_dec i k) as [->|D].
        -- rewrite Nat.sub_diag in G. simpl in G. injection G as <-.
           contradiction.
        -- split; [lia|]. split; assumption.
    + simpl. rewrite IH, S1. split.
      * intros [<-|(r0 & L & G & N)].
        -- exists r. rewrite Nat.sub_diag. simpl. auto.
        -- exists r0. split; [lia|]. split; assumption.
      * intros (r0 & L & G & N). destruct (Nat.eq_dec i k) as [->|D].
        -- left. reflexivity.
        -- right. exists r0. split; [lia|]. split; assumption.
Qed.

Lemma wrong_indices_ascending (ref_len : nat) (d : dataset) (k : nat) :
  StronglySorted lt (wrong_indices_from ref_len k d).
Proof.
  revert k. induction d as [|r d IH]; intros k; simpl; [constructor|].
  destruct (Nat.eqb (length r) ref_len); [apply IH|].
  constructor; [apply IH|]. apply Forall_forall. intros i Hi.
  apply wrong_indices_spec in Hi. destruct Hi as (_ & L & _). lia.
Qed.

Lemma wrong_indices_count (ref_len : nat) (d : dataset) (k : nat) :
  length (conforming ref_len d) + length (wrong_indices_from ref_len k d)
  = length d.
Proof.
  revert k. induction d as [|r d IH]; intros k; simpl; [reflexivity|].
  destruct (Nat.eqb (length r) ref_len); simpl; rewrite <- (IH (S k)); lia.
Qed.

(** X1. The indices that [delwrongdata] prints are exactly the positions,
    in the dataset as given, of the rows it removes, in ascending order;
    the rows kept and the indices printed add up to the rows given. *)
Theorem delwrongdata_report (first : row) (rest : dataset) :
  exists printed out,
    delwrongdata (first :: rest) = Ok (printed, out)
    /\ (forall i, In i printed <->
          exists r, row_at (first :: rest) i = Some r
                    /\ length r <> length first)
    /\ StronglySorted lt printed
    /\ length out + length printed = length (first :: rest).
Proof.
  eexists. eexists. split; [apply delwrongdata_cons|]. split; [|split].
  - intros i. rewrite wrong_indices_spec. unfold row_at.
    rewrite Nat.sub_0_r. split.
    + intros (r & _ & E & N). eauto.
    + intros (r & E & N). exists r. split; [lia|]. auto.
  - apply wrong_indices_ascending.
  - apply wrong_indices_count.
Qed.

(** X2. [delwrongdata] never removes the first row, whatever its length:
    the result begins with it and is never empty.  It is the first row
    alone exactly when every other row has another length, as when the
    first row is itself the malformed one. *)
Theorem delwrongdata_keeps_first (first : row) (rest : dataset) :
  exists printed out,
    delwrongdata (first :: rest) = Ok (printed, out)
    /\ out = first :: filter (fun r => Nat.eqb (length r) (length first)) rest
    /\ ~ In 0 printed
    /\ (out = [first] <-> forall r, In r rest -> length r <> length first).
Proof.
  eexists. eexists. split; [apply delwrongdata_cons|].
  split; [apply conforming_cons_first|]. split.
  - intros H. apply wrong_indices_spec in H.
    destruct H as (r & _ & E & N). simpl in E. injection E as <-.
    apply N. reflexivity.
  - rewrite conforming_cons_first. split.
    + intros [= E] r Hr L.
      assert (I : In r (conforming (length first) rest)).
      { apply filter_In. split; [exact Hr | apply Nat.eqb_eq; exact L]. }
      rewrite E in I. contradiction.
    + intros H. f_equal.
      induction rest as [|r rest IH]; simpl; [reflexivity|].
      destruct (Nat.eqb_spec (length r) (length first)) as [E|E].
      * exfalso. apply (H r); [left; reflexivity | exact E].
      * apply IH. intros x Hx. apply H. right. exact Hx.
Qed.

(** ** Slices, [separatefromheader], [explore_data] *)

Lemma slice_in_range (A : Type) (l : list A) (start stop : Z) :
  (0 <= start <= stop)%Z -> (stop <= Z.of_nat (length l))%Z ->
  slice l start stop
  = firstn (Z.to_nat stop - Z.to_nat start) (skipn (Z.to_nat start) l).
Proof.
  intros H1 H2. unfold slice, clamp_index.
  destruct (Z.ltb_spec start 0); [lia|]. destruct (Z.ltb_spec stop 0); [lia|].
  rewrite !Z.min_l by lia. f_equal. lia.
Qed.

Lemma slice_tail (A : Type) (x : A) (l : list A) :
  slice (x :: l) 1 (Z.of_nat (length (x :: l))) = l.
Proof.
  rewrite slice_in_range by (simpl length; lia).
  rewrite Nat2Z.id. simpl. rewrite Nat.sub_0_r. apply firstn_all.
Qed.

Lemma slice_nil (A : Type) (start stop : Z) : slice (@nil A) start stop = [].
Proof. unfold slice. rewrite skipn_nil. apply firstn_nil. Qed.

(** A slice is a run of consecutive elements, whatever the indices. *)
Lemma slice_contiguous (A : Type) (l : list A) (start stop : Z) :
  exists pre post, l = pre ++ slice l start stop ++ post.
Proof.
  unfold slice.
  set (lo := Z.to_nat (clamp_index (Z.of_nat (length l)) start)).
  set (k := Z.to_nat (_ - _)).
  exists (firstn lo l), (skipn k (skipn lo l)).
  rewrite firstn_skipn. symmetry. apply firstn_skipn.
Qed.

(** X3. [separatefromheader] fails, with [IndexError], exactly on the empty
    dataset; otherwise it splits off the first row: putting the header back
    in front of the data gives the dataset again.  The argument [hdataset]
    has no influence. *)
Theorem separatefromheader_split (d : dataset) (hdataset : option row) :
  (separatefromheader d hdataset = Raise IndexError <-> d = [])
  /\ (forall data header,
        separatefromheader d hdataset = Ok (data, header)
        <-> d = header :: data)
  /\ separatefromheader d hdataset = separatefromheader d None.
Proof.
  unfold separatefromheader. destruct d as [|h rest].
  - split; [split; reflexivity|]. split; [|reflexivity].
    intros data header. split; discriminate.
  - change (getitem (h :: rest) 0) with (Ok (A:=row) h). cbn [bind].
    rewrite slice_tail. split; [split; discriminate|]. split; [|reflexivity].
    intros data header. split.
    + intros [= <- <-]. reflexivity.
    + intros [= <- <-]. reflexivity.
Qed.

(** X4. [explore_data] fails only when asked for the shape of an empty
    dataset: the column count reads the first row.  By then it has printed
    the row count 0, and nothing else.  In every other case it ends
    normally. *)
Theorem explore_data_failure (d : dataset) (start stop : Z) (flag : bool) :
  (snd (explore_data d start stop flag) = Raise IndexError
   <-> flag = true /\ d = [])
  /\ (snd (explore_data d start stop flag) = Ok tt
      <-> flag = false \/ d <> [])
  /\ fst (explore_data [] start stop true) = [RowCount 0].
Proof.
  split; [|split].
  - unfold explore_data. destruct flag; [|split; [discriminate | intros [H _]; discriminate]].
    destruct d as [|r d].
    + split; auto.
    + change (getitem (r :: d) 0) with (Ok (A:=row) r). cbn [snd].
      split; [discriminate | intros [_ H]; discriminate].
  - unfold explore_data. destruct flag; [|split; auto].
    destruct d as [|r d].
    + cbn [getitem length Z.of_nat Z.ltb Z.compare Z.to_nat nth_error snd].
      split; [discriminate | intros [H|H]; [discriminate | contradiction]].
    + change (getitem (r :: d) 0) with (Ok (A:=row) r). cbn [snd].
      split; [right; discriminate | reflexivity].
  - unfold explore_data. rewrite slice_nil. reflexivity.
Qed.

Lemma nth_error_row_lines (l : dataset) (k : nat) :
  nth_error (flat_map (fun r => [RowLine r; BlankLine]) l) (2 * k)
  = option_map RowLine (nth_error l k)
  /\ nth_error (flat_map (fun r => [RowLine r; BlankLine]) l) (2 * k + 1)
     = option_map (fun _ => BlankLine) (nth_error l k).
Proof.
  revert k. induction l as [|r l IH]; intros k.
  - simpl. destruct (2 * k), (2 * k + 1), k; simpl; split; reflexivity.
  - destruct k as [|k].
    + split; reflexivity.
    + replace (2 * S k) with (S (S (2 * k))) by lia.
      replace (S (S (2 * k)) + 1) with (S (S (2 * k + 1))) by lia.
      simpl flat_map. cbn [app nth_error]. apply IH.
Qed.

(** X5. For indices [0 <= start <= stop <= len(dataset)], [explore_data]
    without the shape prints [2 * (stop - start)] lines: the rows from
    position [start] up to, not including, position [stop], in order, each
    followed by a blank line.  Whatever the indices, the rows it prints are
    a run of consecutive rows of the dataset. *)
Theorem explore_data_rows (d : dataset) (start stop : nat) :
  start <= stop -> stop <= length d ->
  length (fst (explore_data d (Z.of_nat start) (Z.of_nat stop) false))
  = 2 * (stop - start)
  /\ (forall k, k < stop - start ->
        exists r, row_at d (start + k) = Some r
          /\ nth_error (fst (explore_data d (Z.of_nat start) (Z.of_nat stop)
                               false)) (2 * k) = Some (RowLine r)
          /\ nth_error (fst (explore_data d (Z.of_nat start) (Z.of_nat stop)
                               false)) (2 * k + 1) = Some BlankLine)
  /\ (forall (a b : Z), exists pre post,
        d = pre ++ slice d a b ++ post
        /\ fst (explore_data d a b false)
           = flat_map (fun r => [RowLine r; BlankLine]) (slice d a b)).
Proof.
  intros H1 H2. unfold explore_data. cbn [fst].
  rewrite slice_in_range by lia. rewrite !Nat2Z.id.
  assert (L : length (firstn (stop - start) (skipn start d)) = stop - start).
  { rewrite length_firstn, length_skipn. lia. }
  split; [|split].
  - rewrite (flat_map_constant_length (c := 2)); [rewrite L; lia|].
    intros; reflexivity.
  - intros k Hk.
    assert (N : nth_error (firstn (stop - start) (skipn start d)) k
                = nth_error d (start + k)).
    { rewrite nth_error_firstn.
      destruct (Nat.ltb_spec k (stop - start)); [|lia].
      apply nth_error_skipn. }
    destruct (nth_error d (start + k)) as [r|] eqn:E.
    + exists r. split; [exact E|].
      destruct (nth_error_row_lines (firstn (stop - start) (skipn start d)) k)
        as [N1 N2].
      rewrite N1, N2, N. split; reflexivity.
    + exfalso. apply nth_error_None in E. lia.
  - intros a b. destruct (slice_contiguous _ d a b) as (pre & post & E).
    exists pre, post. split; [exact E | reflexivity].
Qed.

Lemma explore_data_rows_witness :
  1 <= 2 /\ 2 <= length google_example
  /\ length (fst (explore_data google_example (Z.of_nat 1) (Z.of_nat 2) false))
     = 2 * (2 - 1)
  /\ (forall k, k < 2 - 1 ->
        exists r, row_at google_example (1 + k) = Some r
          /\ nth_error (fst (explore_data google_example (Z.of_nat 1)
                               (Z.of_nat 2) false)) (2 * k) = Some (RowLine r)
          /\ nth_error (fst (explore_data google_example (Z.of_nat 1)
                               (Z.of_nat 2) false)) (2 * k + 1)
             = Some BlankLine)
  /\ (forall (a b : Z), exists pre post,
        google_example = pre ++ slice google_example a b ++ post
        /\ fst (explore_data google_example a b false)
           = flat_map (fun r => [RowLine r; BlankLine])
               (slice google_example a b)).
Proof.
  split; [lia|]. split; [simpl; lia|].
  apply (explore_data_rows google_example 1 2); simpl; lia.
Defined.

(** ** [load_and_clean_datasets] *)

(** X6. Where both files can be read, [load_and_clean_datasets] fails, with
    [IndexError], exactly when the App Store file has no row or the Google
    Play file has no row besides its header.  Otherwise it returns the
    headers, the App Store rows unchecked, and the Google Play rows that
    have as many fields as the first of them. *)
Theorem load_and_clean_datasets_result (opencsv : str -> result dataset)
    (apple_path google_path : str) (apple_raw google_raw : dataset) :
  opencsv apple_path = Ok apple_raw ->
  opencsv google_path = Ok google_raw ->
  (load_and_clean_datasets opencsv apple_path google_path = Raise IndexError
   <-> apple_raw = [] \/ length google_raw < 2)
  /\ (forall header_apple apple_data header_google first rest,
        apple_raw = header_apple :: apple_data ->
        google_raw = header_google :: first :: rest ->
        load_and_clean_datasets opencsv apple_path google_path
        = Ok (wrong_indices_from (length first) 0 (first :: rest),
              (apple_data,
               first :: filter (fun r => Nat.eqb (length r) (length first)) rest,
               header_apple, header_google))).
Proof.
  intros Ea Eg. unfold load_and_clean_datasets. rewrite Ea, Eg. cbn [bind].
  unfold separatefromheader.
  destruct google_raw as [|hg [|first rest]].
  - split; [split; [intros _; right; simpl; lia | reflexivity]|].
    intros; discriminate.
  - change (getitem [hg] 0) with (Ok (A:=row) hg). cbn [bind].
    rewrite slice_tail. split; [|intros; discriminate].
    split; [intros _; right; simpl; lia|]. intros _.
    destruct apple_raw as [|ha adata]; [reflexivity|].
    change (getitem (ha :: adata) 0) with (Ok (A:=row) ha). reflexivity.
  - change (getitem (hg :: first :: rest) 0) with (Ok (A:=row) hg).
    cbn [bind]. rewrite slice_tail.
    destruct apple_raw as [|ha adata].
    + split; [split; [auto | reflexivity]|]. intros; discriminate.
    + change (getitem (ha :: adata) 0) with (Ok (A:=row) ha). cbn [bind].
      rewrite slice_tail, delwrongdata_cons, conforming_cons_first. cbn [bind].
      split.
      * split; [discriminate|]. intros [H|H]; [discriminate | simpl in H; lia].
      * intros ? ? ? ? ? [= <- <-] [= <- <- <-]. reflexivity.
Qed.

Lemma load_and_clean_datasets_result_witness :
  example_files (utf8 "data/AppleStore.csv")
  = Ok (apple_row "track_name" "price" "rating_count_tot" "prime_genre"
          :: apple_example)
  /\ example_files (utf8 "data/googleplaystore.csv")
     = Ok (google_row "App" "Category" "Reviews" "Installs" "Price"
             :: google_example
             ++ [[utf8 "Life Made WI-Fi"; utf8 "1.9"; utf8 "19"; utf8 "3.0M";
                  utf8 "1,000+"; utf8 "Free"; utf8 "0"]])
  /\ load_and_clean_datasets example_files (utf8 "data/AppleStore.csv")
       (utf8 "data/googleplaystore.csv")
     = Ok ([3], (apple_example, google_example,
                 apple_row "track_name" "price" "rating_count_tot" "prime_genre",
                 google_row "App" "Category" "Reviews" "Installs" "Price")).
Proof.
  split; [reflexivity|]. split; [reflexivity|].
  destruct (load_and_clean_datasets_result example_files
              (utf8 "data/AppleStore.csv") (utf8 "data/googleplaystore.csv")
              _ _ eq_refl eq_refl) as [_ H].
  rewrite (H _ _ _ _ _ eq_refl eq_refl). reflexivity.
Defined.

(** ** [finduplicate] *)

Lemma has_name_nonempty (r : row) : has_field r 0 <-> r <> [].
Proof.
  rewrite has_field_nonneg by lia. destruct r; simpl; split; intros H;
    try lia; congruence.
Qed.

Lemma finduplicate_loop (d : dataset) (st : list str * list str) :
  (forall r, In r d -> has_field r 0) ->
  for_each d
    (fun app st =>
       let '(unique_app, duplicate_app) := st in
       appname <- getitem app 0 ;;
       if list_mem appname unique_app
       then Ok (unique_app, duplicate_app ++ [appname])
       else Ok (unique_app ++ [appname], duplicate_app)) st
  = Ok (fold_left finduplicate_step (map name d) st).
Proof.
  revert st. induction d as [|r d IH]; intros [u dp] H; simpl; [reflexivity|].
  rewrite (getitem_field r 0) by (apply H; left; reflexivity). cbn [bind].
  unfold finduplicate_step at 2. cbn [fst snd]. fold (name r).
  destruct (list_mem (name r) u); cbn [bind]; apply IH;
    intros x Hx; apply H; right; exact Hx.
Qed.

Lemma finduplicate_fold (names : list str) (u dp : list str) :
  fst (fold_left finduplicate_step names (u, dp)) = fold_left seen_step names u
  /\ length (fst (fold_left finduplicate_step names (u, dp)))
     + length (snd (fold_left finduplicate_step names (u, dp)))
     = length u + length dp + length names.
Proof.
  revert u dp. induction names as [|n names IH]; intros u dp; simpl.
  - split; [reflexivity | lia].
  - unfold finduplicate_step at 2 4 6, seen_step at 2. cbn [fst snd].
    destruct (list_mem n u).
    + destruct (IH u (dp ++ [n])) as [E L]. split; [exact E|].
      rewrite L, length_app. simpl. lia.
    + destruct (IH (u ++ [n]) dp) as [E L]. split; [exact E|].
      rewrite L, length_app. simpl. lia.
Qed.

Lemma occurrences_app (k : str) (l1 l2 : list str) :
  occurrences k (l1 ++ l2) = (occurrences k l1 + occurrences k l2)%Z.
Proof. unfold occurrences. rewrite filter_app, length_app. lia. Qed.

Lemma occurrences_not_in (k : str) (l : list str) :
  ~ In k l -> occurrences k l = 0%Z.
Proof.
  intros H. unfold occurrences.
  replace (filter (str_eqb k) l) with (@nil str); [reflexivity|].
  symmetry. induction l as [|x l IH]; simpl; [reflexivity|].
  destruct (str_eqb k x) eqn:E.
  - apply str_eqb_eq in E. subst x. exfalso. apply H. left. reflexivity.
  - apply IH. intros I. apply H. right. exact I.
Qed.

(** Every name seen is counted once among the unique names; its other
    appearances are among the duplicates. *)
Lemma finduplicate_counts (names : list str) (u dp : list str) (k : str) :
  NoDup u ->
  NoDup (fst (fold_left finduplicate_step names (u, dp)))
  /\ (occurrences k (fst (fold_left finduplicate_step names (u, dp)))
      + occurrences k (snd (fold_left finduplicate_step names (u, dp)))
      = occurrences k u + occurrences k dp + occurrences k names)%Z.
Proof.
  revert u dp. induction names as [|n names IH]; intros u dp N; simpl.
  - split; [exact N|]. change (occurrences k []) with 0%Z. lia.
  - unfold finduplicate_step at 2 4 6. cbn [fst snd].
    assert (C : occurrences k (n :: names)
                = (occurrences k [n] + occurrences k names)%Z)
      by (apply (occurrences_app k [n] names)).
    destruct (list_mem n u) eqn:M.
    + destruct (IH u (dp ++ [n]) N) as [N' E]. split; [exact N'|].
      rewrite E, occurrences_app, C. lia.
    + apply list_mem_not_In in M.
      assert (N2 : NoDup (u ++ [n])).
      { apply NoDup_app; [exact N | repeat constructor; intros [] |].
        intros x Hx [<-|[]]. contradiction. }
      destruct (IH (u ++ [n]) dp N2) as [N' E]. split; [exact N'|].
      rewrite E, occurrences_app, C. lia.
Qed.

Lemma occurrences_nodup (k : str) (l : list str) :
  NoDup l -> In k l -> occurrences k l = 1%Z.
Proof.
  induction 1 as [|x l Nx N IH]; intros H; [contradiction|].
  change (x :: l) with ([x] ++ l). rewrite occurrences_app.
  destruct H as [->|H].
  - rewrite (occurrences_not_in k l Nx). unfold occurrences. simpl.
    rewrite str_eqb_refl. reflexivity.
  - rewrite (IH H). unfold occurrences. simpl.
    destruct (str_eqb k x) eqn:E; [|reflexivity].
    apply str_eqb_eq in E. subst x. contradiction.
Qed.

Lemma seen_fold_in (names : list str) (u : list str) (k : str) :
  In k (fold_left seen_step names u) <-> In k u \/ In k names.
Proof.
  revert u. induction names as [|n names IH]; intros u; simpl; [tauto|].
  rewrite IH. unfold seen_step. destruct (list_mem n u) eqn:M.
  - apply list_mem_In in M. split; intros [H|H]; auto.
    destruct H as [<-|H]; auto.
  - rewrite in_app_iff. simpl. tauto.
Qed.

Lemma finduplicate_good (d : dataset) :
  (forall r, In r d -> has_field r 0) ->
  finduplicate d
  = Ok (snd (fold_left finduplicate_step (map name d) ([], []))).
Proof.
  intros H. unfold finduplicate. rewrite finduplicate_loop by exact H.
  reflexivity.
Qed.

(** X7. On rows that have a name, [finduplicate] reports as duplicates each
    name once less than it appears in the dataset, so that the duplicates
    and the distinct names add up to the rows. *)
Theorem finduplicate_counts_duplicates (d : dataset) :
  (forall r, In r d -> has_field r 0) ->
  exists duplicate_app,
    finduplicate d = Ok duplicate_app
    /\ length duplicate_app + length (first_appearances (map name d))
       = length d
    /\ (forall n, In n (map name d) ->
          (occurrences n duplicate_app + 1 = occurrences n (map name d))%Z)
    /\ (forall n, In n duplicate_app -> In n (map name d)).
Proof.
  intros H. eexists. split; [apply finduplicate_good; exact H|].
  destruct (finduplicate_fold (map name d) [] []) as [E L].
  split; [|split].
  - unfold first_appearances.
    change (fun seen x => if list_mem x seen then seen else seen ++ [x])
      with seen_step.
    rewrite <- E. rewrite length_map in L. cbn [length] in L. lia.
  - intros n Hn.
    destruct (finduplicate_counts (map name d) [] [] n (NoDup_nil _))
      as [N C].
    rewrite (occurrences_nodup n _ N) in C.
    + change (occurrences n []) with 0%Z in C. lia.
    + rewrite E. apply seen_fold_in. right. exact Hn.
  - intros n Hn.
    destruct (in_dec (list_eq_dec N.eq_dec) n (map name d)) as [I|I];
      [exact I|]. exfalso.
    destruct (finduplicate_counts (map name d) [] [] n (NoDup_nil _))
      as [N C].
    rewrite (occurrences_not_in n (map name d) I) in C.
    change (occurrences n []) with 0%Z in C.
    assert (P : (0 < occurrences n
                   (snd (fold_left finduplicate_step (map name d) ([], []))))%Z).
    { apply occurrences_bounds. exact Hn. }
    assert (Q : (0 <= occurrences n
                   (fst (fold_left finduplicate_step (map name d) ([], []))))%Z)
      by (unfold occurrences; lia).
    lia.
Qed.

Lemma google_example_name (r : row) : In r google_example -> has_field r 0.
Proof. intros [<-|[<-|[<-|[]]]]; eexists; reflexivity. Qed.

Lemma finduplicate_counts_duplicates_witness :
  (forall r, In r google_example -> has_field r 0)
  /\ exists duplicate_app,
       finduplicate google_example = Ok duplicate_app
       /\ length duplicate_app
          + length (first_appearances (map name google_example))
          = length google_example
       /\ (forall n, In n (map name google_example) ->
             (occurrences n duplicate_app + 1
              = occurrences n (map name google_example))%Z)
       /\ (forall n, In n duplicate_app -> In n (map name google_example)).
Proof.
  split; [exact google_example_name|].
  apply (finduplicate_counts_duplicates google_example).
  exact google_example_name.
Defined.

(** X8. [finduplicate] fails, with [IndexError], exactly when some row of
    the dataset has no field at all, and returns its report otherwise. *)
Theorem finduplicate_failure (d : dataset) :
  (finduplicate d = Raise IndexError <-> In [] d)
  /\ ((exists duplicate_app, finduplicate d = Ok duplicate_app)
      <-> ~ In [] d).
Proof.
  assert (Bad : In [] d -> finduplicate d = Raise IndexError).
  { intros I. apply in_split in I. destruct I as (l1 & l2 & ->).
    unfold finduplicate.
    assert (F : forall l (st : list str * list str),
              for_each (l ++ [] :: l2)
                (fun app st =>
                   let '(unique_app, duplicate_app) := st in
                   appname <- getitem app 0 ;;
                   if list_mem appname unique_app
                   then Ok (unique_app, duplicate_app ++ [appname])
                   else Ok (unique_app ++ [appname], duplicate_app)) st
              = Raise IndexError).
    { induction l as [|r l IH]; intros [u dp]; simpl; [reflexivity|].
      destruct (getitem r 0) as [n|e] eqn:G.
      - cbn [bind]. destruct (list_mem n u); cbn [bind]; apply IH.
      - cbn [bind]. unfold getitem in G. simpl in G.
        destruct r; [|discriminate]. injection G as <-. reflexivity. }
    rewrite F. reflexivity. }
  assert (Good : ~ In [] d -> exists dups, finduplicate d = Ok dups).
  { intros I. eexists. apply finduplicate_good.
    intros r Hr. apply has_name_nonempty. intros ->. contradiction. }
  split; split.
  - intros E. destruct (in_dec (list_eq_dec (list_eq_dec N.eq_dec)) [] d)
      as [I|I]; [exact I|]. destruct (Good I) as [dups G]. congruence.
  - exact Bad.
  - intros [dups E] I. rewrite (Bad I) in E. discriminate.
  - exact Good.
Qed.

(** ** [createdicodup]: the index *)

Lemma list_mem_keys (V : Type) (rm : dict V) (k : str) :
  list_mem k (dict_keys rm) = dict_mem rm k.
Proof.
  induction rm as [|[k' v] rm IH]; simpl; [reflexivity|].
  rewrite IH. reflexivity.
Qed.

Lemma dict_get_raise_mem (V : Type) (rm : dict V) (k : str) (e : exn) :
  dict_get rm k = Raise e -> dict_mem rm k = false.
Proof.
  intros G. destruct (dict_mem rm k) eqn:M; [|reflexivity].
  apply dict_mem_get in M. destruct M as [v M]. congruence.
Qed.

Section Index.
Variable parse_float : str -> option pyfloat.

Lemma index_step_keys (rm : dict pyfloat) (r : row) :
  dict_keys (index_step parse_float rm r) = seen_step (dict_keys rm) (name r).
Proof.
  unfold index_step, seen_step. rewrite list_mem_keys.
  destruct (dict_get rm (name r)) as [cur|e] eqn:G.
  - rewrite (dict_get_mem _ _ _ _ G).
    destruct (float_ltb cur (reviews parse_float r)); [|reflexivity].
    apply dict_keys_set_old. apply (dict_get_mem _ _ _ _ G).
  - pose proof (dict_get_raise_mem _ _ _ _ G) as M. rewrite M.
    rewrite dict_set_new by exact M. unfold dict_keys. rewrite map_app.
    reflexivity.
Qed.

Lemma index_fold_keys (d : dataset) (rm : dict pyfloat) :
  dict_keys (fold_left (index_step parse_float) d rm)
  = fold_left seen_step (map name d) (dict_keys rm).
Proof.
  revert rm. induction d as [|r d IH]; intros rm; simpl; [reflexivity|].
  rewrite IH, index_step_keys. reflexivity.
Qed.

End Index.

Lemma first_appearances_nodup (l : list str) : NoDup (first_appearances l).
Proof.
  destruct (finduplicate_counts l [] [] [] (NoDup_nil _)) as [N _].
  destruct (finduplicate_fold l [] []) as [E _]. rewrite E in N. exact N.
Qed.

Lemma first_appearances_in (l : list str) (k : str) :
  In k (first_appearances l) <-> In k l.
Proof.
  unfold first_appearances.
  change (fun seen x => if list_mem x seen then seen else seen ++ [x])
    with seen_step.
  rewrite seen_fold_in. simpl. tauto.
Qed.

(** X9. On a dataset whose review counts [float] accepts, the keys of the
    index built by [createdicodup] are the distinct names in the order of
    their first appearance, so the number of keys that
    [clean_google_duplicates] prints and the number of duplicates that
    [finduplicate] prints add up to the number of rows. *)
Theorem createdicodup_keys_in_order (parse_float : str -> option pyfloat)
    (d : dataset) :
  (forall r, In r d -> reviews_parse parse_float r) ->
  exists reviews_max duplicate_app,
    createdicodup parse_float d = Ok reviews_max
    /\ dict_keys reviews_max = first_appearances (map name d)
    /\ NoDup (dict_keys reviews_max)
    /\ finduplicate d = Ok duplicate_app
    /\ length reviews_max + length duplicate_app = length d.
Proof.
  intros H.
  assert (H0 : forall r, In r d -> has_field r 0).
  { intros r Hr. destruct (H r Hr) as [F _].
    apply (has_field_below r 3); [lia | exact F]. }
  eexists. eexists. split; [apply createdicodup_ok; exact H|].
  assert (K : dict_keys (fold_left (index_step parse_float) d [])
              = first_appearances (map name d)).
  { rewrite index_fold_keys. reflexivity. }
  split; [exact K|]. split; [rewrite K; apply first_appearances_nodup|].
  split; [apply finduplicate_good; exact H0|].
  destruct (finduplicate_fold (map name d) [] []) as [E L].
  rewrite length_map in L. cbn [length] in L.
  replace (length (fold_left (index_step parse_float) d []))
    with (length (dict_keys (fold_left (index_step parse_float) d [])))
    by (unfold dict_keys; apply length_map).
  rewrite K. unfold first_appearances.
  change (fun seen x => if list_mem x seen then seen else seen ++ [x])
    with seen_step.
  rewrite <- E. lia.
Qed.

Lemma createdicodup_keys_in_order_witness :
  (forall r, In r google_example -> reviews_parse ascii_float r)
  /\ exists reviews_max duplicate_app,
       createdicodup ascii_float google_example = Ok reviews_max
       /\ dict_keys reviews_max = first_appearances (map name google_example)
       /\ NoDup (dict_keys reviews_max)
       /\ finduplicate google_example = Ok duplicate_app
       /\ length reviews_max + length duplicate_app = length google_example.
Proof.
  split; [exact google_example_parse|].
  apply (createdicodup_keys_in_order ascii_float google_example).
  exact google_example_parse.
Defined.

(** X10. On a dataset whose review counts are numbers, not [nan], the index
    built by [createdicodup] holds under each name of the dataset the
    review count of a row of that name that no row of that name exceeds;
    looking up any other name raises [KeyError]. *)
Theorem createdicodup_maximum (parse_float : str -> option pyfloat)
    (d : dataset) :
  (forall r, In r d -> reviews_number parse_float r) ->
  exists reviews_max,
    createdicodup parse_float d = Ok reviews_max
    /\ (forall n, In n (map name d) ->
          exists best r,
            dict_get reviews_max n = Ok best
            /\ In r d /\ name r = n /\ reviews parse_float r = best
            /\ forall x, In x d -> name x = n ->
                 float_ltb best (reviews parse_float x) = false)
    /\ (forall n, ~ In n (map name d) ->
          dict_get reviews_max n = Raise KeyError).
Proof.
  intros H.
  assert (HP : forall r, In r d -> reviews_parse parse_float r).
  { intros r Hr. apply reviews_number_parse. auto. }
  assert (NN : forall x, In x ([] ++ d) ->
                 is_nan (reviews parse_float x) = false).
  { intros x Hx. apply reviews_number_not_nan. auto. }
  eexists. split; [apply createdicodup_ok; exact HP|].
  pose proof (index_fold_inv parse_float d [] [] NN
                (index_inv_init parse_float)) as [K M].
  cbn [app] in K, M. split.
  - intros n Hn. apply in_map_iff in Hn. destruct Hn as (r0 & N0 & I0).
    destruct (dict_mem_get _ (fold_left (index_step parse_float) d []) n)
      as [m G]; [rewrite <- N0; auto|].
    destruct (M n m G) as [(r1 & I1 & N1 & R1) B].
    exists m, r1. repeat split; assumption.
  - intros n Hn. apply dict_mem_false_get.
    destruct (dict_mem (fold_left (index_step parse_float) d []) n) eqn:E;
      [|reflexivity].
    apply index_fold_mem in E. destruct E as [E|E]; [discriminate|].
    contradiction.
Qed.

Lemma createdicodup_maximum_witness :
  (forall r, In r google_example -> reviews_number ascii_float r)
  /\ exists reviews_max,
       createdicodup ascii_float google_example = Ok reviews_max
       /\ (forall n, In n (map name google_example) ->
             exists best r,
               dict_get reviews_max n = Ok best
               /\ In r google_example /\ name r = n
               /\ reviews ascii_float r = best
               /\ forall x, In x google_example -> name x = n ->
                    float_ltb best (reviews ascii_float x) = false)
       /\ (forall n, ~ In n (map name google_example) ->
             dict_get reviews_max n = Raise KeyError).
Proof.
  split; [exact google_example_numbers|].
  apply (createdicodup_maximum ascii_float google_example).
  exact google_example_numbers.
Defined.

(** X11. [createdicodup] stops at the first row it cannot read: where the
    rows before it are read, a row of fewer than four fields raises
    [IndexError] and a row whose review count [float] rejects raises
    [ValueError], whatever rows come after it. *)
Theorem createdicodup_first_failure (parse_float : str -> option pyfloat)
    (pre post : dataset) (r : row) :
  (forall x, In x pre -> reviews_parse parse_float x) ->
  ~ reviews_parse parse_float r ->
  createdicodup parse_float (pre ++ r :: post)
  = Raise (if Nat.ltb (length r) 4 then IndexError else ValueError).
Proof.
  intros Hpre Hr. unfold createdicodup.
  apply (for_each_first_failure _ _ _ (index_step parse_float)).
  - intros y Hy t. apply createdicodup_body_step. apply Hpre. exact Hy.
  - intros t. unfold createdicodup_body.
    destruct (Nat.ltb_spec (length r) 4) as [L|L].
    + destruct (getitem r 0) as [n|e] eqn:G0.
      * cbn [bind]. destruct (getitem r 3) as [s|e] eqn:G3.
        -- exfalso. assert (F : has_field r 3) by (exists s; exact G3).
           apply has_field_nonneg in F; [|lia]. simpl in F. lia.
        -- cbn [bind]. unfold getitem in G3.
           destruct (_ <? 0)%Z; [congruence|].
           destruct (nth_error r _); congruence.
      * cbn [bind]. unfold getitem in G0.
        destruct (_ <? 0)%Z; [congruence|].
        destruct (nth_error r _); congruence.
    + assert (F3 : has_field r 3) by (apply has_field_nonneg; simpl; lia).
      assert (F0 : has_field r 0) by (apply (has_field_below r 3); [lia|auto]).
      rewrite (getitem_field r 0 F0), (getitem_field r 3 F3). cbn [bind].
      unfold float_of_str.
      destruct (parse_float (field r 3)) as [x|] eqn:P; [|reflexivity].
      exfalso. apply Hr. split; [exact F3 | eauto].
Qed.

Lemma createdicodup_first_failure_witness :
  (forall x, In x google_example -> reviews_parse ascii_float x)
  /\ ~ reviews_parse ascii_float [utf8 "Life Made WI-Fi"; utf8 "1.9"]
  /\ createdicodup ascii_float
       (google_example ++ [utf8 "Life Made WI-Fi"; utf8 "1.9"] :: google_example)
     = Raise (if Nat.ltb (length [utf8 "Life Made WI-Fi"; utf8 "1.9"]) 4
              then IndexError else ValueError).
Proof.
  assert (N : ~ reviews_parse ascii_float [utf8 "Life Made WI-Fi"; utf8 "1.9"]).
  { intros [[s F] _]. discriminate F. }
  split; [exact google_example_parse|]. split; [exact N|].
  apply (createdicodup_first_failure ascii_float google_example google_example).
  - exact google_example_parse.
  - exact N.
Defined.

(** ** [deldupdata] with an index of any origin *)

Section AnyIndex.
Variable parse_float : str -> option pyfloat.

Lemma getitem_ok_field (r : row) (col : Z) (s : str) :
  getitem r col = Ok s -> has_field r col /\ field r col = s.
Proof.
  intros G. split; [exists s; exact G|]. unfold field. rewrite G. reflexivity.
Qed.

(** A pass of the body of [deldupdata] that returns has read the row, and
    has looked its name up only where the name had not been added. *)
Lemma deldupdata_body_ok (rm : dict pyfloat) (r : row)
    (st st' : dataset * list str) :
  deldupdata_body parse_float rm r st = Ok st' ->
  reviews_parse parse_float r
  /\ st' = dedup_step parse_float rm st r
  /\ (list_mem (name r) (snd st) = true \/ dict_mem rm (name r) = true).
Proof.
  destruct st as [clean added]. unfold deldupdata_body.
  destruct (getitem r 0) as [n|e] eqn:G0; [|discriminate]. cbn [bind].
  destruct (getitem r 3) as [s|e] eqn:G3; [|discriminate]. cbn [bind].
  destruct (getitem_ok_field r 0 n G0) as [F0 E0].
  destruct (getitem_ok_field r 3 s G3) as [F3 E3].
  unfold float_of_str. destruct (parse_float s) as [x|] eqn:P; [|discriminate].
  cbn [bind]. intros E.
  assert (R : reviews parse_float r = x).
  { unfold reviews. rewrite E3, P. reflexivity. }
  split; [split; [exact F3 | exists x; rewrite E3; exact P]|].
  unfold dedup_step, is_best, name. rewrite E0, R. cbn [fst snd].
  destruct (list_mem n added) eqn:LM; cbn [negb bind andb] in *.
  - injection E as <-. split; [reflexivity | left; reflexivity].
  - destruct (dict_get rm n) as [best|e] eqn:G; [|discriminate].
    cbn [bind] in E. split; [|right; apply (dict_get_mem _ _ _ _ G)].
    destruct (float_eqb best x); injection E as <-; reflexivity.
Qed.

Lemma dedup_step_added (rm : dict pyfloat) (st : dataset * list str) (r : row) :
  (forall n, In n (snd st) -> dict_mem rm n = true) ->
  forall n, In n (snd (dedup_step parse_float rm st r)) -> dict_mem rm n = true.
Proof.
  intros H n. unfold dedup_step, is_best.
  destruct (list_mem (name r) (snd st)); cbn [negb andb]; [apply H|].
  destruct (dict_get rm (name r)) as [best|e] eqn:G; [|apply H].
  destruct (float_eqb best (reviews parse_float r)); [|apply H].
  cbn [snd]. intros I. apply in_app_or in I. destruct I as [I|[<-|[]]].
  - apply H. exact I.
  - apply (dict_get_mem _ _ _ _ G).
Qed.

Lemma deldupdata_loop (rm : dict pyfloat) (d : dataset)
    (st : dataset * list str) :
  (forall r, In r d -> reviews_parse parse_float r) ->
  (forall n, In n (snd st) -> dict_mem rm n = true) ->
  for_each d (deldupdata_body parse_float rm) st
  = if forallb (fun r => dict_mem rm (name r)) d
    then Ok (fold_left (dedup_step parse_float rm) d st)
    else Raise KeyError.
Proof.
  revert st. induction d as [|r d IH]; intros st H K; [reflexivity|].
  cbn [for_each forallb fold_left].
  destruct (dict_mem rm (name r)) eqn:M; cbn [andb].
  - rewrite deldupdata_body_step; [|apply H; left; reflexivity | exact M].
    cbn [bind]. apply IH.
    + intros x Hx. apply H. right. exact Hx.
    + apply dedup_step_added. exact K.
  - destruct (read_row parse_float r (H r (or_introl eq_refl))) as (E0 & E3 & Ef).
    destruct st as [clean added]. unfold deldupdata_body.
    rewrite E0, E3. cbn [bind]. rewrite Ef. cbn [bind].
    destruct (list_mem (name r) added) eqn:LM.
    + apply list_mem_In in LM. apply K in LM. congruence.
    + cbn [negb]. rewrite (dict_mem_false_get _ _ _ M). reflexivity.
Qed.

End AnyIndex.

Lemma subsequence_refl (A : Type) (l : list A) : subsequence l l.
Proof. induction l; constructor; assumption. Qed.

Lemma subsequence_app (A : Type) (a b c d : list A) :
  subsequence a b -> subsequence c d -> subsequence (a ++ c) (b ++ d).
Proof.
  intros H K. induction H; simpl; [exact K | |]; constructor; assumption.
Qed.

Lemma subsequence_in (A : Type) (a b : list A) (x : A) :
  subsequence a b -> In x a -> In x b.
Proof.
  induction 1 as [|y a b S IH|y a b S IH]; simpl; [tauto | auto |].
  intros [E|I]; auto.
Qed.

Lemma dedup_fold_subsequence (parse_float : str -> option pyfloat)
    (rm : dict pyfloat) (d P : dataset) (st : dataset * list str) :
  subsequence (fst st) P ->
  subsequence (fst (fold_left (dedup_step parse_float rm) d st)) (P ++ d).
Proof.
  revert P st. induction d as [|r d IH]; intros P st S; simpl.
  - rewrite app_nil_r. exact S.
  - replace (P ++ r :: d) with ((P ++ [r]) ++ d)
      by (rewrite <- app_assoc; reflexivity).
    apply IH. unfold dedup_step.
    destruct (negb (list_mem (name r) (snd st)) && is_best parse_float rm r);
      cbn [fst].
    + apply subsequence_app; [exact S | apply subsequence_refl].
    + rewrite <- (app_nil_r (fst st)).
      apply subsequence_app; [exact S|]. repeat constructor.
Qed.

(** X12. Whatever index [deldupdata] is given, a result it returns is the
    input with some rows left out, the others in their order; it has no
    two rows of the same name, and the review count of each of its rows
    equals the value the index holds under the name of the row; and
    [deldupdata] returns only where every row has a review count [float]
    accepts. *)
Theorem deldupdata_output (parse_float : str -> option pyfloat)
    (d : dataset) (reviews_max : dict pyfloat) (out : dataset) :
  deldupdata parse_float d reviews_max = Ok out ->
  subsequence out d
  /\ NoDup (map name out)
  /\ (forall r, In r out ->
        exists best, dict_get reviews_max (name r) = Ok best
          /\ float_eqb best (reviews parse_float r) = true)
  /\ (forall r, In r d -> reviews_parse parse_float r).
Proof.
  unfold deldupdata. intros E.
  destruct (for_each d (deldupdata_body parse_float reviews_max) ([], []))
    as [st|e] eqn:L; [|discriminate].
  cbn [bind] in E. injection E as <-.
  assert (P : forall r, In r d -> reviews_parse parse_float r).
  { intros r Hr. destruct (for_each_ok_each _ _ _ d _ _ r L Hr) as (t & t' & B).
    apply (deldupdata_body_ok parse_float reviews_max r t t' B). }
  assert (F : st = fold_left (dedup_step parse_float reviews_max) d ([], [])).
  { clear P. revert L. generalize (@nil row, @nil str).
    induction d as [|r d IH]; intros s L; simpl in L.
    - injection L as <-. reflexivity.
    - destruct (deldupdata_body parse_float reviews_max r s) as [t|e] eqn:B;
        [|discriminate].
      cbn [bind] in L.
      destruct (deldupdata_body_ok parse_float reviews_max r s t B)
        as (_ & -> & _).
      simpl. apply IH. exact L. }
  pose proof (dedup_fold_inv parse_float reviews_max d [] ([], [])
                (dedup_inv_init parse_float reviews_max)) as (A & N & B & _ & Q).
  rewrite <- F in A, N, B, Q. cbn [app] in Q.
  split.
  { rewrite F.
    apply (dedup_fold_subsequence parse_float reviews_max d [] ([], [])).
    constructor. }
  split; [rewrite <- A; exact N|]. split; [|exact P].
  intros r Hr. pose proof (B r Hr) as Br. unfold is_best in Br.
  destruct (dict_get reviews_max (name r)) as [best|e]; [|discriminate].
  exists best. split; [reflexivity | exact Br].
Qed.

Lemma deldupdata_output_witness :
  deldupdata ascii_float google_example
    [(utf8 "A", float_of_int 5); (utf8 "B", float_of_int 9)]
  = Ok [google_row "A" "TOOLS" "5" "10,000+" "0";
        google_row "B" "GAME" "9" "1,000+" "0"]
  /\ subsequence [google_row "A" "TOOLS" "5" "10,000+" "0";
                  google_row "B" "GAME" "9" "1,000+" "0"] google_example
  /\ NoDup (map name [google_row "A" "TOOLS" "5" "10,000+" "0";
                      google_row "B" "GAME" "9" "1,000+" "0"])
  /\ (forall r, In r [google_row "A" "TOOLS" "5" "10,000+" "0";
                      google_row "B" "GAME" "9" "1,000+" "0"] ->
        exists best,
          dict_get [(utf8 "A", float_of_int 5); (utf8 "B", float_of_int 9)]
            (name r) = Ok best
          /\ float_eqb best (reviews ascii_float r) = true)
  /\ (forall r, In r google_example -> reviews_parse ascii_float r).
Proof.
  split; [vm_compute; reflexivity|].
  apply (deldupdata_output ascii_float google_example
           [(utf8 "A", float_of_int 5); (utf8 "B", float_of_int 9)]).
  vm_compute. reflexivity.
Defined.

(** X13. On a dataset whose review counts [float] accepts, [deldupdata]
    raises [KeyError] exactly when the name of some row is not a key of
    the index it is given, and returns exactly when every name is a key. *)
Theorem deldupdata_missing_name (parse_float : str -> option pyfloat)
    (d : dataset) (reviews_max : dict pyfloat) :
  (forall r, In r d -> reviews_parse parse_float r) ->
  (deldupdata parse_float d reviews_max = Raise KeyError
   <-> exists r, In r d /\ dict_mem reviews_max (name r) = false)
  /\ ((exists out, deldupdata parse_float d reviews_max = Ok out)
      <-> forall r, In r d -> dict_mem reviews_max (name r) = true).
Proof.
  intros H. unfold deldupdata.
  rewrite (deldupdata_loop parse_float reviews_max d ([], []) H)
    by (intros n []).
  destruct (forallb (fun r => dict_mem reviews_max (name r)) d) eqn:F.
  - pose proof (proj1 (forallb_forall _ _) F) as A. cbn [bind]. split; split.
    + discriminate.
    + intros (r & Hr & M). rewrite (A r Hr) in M. discriminate.
    + intros _. exact A.
    + intros _. eexists. reflexivity.
  - cbn [bind]. split; split.
    + intros _.
      assert (E : existsb (fun r => negb (dict_mem reviews_max (name r))) d
                  = true).
      { clear -F. induction d as [|r d IH]; simpl in *; [discriminate|].
        destruct (dict_mem reviews_max (name r)); simpl in *; auto. }
      apply existsb_exists in E. destruct E as (r & Hr & M). exists r.
      split; [exact Hr|]. destruct (dict_mem reviews_max (name r));
        [discriminate | reflexivity].
    + reflexivity.
    + intros [out E]. discriminate E.
    + intros A. assert (T : forallb (fun r => dict_mem reviews_max (name r)) d
                            = true) by (apply forallb_forall; exact A).
      congruence.
Qed.

Lemma deldupdata_missing_name_witness :
  (forall r, In r google_example -> reviews_parse ascii_float r)
  /\ (deldupdata ascii_float google_example [] = Raise KeyError
      <-> exists r, In r google_example /\ dict_mem (@nil (str * pyfloat)) (name r) = false)
  /\ ((exists out, deldupdata ascii_float google_example [] = Ok out)
      <-> forall r, In r google_example ->
            dict_mem (@nil (str * pyfloat)) (name r) = true).
Proof.
  split; [exact google_example_parse|].
  apply (deldupdata_missing_name ascii_float google_example []).
  exact google_example_parse.
Defined.

(** ** [clean_google_duplicates] on its own output *)

Section Unique.
Variable parse_float : str -> option pyfloat.

Lemma unique_name_row (l : dataset) (x y : row) :
  NoDup (map name l) -> In x l -> In y l -> name x = name y -> x = y.
Proof.
  induction l as [|z l IH]; simpl; intros N Hx Hy E; [contradiction|].
  inversion N as [|? ? Nz Nl]; subst.
  destruct Hx as [->|Hx], Hy as [->|Hy].
  - reflexivity.
  - exfalso. apply Nz. rewrite E. apply in_map. exact Hy.
  - exfalso. apply Nz. rewrite <- E. apply in_map. exact Hx.
  - apply IH; assumption.
Qed.

Lemma dedup_fold_unique (rm : dict pyfloat) (d : dataset)
    (clean : dataset) (added : list str) :
  NoDup (added ++ map name d) ->
  (forall r, In r d -> is_best parse_float rm r = true) ->
  fold_left (dedup_step parse_float rm) d (clean, added)
  = (clean ++ d, added ++ map name d).
Proof.
  revert clean added. induction d as [|r d IH]; intros clean added N B.
  - simpl. rewrite !app_nil_r. reflexivity.
  - cbn [fold_left map]. unfold dedup_step at 2. cbn [fst snd].
    assert (LM : list_mem (name r) added = false).
    { apply list_mem_not_In. intros I.
      apply NoDup_remove_2 in N. apply N. apply in_or_app. left. exact I. }
    rewrite LM, (B r (or_introl eq_refl)). cbn [negb andb].
    rewrite IH.
    + rewrite <- !app_assoc. reflexivity.
    + rewrite <- app_assoc. exact N.
    + intros x Hx. apply B. right. exact Hx.
Qed.

(** A dataset of numbers without two rows of the same name is its own
    duplicate-free version. *)
Lemma clean_unique_names (d : dataset) :
  (forall r, In r d -> reviews_number parse_float r) ->
  NoDup (map name d) ->
  clean_google_duplicates parse_float d = Ok d.
Proof.
  intros H N.
  assert (HP : forall r, In r d -> reviews_parse parse_float r).
  { intros r Hr. apply reviews_number_parse. auto. }
  assert (H0 : forall r, In r d -> has_field r 0).
  { intros r Hr. destruct (HP r Hr) as [F _].
    apply (has_field_below r 3); [lia | exact F]. }
  assert (NN : forall x, In x ([] ++ d) ->
                 is_nan (reviews parse_float x) = false).
  { intros x Hx. apply reviews_number_not_nan. auto. }
  unfold clean_google_duplicates.
  rewrite (finduplicate_good d H0). cbn [bind].
  rewrite (createdicodup_ok parse_float d HP). cbn [bind].
  rewrite (deldupdata_ok parse_float d HP). f_equal.
  pose proof (index_fold_inv parse_float d [] [] NN
                (index_inv_init parse_float)) as [K M].
  cbn [app] in K, M.
  rewrite dedup_fold_unique; [reflexivity | exact N |].
  intros r Hr. unfold is_best.
  destruct (dict_mem_get _ _ _ (K r Hr)) as [m G]. rewrite G.
  destruct (M _ _ G) as [(r1 & I1 & N1 & R1) _].
  rewrite (unique_name_row d r1 r N I1 Hr N1) in R1. rewrite <- R1.
  apply float_eqb_refl. apply NN. exact Hr.
Qed.

End Unique.

(** X14. On a dataset whose review counts are numbers, not [nan],
    [clean_google_duplicates] is idempotent: it returns a dataset that it
    returns unchanged when run again; and a dataset without two rows of
    the same name is returned as it is. *)
Theorem clean_google_duplicates_idempotent
    (parse_float : str -> option pyfloat) (d : dataset) :
  (forall r, In r d -> reviews_number parse_float r) ->
  exists out,
    clean_google_duplicates parse_float d = Ok out
    /\ clean_google_duplicates parse_float out = Ok out
    /\ (NoDup (map name d) -> out = d).
Proof.
  intros H.
  assert (HP : forall r, In r d -> reviews_parse parse_float r).
  { intros r Hr. apply reviews_number_parse. auto. }
  assert (H0 : forall r, In r d -> has_field r 0).
  { intros r Hr. destruct (HP r Hr) as [F _].
    apply (has_field_below r 3); [lia | exact F]. }
  assert (E : clean_google_duplicates parse_float d
              = Ok (fst (fold_left
                           (dedup_step parse_float
                              (fold_left (index_step parse_float) d []))
                           d ([], [])))).
  { unfold clean_google_duplicates.
    rewrite (finduplicate_good d H0). cbn [bind].
    rewrite (createdicodup_ok parse_float d HP). cbn [bind].
    apply deldupdata_ok. exact HP. }
  eexists. split; [exact E|]. split.
  - apply (clean_unique_names parse_float).
    + intros r Hr. apply H. apply (dedup_result_incl parse_float d r Hr).
    + pose proof (dedup_fold_inv parse_float
                    (fold_left (index_step parse_float) d []) d [] ([], [])
                    (dedup_inv_init parse_float _)) as (A & N & _).
      rewrite <- A. exact N.
  - intros N. pose proof (clean_unique_names parse_float d H N) as U.
    rewrite E in U. injection U as U. exact U.
Qed.

Lemma clean_google_duplicates_idempotent_witness :
  (forall r, In r google_example -> reviews_number ascii_float r)
  /\ exists out,
       clean_google_duplicates ascii_float google_example = Ok out
       /\ clean_google_duplicates ascii_float out = Ok out
       /\ (NoDup (map name google_example) -> out = google_example).
Proof.
  split; [exact google_example_numbers|].
  apply (clean_google_duplicates_idempotent ascii_float google_example).
  exact google_example_numbers.
Defined.

(** X23. On a dataset whose review counts are numbers, not [nan], the rows
    that [clean_google_duplicates] removes are as many as the duplicates
    that [finduplicate] reports: the result has one row for each distinct
    name, in the order of the input. *)
Theorem clean_google_duplicates_count
    (parse_float : str -> option pyfloat) (d : dataset) :
  (forall r, In r d -> reviews_number parse_float r) ->
  exists out duplicate_app,
    clean_google_duplicates parse_float d = Ok out
    /\ finduplicate d = Ok duplicate_app
    /\ length out + length duplicate_app = length d
    /\ subsequence out d
    /\ Permutation (map name out) (first_appearances (map name d)).
Proof.
  intros H.
  assert (HP : forall r, In r d -> reviews_parse parse_float r).
  { intros r Hr. apply reviews_number_parse. auto. }
  assert (H0 : forall r, In r d -> has_field r 0).
  { intros r Hr. destruct (HP r Hr) as [F _].
    apply (has_field_below r 3); [lia | exact F]. }
  set (rm := fold_left (index_step parse_float) d []).
  set (out := fst (fold_left (dedup_step parse_float rm) d ([], []))).
  assert (E : clean_google_duplicates parse_float d = Ok out).
  { unfold clean_google_duplicates.
    rewrite (finduplicate_good d H0). cbn [bind].
    rewrite (createdicodup_ok parse_float d HP). cbn [bind].
    apply deldupdata_ok. exact HP. }
  assert (S : subsequence out d).
  { apply (dedup_fold_subsequence parse_float rm d [] ([], [])). constructor. }
  assert (P : Permutation (map name out) (first_appearances (map name d))).
  { apply NoDup_Permutation.
    - pose proof (dedup_fold_inv parse_float rm d [] ([], [])
                    (dedup_inv_init parse_float rm)) as (A & N & _).
      fold out in A. rewrite <- A. exact N.
    - apply first_appearances_nodup.
    - intros n. rewrite first_appearances_in. split; intros I.
      + apply in_map_iff in I. destruct I as (r & <- & I).
        apply in_map. apply (subsequence_in _ out d r S I).
      + destruct (dedup_result parse_float d H n I)
          as (r & pre & post & F & _ & Nr & _).
        fold rm in F. fold out in F.
        assert (Ir : In r (filter (fun x => str_eqb (name x) n) out))
          by (rewrite F; left; reflexivity).
        apply filter_In in Ir. destruct Ir as [Ir _].
        rewrite <- Nr. apply in_map. exact Ir. }
  exists out. eexists. split; [exact E|].
  split; [apply finduplicate_good; exact H0|].
  split; [|split; [exact S | exact P]].
  destruct (finduplicate_fold (map name d) [] []) as [F L].
  rewrite length_map in L. cbn [length] in L.
  rewrite <- (length_map name out), (Permutation_length P).
  unfold first_appearances.
  change (fun seen x => if list_mem x seen then seen else seen ++ [x])
    with seen_step.
  rewrite <- F. lia.
Qed.

Lemma clean_google_duplicates_count_witness :
  (forall r, In r google_example -> reviews_number ascii_float r)
  /\ exists out duplicate_app,
       clean_google_duplicates ascii_float google_example = Ok out
       /\ finduplicate google_example = Ok duplicate_app
       /\ length out + length duplicate_app = length google_example
       /\ subsequence out google_example
       /\ Permutation (map name out)
            (first_appearances (map name google_example)).
Proof.
  split; [exact google_example_numbers|].
  apply (clean_google_duplicates_count ascii_float google_example).
  exact google_example_numbers.
Defined.

(** ** [filter_english_and_free] on rows of any length *)

Lemma getitem_raise (A : Type) (l : list A) (i : Z) (e : exn) :
  getitem l i = Raise e -> e = IndexError.
Proof.
  unfold getitem. destruct (_ <? 0)%Z; [congruence|].
  destruct (nth_error l _); congruence.
Qed.

Lemma has_field_dec (r : row) (col : Z) :
  (has_field r col /\ getitem r col = Ok (field r col))
  \/ (~ has_field r col /\ getitem r col = Raise IndexError).
Proof.
  destruct (getitem r col) as [s|e] eqn:G.
  - left. destruct (getitem_ok_field r col s G) as [F E].
    split; [exact F | rewrite E; reflexivity].
  - right. rewrite (getitem_raise _ r col e G). split; [|reflexivity].
    intros [s F]. congruence.
Qed.

(** The loops of [filter_english_and_free]: every row is asked for its
    column [col]. *)
Lemma select_rows_ok (col : Z) (test : str -> bool) (data acc : dataset) :
  (forall r, In r data -> has_field r col) ->
  for_each data
    (fun app acc =>
       x <- getitem app col ;;
       if test x then Ok (acc ++ [app]) else Ok acc) acc
  = Ok (acc ++ filter (fun r => test (field r col)) data).
Proof. apply select_rows. Qed.

Lemma select_rows_fail (col : Z) (test : str -> bool) (data acc : dataset) :
  (exists r, In r data /\ ~ has_field r col) ->
  for_each data
    (fun app acc =>
       x <- getitem app col ;;
       if test x then Ok (acc ++ [app]) else Ok acc) acc
  = Raise IndexError.
Proof.
  revert acc. induction data as [|r data IH]; intros acc (x & Hx & N).
  - contradiction.
  - cbn [for_each]. destruct (has_field_dec r col) as [[F G]|[F G]]; rewrite G.
    + cbn [bind]. destruct Hx as [->|Hx]; [contradiction|].
      destruct (test (field r col)); cbn [bind]; apply IH; eauto.
    + reflexivity.
Qed.

Lemma all_or_one_lacks (col : Z) (data : dataset) :
  (forall r, In r data -> has_field r col)
  \/ (exists r, In r data /\ ~ has_field r col).
Proof.
  induction data as [|r data [IH|(x & Hx & N)]].
  - left. intros r [].
  - destruct (has_field_dec r col) as [[F _]|[F _]].
    + left. intros x [<-|Hx]; auto.
    + right. exists r. split; [left; reflexivity | exact F].
  - right. exists x. split; [right; exact Hx | exact N].
Qed.



(** X16. The only exception [filter_english_and_free] raises is
    [IndexError], and it raises it exactly when a Google row has no
    column 0, an Apple row no column 1, an English Google row no column 7
    or an English Apple row no column 4. *)
Theorem filter_english_and_free_failure (google_data apple_data : dataset) :
  (filter_english_and_free google_data apple_data = Raise IndexError
   <-> (exists r, In r google_data /\ ~ has_field r 0)
       \/ (exists r, In r apple_data /\ ~ has_field r 1)
       \/ (exists r, In r google_data /\ is_english (field r 0) = true
                     /\ ~ has_field r 7)
       \/ (exists r, In r apple_data /\ is_english (field r 1) = true
                     /\ ~ has_field r 4))
  /\ (forall e, filter_english_and_free google_data apple_data = Raise e ->
        e = IndexError).
Proof.
  assert (R : forall col (data : dataset),
            (exists r, In r (filter (fun r => is_english (field r col)) data)
                       /\ ~ has_field r 7)
            <-> (exists r, In r data /\ is_english (field r col) = true
                           /\ ~ has_field r 7)).
  { intros col data. split; intros (r & H & N); exists r.
    - apply filter_In in H. tauto.
    - split; [apply filter_In|]; tauto. }
  assert (R4 : forall col (data : dataset),
            (exists r, In r (filter (fun r => is_english (field r col)) data)
                       /\ ~ has_field r 4)
            <-> (exists r, In r data /\ is_english (field r col) = true
                           /\ ~ has_field r 4)).
  { intros col data. split; intros (r & H & N); exists r.
    - apply filter_In in H. tauto.
    - split; [apply filter_In|]; tauto. }
  unfold filter_english_and_free, english_only, free_only.
  destruct (all_or_one_lacks 0 google_data) as [G0|G0].
  2:{ rewrite (select_rows_fail 0 is_english google_data [] G0). cbn [bind].
      split; [split; auto | congruence]. }
  rewrite (select_rows_ok 0 is_english google_data [] G0). cbn [bind app].
  destruct (all_or_one_lacks 1 apple_data) as [A1|A1].
  2:{ rewrite (select_rows_fail 1 is_english apple_data [] A1). cbn [bind].
      split; [split; auto | congruence]. }
  rewrite (select_rows_ok 1 is_english apple_data [] A1). cbn [bind app].
  destruct (all_or_one_lacks 7
              (filter (fun r => is_english (field r 0)) google_data))
    as [G7|G7].
  2:{ rewrite (select_rows_fail 7 google_price_is_free _ [] G7). cbn [bind].
      split; [split; [|reflexivity] | congruence].
      intros _. right. right. left. apply R. exact G7. }
  rewrite (select_rows_ok 7 google_price_is_free _ [] G7). cbn [bind app].
  destruct (all_or_one_lacks 4
              (filter (fun r => is_english (field r 1)) apple_data))
    as [A4|A4].
  2:{ rewrite (select_rows_fail 4 apple_price_is_free _ [] A4). cbn [bind].
      split; [split; [|reflexivity] | congruence].
      intros _. right. right. right. apply R4. exact A4. }
  rewrite (select_rows_ok 4 apple_price_is_free _ [] A4). cbn [bind app].
  split; [split; [discriminate|] | discriminate].
  intros [(r & H & N)|[(r & H & N)|[H|H]]].
  - exfalso. apply N. apply G0. exact H.
  - exfalso. apply N. apply A1. exact H.
  - apply R in H. destruct H as (r & H & N). exfalso. apply N. apply G7. exact H.
  - apply R4 in H. destruct H as (r & H & N). exfalso. apply N. apply A4. exact H.
Qed.

(** ** [is_english] and the parts of a name *)

Lemma non_ascii_count_app (a b : str) :
  non_ascii_count (a ++ b) = non_ascii_count a + non_ascii_count b.
Proof. unfold non_ascii_count. rewrite filter_app, length_app. reflexivity. Qed.

Lemma non_ascii_count_perm (a b : str) :
  Permutation a b -> non_ascii_count a = non_ascii_count b.
Proof.
  unfold non_ascii_count.
  induction 1 as [|x a b P IH|x y a|a b c P1 IH1 P2 IH2]; simpl.
  - reflexivity.
  - destruct (N.ltb 127 (ord x)); simpl; congruence.
  - destruct (N.ltb 127 (ord x)), (N.ltb 127 (ord y)); reflexivity.
  - congruence.
Qed.

Lemma is_english_count (name : str) :
  is_english name = Nat.leb (non_ascii_count name) 3.
Proof. unfold is_english. rewrite is_english_loop_count by lia. reflexivity. Qed.

(** X17. A name that [is_english] accepts is accepted in each of its parts,
    the answer does not depend on the order of the characters, and a name
    of ASCII characters only is accepted whatever its length. *)
Theorem is_english_parts :
  (forall a b : str, is_english (a ++ b) = true ->
     is_english a = true /\ is_english b = true)
  /\ (forall a b : str, Permutation a b -> is_english a = is_english b)
  /\ (forall a : str, (forall c, In c a -> (ord c <= 127)%N) ->
        is_english a = true).
Proof.
  split; [|split].
  - intros a b. rewrite !is_english_count, non_ascii_count_app.
    rewrite !Nat.leb_le. lia.
  - intros a b P. rewrite !is_english_count.
    rewrite (non_ascii_count_perm a b P). reflexivity.
  - intros a H. rewrite is_english_count. apply Nat.leb_le.
    assert (E : non_ascii_count a = 0); [|lia].
    unfold non_ascii_count. induction a as [|c a IH]; [reflexivity|].
    simpl. destruct (N.ltb_spec 127 (ord c)) as [L|L].
    + specialize (H c (or_introl eq_refl)). lia.
    + apply IH. intros x Hx. apply H. right. exact Hx.
Qed.

(** ** [freq_table] and [display_table] *)

Lemma tally_keys_order (l : list str) (table : dict Z) :
  dict_keys (tally l table) = fold_left seen_step l (dict_keys table).
Proof.
  revert table. unfold tally.
  induction l as [|g l IH]; intros table; simpl; [reflexivity|].
  rewrite IH, count_step_keys. f_equal. unfold seen_step.
  rewrite list_mem_keys. reflexivity.
Qed.

Lemma tally_get (l : list str) (k : str) :
  dict_get (tally l []) k
  = if list_mem k l then Ok (occurrences k l) else Raise KeyError.
Proof.
  pose proof (tally_count l [] k) as C. pose proof (tally_mem l [] k) as M.
  destruct (list_mem k l) eqn:L.
  - apply list_mem_In in L.
    destruct (dict_mem_get _ (tally l []) k) as [v G]; [apply M; auto|].
    unfold count_of in C. rewrite G in C. simpl in C. rewrite G, C.
    reflexivity.
  - apply list_mem_not_In in L. apply dict_mem_false_get.
    destruct (dict_mem (tally l []) k); [|reflexivity].
    destruct M as [[M|M] _]; [reflexivity | discriminate | contradiction].
Qed.

Lemma percent_entry_get (total : Z) (table : dict Z) (k : str) :
  dict_get (map (percent_entry total) table) k
  = match dict_get table k with
    | Ok n => Ok (percentage n total)
    | Raise e => Raise e
    end.
Proof.
  induction table as [|[k' n] table IH]; simpl; [reflexivity|].
  destruct (str_eqb k k'); [reflexivity | exact IH].
Qed.

Lemma freq_table_count_fail (index : Z) (d : dataset) (st : dict Z * Z) :
  (exists r, In r d /\ ~ has_field r index) ->
  for_each d (freq_table_count index) st = Raise IndexError.
Proof.
  revert st. induction d as [|r d IH]; intros [table total] (x & Hx & N).
  - contradiction.
  - cbn [for_each]. unfold freq_table_count at 1.
    destruct (has_field_dec r index) as [[F G]|[F G]]; rewrite G; cbn [bind].
    + destruct Hx as [->|Hx]; [contradiction|].
      destruct (dict_mem table (field r index)) eqn:M.
      * destruct (dict_mem_get _ _ _ M) as [n E]. rewrite E. cbn [bind].
        apply IH. eauto.
      * cbn [bind]. apply IH. eauto.
    + reflexivity.
Qed.

Lemma freq_table_fail (d : dataset) (index : Z) :
  (exists r, In r d /\ ~ has_field r index) ->
  freq_table d index = Raise IndexError.
Proof.
  intros H. unfold freq_table.
  rewrite (freq_table_count_fail index d ([], 0%Z) H). reflexivity.
Qed.

(** X18. On rows that have the column, [freq_table] returns a table whose
    keys are the distinct values of the column in the order of their first
    appearance; the value under a key is the binary64 result of
    (count / rows) * 100 for the number of rows with that value, and any
    other key is missing. *)
Theorem freq_table_content (d : dataset) (index : Z) :
  (forall r, In r d -> has_field r index) ->
  exists table,
    freq_table d index = Ok table
    /\ dict_keys table = first_appearances (column d index)
    /\ (forall k, In k (column d index) ->
          dict_get table k
          = Ok (percentage (occurrences k (column d index))
                  (Z.of_nat (length d))))
    /\ (forall k, ~ In k (column d index) ->
          dict_get table k = Raise KeyError).
Proof.
  intros H. eexists. split; [apply freq_table_ok; exact H|].
  split; [|split].
  - rewrite freq_table_keys, tally_keys_order. reflexivity.
  - intros k Hk. rewrite percent_entry_get, tally_get.
    apply list_mem_In in Hk. rewrite Hk. reflexivity.
  - intros k Hk. rewrite percent_entry_get, tally_get.
    apply list_mem_not_In in Hk. rewrite Hk. reflexivity.
Qed.

Lemma freq_table_content_witness :
  (forall r, In r google_example -> has_field r 1)
  /\ exists table,
       freq_table google_example 1 = Ok table
       /\ dict_keys table = first_appearances (column google_example 1)
       /\ (forall k, In k (column google_example 1) ->
             dict_get table k
             = Ok (percentage (occurrences k (column google_example 1))
                     (Z.of_nat (length google_example))))
       /\ (forall k, ~ In k (column google_example 1) ->
             dict_get table k = Raise KeyError).
Proof.
  split; [exact google_example_category|].
  apply (freq_table_content google_example 1 google_example_category).
Defined.

(** X19. [freq_table] raises [IndexError] exactly when some row lacks the
    column, and no other exception: the division by the number of rows is
    never a division by zero, an empty dataset giving the empty table. *)
Theorem freq_table_failure (d : dataset) (index : Z) :
  (freq_table d index = Raise IndexError
   <-> exists r, In r d /\ ~ has_field r index)
  /\ (forall e, freq_table d index = Raise e -> e = IndexError)
  /\ freq_table [] index = Ok [].
Proof.
  split; [|split; [|reflexivity]].
  - destruct (all_or_one_lacks index d) as [H|H].
    + rewrite (freq_table_ok d index H). split; [discriminate|].
      intros (r & Hr & N). exfalso. apply N. apply H. exact Hr.
    + rewrite (freq_table_fail d index H). split; auto.
  - intros e. destruct (all_or_one_lacks index d) as [H|H].
    + rewrite (freq_table_ok d index H). discriminate.
    + rewrite (freq_table_fail d index H). congruence.
Qed.

(** X20. Whatever the size of the dataset, [display_table] prints the
    entries of the table [freq_table] returns, each of them once, and
    fails as [freq_table] fails. *)
Theorem display_table_lines (d : dataset) (index : Z) :
  (forall table, freq_table d index = Ok table ->
     exists lines, display_table d index = Ok lines
                /\ Permutation lines table)
  /\ (forall e, freq_table d index = Raise e ->
        display_table d index = Raise e).
Proof.
  split.
  - intros table E. unfold display_table. rewrite E. cbn [bind].
    assert (N : NoDup (dict_keys table)).
    { destruct (all_or_one_lacks index d) as [H|H].
      - rewrite (freq_table_ok d index H) in E. injection E as <-.
        rewrite freq_table_keys. apply tally_keys_nodup. constructor.
      - rewrite (freq_table_fail d index H) in E. discriminate. }
    pose proof (display_entries pyfloat table [] N) as D.
    cbn [app map] in D. rewrite D. cbn [bind]. eexists.
    split; [reflexivity|].
    rewrite <- (sorted_reverse_perm _ tuple_ltb).
    rewrite map_map. cbn [fst snd].
    rewrite (map_ext _ (fun x => x)) by (intros [k v]; reflexivity).
    rewrite map_id. reflexivity.
  - intros e E. unfold display_table. rewrite E. reflexivity.
Qed.

(** ** The exceptions of the average functions *)

(** A loop that raises does so in its body, on one of the elements. *)
Lemma for_each_raise (A S : Type) (body : A -> S -> result S)
    (l : list A) (s : S) (e : exn) :
  for_each l body s = Raise e ->
  exists x t, In x l /\ body x t = Raise e.
Proof.
  revert s. induction l as [|x l IH]; intros s E; simpl in E; [discriminate|].
  destruct (body x s) as [t|e'] eqn:B; cbn [bind] in E.
  - destruct (IH t E) as (y & u & Hy & Bu). exists y, u.
    split; [right; exact Hy | exact Bu].
  - injection E as ->. exists x, s. split; [left; reflexivity | exact B].
Qed.

Lemma freq_table_raises (d : dataset) (index : Z) (e : exn) :
  freq_table d index = Raise e ->
  e = IndexError /\ exists r, In r d /\ ~ has_field r index.
Proof.
  destruct (all_or_one_lacks index d) as [H|H].
  - rewrite (freq_table_ok d index H). discriminate.
  - rewrite (freq_table_fail d index H). intros [= <-]. split; [reflexivity|].
    exact H.
Qed.

Section AverageErrors.
Variable parse_float : str -> option pyfloat.
Variable norm : str -> str.
Variables gcol vcol : Z.

Lemma sum_body_raise (group : str) (r : row) (st : pyfloat * Z) (e : exn) :
  sum_body parse_float norm gcol vcol group r st = Raise e ->
  (e = IndexError /\ (~ has_field r gcol \/ ~ has_field r vcol))
  \/ (e = ValueError /\ parse_float (norm (field r vcol)) = None).
Proof.
  destruct st as [total len]. unfold sum_body.
  destruct (has_field_dec r gcol) as [[Fg Gg]|[Fg Gg]]; rewrite Gg; cbn [bind].
  2:{ intros [= <-]. left. split; [reflexivity | left; exact Fg]. }
  destruct (str_eqb (field r gcol) group); [|discriminate].
  destruct (has_field_dec r vcol) as [[Fv Gv]|[Fv Gv]]; rewrite Gv; cbn [bind].
  2:{ intros [= <-]. left. split; [reflexivity | right; exact Fv]. }
  unfold float_of_str.
  destruct (parse_float (norm (field r vcol))) eqn:P; cbn [bind];
    [discriminate|].
  intros [= <-]. right. split; reflexivity.
Qed.

(** The counter of the inner loop counts the rows of the group. *)
Lemma sum_loop_count (group : str) (d : dataset) (st st' : pyfloat * Z) :
  (forall r, In r d -> has_field r gcol) ->
  for_each d (sum_body parse_float norm gcol vcol group) st = Ok st' ->
  snd st' = (snd st + occurrences group (column d gcol))%Z.
Proof.
  revert st. induction d as [|r d IH]; intros [total len] H E.
  - simpl in E. injection E as <-. unfold occurrences. simpl. lia.
  - cbn [for_each] in E. unfold sum_body at 1 in E.
    rewrite (getitem_field r gcol (H r (or_introl eq_refl))) in E.
    cbn [bind] in E.
    assert (H' : forall x, In x d -> has_field x gcol)
      by (intros x Hx; apply H; right; exact Hx).
    unfold occurrences, column. cbn [map filter].
    rewrite (str_eqb_sym group (field r gcol)).
    destruct (str_eqb (field r gcol) group).
    + destruct (getitem r vcol) as [x|e]; [|discriminate]. cbn [bind] in E.
      destruct (float_of_str parse_float (norm x)) as [v|e]; [|discriminate].
      cbn [bind] in E. rewrite (IH _ H' E).
      unfold occurrences, column. cbn [snd length]. lia.
    + rewrite (IH _ H' E). unfold occurrences, column. cbn [snd]. lia.
Qed.

Lemma average_by_raise (d : dataset) (e : exn) :
  average_by parse_float norm gcol vcol d = Raise e ->
  (e = IndexError
   /\ exists r, In r d /\ (~ has_field r gcol \/ ~ has_field r vcol))
  \/ (e = ValueError
      /\ exists r, In r d /\ parse_float (norm (field r vcol)) = None).
Proof.
  unfold average_by. intros E.
  destruct (freq_table d gcol) as [freq|e'] eqn:F.
  2:{ cbn [bind] in E. injection E as ->.
      destruct (freq_table_raises d gcol e F) as [-> (r & Hr & N)].
      left. split; [reflexivity|]. exists r. auto. }
  cbn [bind] in E.
  assert (H : forall r, In r d -> has_field r gcol).
  { destruct (all_or_one_lacks gcol d) as [H|H]; [exact H|].
    rewrite (freq_table_fail d gcol H) in F. discriminate. }
  rewrite (freq_table_ok d gcol H) in F. injection F as <-.
  rewrite freq_table_keys in E.
  apply for_each_raise in E. destruct E as (g & res & Hg & B).
  apply (proj1 (tally_keys_column (column d gcol) g)) in Hg.
  destruct (for_each d (sum_body parse_float norm gcol vcol g)
              (float_of_int 0, 0%Z)) as [[total len]|e'] eqn:L;
    cbn [bind] in B.
  - pose proof (sum_loop_count g d _ _ H L) as C. cbn [snd] in C.
    pose proof (occurrences_bounds g (column d gcol) Hg) as O.
    unfold float_truediv_int in B.
    destruct (Z.eqb_spec len 0) as [Z0|Z0]; [lia|]. discriminate B.
  - injection B as ->. apply for_each_raise in L.
    destruct L as (r & t & Hr & S).
    destruct (sum_body_raise g r t e S) as [[-> N]|[-> N]].
    + left. split; [reflexivity|]. exists r. auto.
    + right. split; [reflexivity|]. exists r. auto.
Qed.

End AverageErrors.

(** X21. The average functions raise only [IndexError], and then some row
    lacks the grouping column or the numeric column, or [ValueError], and
    then [float] rejects the numeric field of some row.  They never divide
    by zero: a group has at least the row that named it, and an empty
    dataset gives the empty result. *)
Theorem averages_failures (parse_float : str -> option pyfloat)
    (d : dataset) :
  (forall e, compute_apple_genre_avg_ratings parse_float d = Raise e ->
     (e = IndexError
      /\ exists r, In r d /\ (~ has_field r 11 \/ ~ has_field r 5))
     \/ (e = ValueError
         /\ exists r, In r d /\ parse_float (field r 5) = None))
  /\ (forall e, compute_google_category_avg_installs parse_float d = Raise e ->
        (e = IndexError
         /\ exists r, In r d /\ (~ has_field r 1 \/ ~ has_field r 5))
        \/ (e = ValueError
            /\ exists r, In r d
                 /\ parse_float (normalize_installs (field r 5)) = None))
  /\ compute_apple_genre_avg_ratings parse_float [] = Ok []
  /\ compute_google_category_avg_installs parse_float [] = Ok [].
Proof.
  split; [|split; [|split; reflexivity]].
  - intros e. rewrite apple_is_average_by.
    apply (average_by_raise parse_float (fun s => s) 11 5 d e).
  - intros e. rewrite google_is_average_by.
    apply (average_by_raise parse_float normalize_installs 1 5 d e).
Qed.

(** ** [main]: the whole run *)

Section Run.
Variable opencsv : str -> result dataset.
Variable parse_float : str -> option pyfloat.




End Run.




(** What the run prints last on the two example files: the free English
    App Store rows are "Notes" and "Chess" (the price "0.00" of "Paint" is
    not one of the two accepted strings), and of the two rows of "A" the
    one with 9 reviews is kept. *)
Example main_scenario :
  main example_files ascii_float
  = Ok ([(utf8 "Productivity", float_of_int 10); (utf8 "Games", float_of_int 5)],
        [(utf8 "TOOLS", float_of_int 50000); (utf8 "GAME", float_of_int 1000)]).
Proof. vm_compute. reflexivity. Qed.
